(** * The reinforcement-learning agent of ReImproveJS ([src/lib/agent.ts])

    A shallow embedding of the class [Agent] and of the part of its
    surroundings that its methods touch: the tensors it builds, the value
    estimator ([Model]) and the experience store ([Memory]) it talks to, and
    the promise returned by the asynchronous [Model.fit].

    - A JavaScript [number] is an exact rational ([Q]); the step counters and
      the integer thresholds and sizes they are compared with are in [Z].
    - An action is a [number]: [policy] returns what [getHighestValue]
      returns, and [createInOutFromMemento] uses an action as an array key.
    - An array slot, a parameter or a field that may hold [undefined] is an
      [option]; [None] is [undefined] (also the hole of [new Array(n)]).
    - Tensors live in a store and are named by handles, as JavaScript objects
      are named by references: [statesBuffer.push(input)] keeps the caller's
      own tensor, and [clone], [concat], [tensor] and [tensor2d] allocate.
    - A method is a computation in a state monad over the [World] whose result
      is a completion: it returns normally or it throws, and what it changed
      before throwing stays changed.
    - Calls made on the collaborators are recorded in a trace.

    The configuration is taken to be complete: [learningConfig] and each of
    its fields are supplied. *)

From Stdlib Require Import String ZArith QArith Qround Bool Lia Lqa List.
Import ListNotations.

Set Implicit Arguments.

(** ** Numbers *)

Definition number := Q.

(** [x < y] on numbers. *)
Definition Qltb (x y : Q) : bool := negb (Qle_bool y x).

(** The array index a number denotes when used as a property key: a
    non-negative integer, or none. *)
Definition to_index (x : number) : option nat :=
  if Qeq_bool x (inject_Z (Qfloor x)) && (0 <=? Qfloor x)%Z
  then Some (Z.to_nat (Qfloor x))
  else None.

(** ** JavaScript arrays *)

(** [a[i]] for a numeric [i]: [undefined] outside the array and on a hole. *)
Definition array_get {X : Type} (a : list (option X)) (i : Z) : option X :=
  if (i <? 0)%Z then None
  else match nth_error a (Z.to_nat i) with
       | Some v => v
       | None => None
       end.

(** [a.shift(); a.push(x)]. *)
Definition shift_push {X : Type} (a : list (option X)) (x : X) : list (option X) :=
  tl a ++ [Some x].

(** [new Array(n)]: [n] holes. *)
Definition new_Array (X : Type) (n : Z) : list (option X) :=
  repeat None (Z.to_nat n).

(** lodash [range(0, n)]. *)
Definition range0 (n : nat) : list nat := seq 0 n.

Fixpoint list_update {X : Type} (l : list X) (i : nat) (v : X) : list X :=
  match l, i with
  | [], _ => []
  | _ :: t, O => v :: t
  | h :: t, S i' => h :: list_update t i' v
  end.

(** ** Tensors

    The operations of [@tensorflow/tfjs-core] the agent uses, on tensors of
    rank one and two. A tensor of rank two is the list of its rows. *)

Inductive Tensor :=
| Rank1 (values : list number)
| Rank2 (rows : list (list number)).

Definition Handle := nat.

(** [concat] along axis 1 joins the rows pairwise; along axis 0 it stacks
    them. The ranks must agree, the axis must exist and the other dimension
    must agree. *)
Definition widths_agree (a b : list (list number)) : bool :=
  forallb (fun r => forallb (fun r' => Nat.eqb (length r) (length r')) b) a.

Fixpoint join_rows (a b : list (list number)) : list (list number) :=
  match a, b with
  | r :: a', r' :: b' => (r ++ r') :: join_rows a' b'
  | _, _ => []
  end.

Definition concat_values (a b : Tensor) (axis : nat) : option Tensor :=
  match a, b, axis with
  | Rank1 u, Rank1 v, O => Some (Rank1 (u ++ v))
  | Rank2 u, Rank2 v, O => if widths_agree u v then Some (Rank2 (u ++ v)) else None
  | Rank2 u, Rank2 v, S O =>
      if Nat.eqb (length u) (length v) then Some (Rank2 (join_rows u v)) else None
  | _, _, _ => None
  end.

Fixpoint chunks (r c : nat) (l : list number) : list (list number) :=
  match r with
  | O => []
  | S r' => firstn c l :: chunks r' c (skipn c l)
  end.

(** ** The collaborators

    [model.ts] and [memory.ts] are not part of the sources at hand; the agent
    is embedded over any implementation of what it calls on them. The calls
    are taken to return: [predict] answers for every tensor that is there,
    and [remember], [sample], [Length] and the [add] of a window do not
    throw. *)

Record Memento := {
  action : option number;
  reward : number;
  state : option Handle;
  nextState : option Handle
}.

(** [Model]: [OutputSize], [predict] and the two readers of its [Result].
    [randomOutput] and [fit] are effects, embedded with the agent below. *)
Class Estimator (Model Result : Type) := {
  OutputSize : Model -> nat;
  predict : Model -> Tensor -> Result;
  getHighestValue : Result -> number;
  getValue : Result -> list number
}.

(** [Memory]: [new Memory({memorySize})], [remember], [Length] and [sample];
    the store carries whatever drives its sampling. *)
Class ExperienceStore (Memory : Type) := {
  Memory_new : Z -> Memory;
  Memory_remember : Memento -> Memory -> Memory;
  Memory_Length : Memory -> Z;
  Memory_sample : Z -> Memory -> list Memento * Memory
}.

(** Modelled from the spec: [TypedWindow] ([window.ts] is not part of the
    sources), the spec's BoundedStatWindow: [add] appends a sample and evicts
    the oldest one once [maxSize] is exceeded. *)
Record TypedWindow (T : Type) := {
  maxSize : nat;
  minSize : nat;
  samples : list T
}.

Definition TypedWindow_new (T : Type) (size minsize : nat) : TypedWindow T :=
  {| maxSize := size; minSize := minsize; samples := [] |}.

Definition TypedWindow_add {T : Type} (value : T) (win : TypedWindow T) : TypedWindow T :=
  let s := samples win ++ [value] in
  {| maxSize := maxSize win;
     minSize := minSize win;
     samples := if Nat.ltb (maxSize win) (length s) then tl s else s |}.

(** ** Configuration and tracking *)

Definition MEM_WINDOW_MIN_SIZE : Z := 2.
Definition HIST_WINDOW_SIZE : nat := 1000.
Definition HIST_WINDOW_MIN_SIZE : nat := 10.

Record LearningConfig := {
  gamma : number;
  epsilon : number;
  epsilonDecay : number;
  epsilonMin : number;
  learningRate : number;
  learningTime : Z;
  learningStepsRandom : Z
}.

Record AgentConfig := {
  memorySize : Z;
  batchSize : Z;
  temporalWindow : Z;
  learningConfig : LearningConfig
}.

Record TrackingInformation := {
  age : Z;
  forwardPasses : Z;
  learning : bool;
  averageLoss : number;
  averageReward : number
}.

(** ** What the methods can throw, and what they are seen to call *)

Inductive JsError :=
| TypeError (msg : string)
| TensorError (msg : string)
| Error (msg : string).

Inductive Completion (A : Type) :=
| Normal (a : A)
| Throw (e : JsError).
Arguments Normal {A} a.
Arguments Throw {A} e.

(** [EvReplay] is no call on a collaborator: it marks the entry into the
    private method [replay]. *)
Inductive Event :=
| EvRandom (u : number)
| EvRandomOutput (a : number)
| EvPredict (input : Handle)
| EvRemember (m : Memento)
| EvSample (n : Z)
| EvFit (x y : Handle) (epochs stepsPerEpoch : Z)
| EvReplay.

(** A dispatched [Model.fit] whose promise has not settled yet, and how it
    settles. *)
Record PendingFit := { fit_x : Handle; fit_y : Handle }.

Inductive FitOutcome :=
| Resolved (loss : list number)
| Rejected (reason : string).

(** The pair [createInOutFromMemento] returns. *)
Module InOut.
Record t := { x : option Handle; y : Handle }.
End InOut.

(** [val == a] for an index [val] of [range] and an array slot [a]. *)
Definition index_equals (val : nat) (a : option number) : bool :=
  match a with
  | Some q => Qeq_bool (inject_Z (Z.of_nat val)) q
  | None => false
  end.

(** The row [createNeuralNetInput] builds for one stored action. *)
Definition oneHot (size : nat) (a : option number) : list number :=
  map (fun val => if index_equals val a then 1%Q else 0%Q) (range0 size).

(** Modelled from the spec: the array [getValue] returns ([model.ts] is not
    part of the sources), the full vector of the predicted values, of fixed
    length. [arr[key] = v] with a key that is not one of its indices leaves
    the entries as they are. *)
Definition array_store (arr : list number) (key : option number) (v : number) : list number :=
  match key with
  | Some k =>
      match to_index k with
      | Some i => list_update arr i v
      | None => arr
      end
  | None => arr
  end.

Fixpoint remove_nth {X : Type} (i : nat) (l : list X) : list X :=
  match l, i with
  | [], _ => []
  | _ :: t, O => t
  | h :: t, S i' => h :: remove_nth i' t
  end.

Section AgentModel.

Context {Model Result Memory : Type}.
Context {Est : Estimator Model Result} {Store : ExperienceStore Memory}.

(** ** The agent and the world it runs in *)

Record Agent := {
  done : bool;
  track : TrackingInformation;
  currentReward : number;
  actionsBuffer : list (option number);
  statesBuffer : list (option Handle);
  inputsBuffer : list (option Handle);
  rewardsHistory : TypedWindow number;
  lossesHistory : TypedWindow (option number);
  netInputWindowSize : Z;
  model : Model;
  config : AgentConfig;
  memory : Memory
}.

Record World := {
  agent : Agent;
  heap : list Tensor;
  pendingFits : list PendingFit;
  unhandledRejections : list JsError;
  trace : list Event
}.

(** Field updates. *)

Definition set_age (v : Z) (t : TrackingInformation) : TrackingInformation :=
  {| age := v; forwardPasses := forwardPasses t; learning := learning t;
     averageLoss := averageLoss t; averageReward := averageReward t |}.

Definition set_forwardPasses (v : Z) (t : TrackingInformation) : TrackingInformation :=
  {| age := age t; forwardPasses := v; learning := learning t;
     averageLoss := averageLoss t; averageReward := averageReward t |}.

Definition set_epsilon (v : number) (c : AgentConfig) : AgentConfig :=
  {| memorySize := memorySize c; batchSize := batchSize c;
     temporalWindow := temporalWindow c;
     learningConfig :=
       {| gamma := gamma (learningConfig c); epsilon := v;
          epsilonDecay := epsilonDecay (learningConfig c);
          epsilonMin := epsilonMin (learningConfig c);
          learningRate := learningRate (learningConfig c);
          learningTime := learningTime (learningConfig c);
          learningStepsRandom := learningStepsRandom (learningConfig c) |} |}.

Definition set_track (v : TrackingInformation) (a : Agent) : Agent :=
  {| done := done a; track := v; currentReward := currentReward a;
     actionsBuffer := actionsBuffer a; statesBuffer := statesBuffer a;
     inputsBuffer := inputsBuffer a; rewardsHistory := rewardsHistory a;
     lossesHistory := lossesHistory a; netInputWindowSize := netInputWindowSize a;
     model := model a; config := config a; memory := memory a |}.

Definition set_currentReward (v : number) (a : Agent) : Agent :=
  {| done := done a; track := track a; currentReward := v;
     actionsBuffer := actionsBuffer a; statesBuffer := statesBuffer a;
     inputsBuffer := inputsBuffer a; rewardsHistory := rewardsHistory a;
     lossesHistory := lossesHistory a; netInputWindowSize := netInputWindowSize a;
     model := model a; config := config a; memory := memory a |}.

Definition set_buffers (acts : list (option number)) (sts ins : list (option Handle))
    (a : Agent) : Agent :=
  {| done := done a; track := track a; currentReward := currentReward a;
     actionsBuffer := acts; statesBuffer := sts;
     inputsBuffer := ins; rewardsHistory := rewardsHistory a;
     lossesHistory := lossesHistory a; netInputWindowSize := netInputWindowSize a;
     model := model a; config := config a; memory := memory a |}.

Definition set_rewardsHistory (v : TypedWindow number) (a : Agent) : Agent :=
  {| done := done a; track := track a; currentReward := currentReward a;
     actionsBuffer := actionsBuffer a; statesBuffer := statesBuffer a;
     inputsBuffer := inputsBuffer a; rewardsHistory := v;
     lossesHistory := lossesHistory a; netInputWindowSize := netInputWindowSize a;
     model := model a; config := config a; memory := memory a |}.

Definition set_lossesHistory (v : TypedWindow (option number)) (a : Agent) : Agent :=
  {| done := done a; track := track a; currentReward := currentReward a;
     actionsBuffer := actionsBuffer a; statesBuffer := statesBuffer a;
     inputsBuffer := inputsBuffer a; rewardsHistory := rewardsHistory a;
     lossesHistory := v; netInputWindowSize := netInputWindowSize a;
     model := model a; config := config a; memory := memory a |}.

Definition set_model (v : Model) (a : Agent) : Agent :=
  {| done := done a; track := track a; currentReward := currentReward a;
     actionsBuffer := actionsBuffer a; statesBuffer := statesBuffer a;
     inputsBuffer := inputsBuffer a; rewardsHistory := rewardsHistory a;
     lossesHistory := lossesHistory a; netInputWindowSize := netInputWindowSize a;
     model := v; config := config a; memory := memory a |}.

Definition set_config (v : AgentConfig) (a : Agent) : Agent :=
  {| done := done a; track := track a; currentReward := currentReward a;
     actionsBuffer := actionsBuffer a; statesBuffer := statesBuffer a;
     inputsBuffer := inputsBuffer a; rewardsHistory := rewardsHistory a;
     lossesHistory := lossesHistory a; netInputWindowSize := netInputWindowSize a;
     model := model a; config := v; memory := memory a |}.

Definition set_memory (v : Memory) (a : Agent) : Agent :=
  {| done := done a; track := track a; currentReward := currentReward a;
     actionsBuffer := actionsBuffer a; statesBuffer := statesBuffer a;
     inputsBuffer := inputsBuffer a; rewardsHistory := rewardsHistory a;
     lossesHistory := lossesHistory a; netInputWindowSize := netInputWindowSize a;
     model := model a; config := config a; memory := v |}.

Definition set_agent (v : Agent) (w : World) : World :=
  {| agent := v; heap := heap w; pendingFits := pendingFits w;
     unhandledRejections := unhandledRejections w; trace := trace w |}.

Definition set_heap (v : list Tensor) (w : World) : World :=
  {| agent := agent w; heap := v; pendingFits := pendingFits w;
     unhandledRejections := unhandledRejections w; trace := trace w |}.

Definition set_pendingFits (v : list PendingFit) (w : World) : World :=
  {| agent := agent w; heap := heap w; pendingFits := v;
     unhandledRejections := unhandledRejections w; trace := trace w |}.

Definition set_unhandledRejections (v : list JsError) (w : World) : World :=
  {| agent := agent w; heap := heap w; pendingFits := pendingFits w;
     unhandledRejections := v; trace := trace w |}.

Definition set_trace (v : list Event) (w : World) : World :=
  {| agent := agent w; heap := heap w; pendingFits := pendingFits w;
     unhandledRejections := unhandledRejections w; trace := v |}.

(** ** Computations *)

Definition M (A : Type) : Type := World -> Completion A * World.

Definition ret {A : Type} (a : A) : M A := fun w => (Normal a, w).

Definition bind {A B : Type} (m : M A) (k : A -> M B) : M B :=
  fun w =>
    match m w with
    | (Normal a, w') => k a w'
    | (Throw e, w') => (Throw e, w')
    end.

Definition throw {A : Type} (e : JsError) : M A := fun w => (Throw e, w).

Definition gets {A : Type} (f : World -> A) : M A := fun w => (Normal (f w), w).

Definition modify (f : World -> World) : M unit := fun w => (Normal tt, f w).

(** [this.field = ...]. *)
Definition assign (f : Agent -> Agent) : M unit :=
  modify (fun w => set_agent (f (agent w)) w).

Definition emit (e : Event) : M unit :=
  modify (fun w => set_trace (trace w ++ [e]) w).

End AgentModel.

Arguments Agent : clear implicits.
Arguments World : clear implicits.

Declare Scope js_scope.
Delimit Scope js_scope with js.
Notation "x <- c1 ;; c2" := (bind c1 (fun x => c2))
  (at level 61, c1 at next level, right associativity) : js_scope.
Notation "' pat <- c1 ;; c2" := (bind c1 (fun pat => c2))
  (at level 61, pat pattern, c1 at next level, right associativity) : js_scope.
Notation "c1 ;; c2" := (bind c1 (fun _ => c2))
  (at level 61, right associativity) : js_scope.

Section Methods.

Context {Model Result Memory : Type}.
Context {Est : Estimator Model Result} {Store : ExperienceStore Memory}.

Local Abbreviation Agent := (Agent Model Memory).
Local Abbreviation World := (World Model Memory).
Local Abbreviation M := (@M Model Memory).

Open Scope js_scope.

(** ** Tensor objects *)

Definition alloc (t : Tensor) : M Handle :=
  fun w => (Normal (length (heap w)), set_heap (heap w ++ [t]) w).

Definition deref (h : Handle) : M Tensor :=
  fun w =>
    match nth_error (heap w) h with
    | Some t => (Normal t, w)
    | None => (Throw (TensorError "Tensor is disposed"), w)
    end.

(** [t.clone()]. *)
Definition Tensor_clone (t : Handle) : M Handle :=
  v <- deref t;; alloc v.

(** [a.concat(b, axis)]. *)
Definition Tensor_concat (a b : option Handle) (axis : nat) : M Handle :=
  match a, b with
  | Some a, Some b =>
      va <- deref a;;
      vb <- deref b;;
      match concat_values va vb axis with
      | Some v => alloc v
      | None => throw (TensorError "Error in concat: shapes do not match")
      end
  | None, _ => throw (TypeError "Cannot read property 'concat' of undefined")
  | _, None => throw (TypeError "Cannot read property 'shape' of undefined")
  end.

(** [tensor(values)] for a flat array and for an array of rows. *)
Definition tensor (v : Tensor) : M Handle := alloc v.

(** [tensor2d(values, [r, c])] for a flat array of values. *)
Definition tensor2d (values : list number) (r c : nat) : M Handle :=
  if Nat.eqb (length values) (r * c)
  then alloc (Rank2 (chunks r c values))
  else throw (TensorError "tensor2d: the shape does not match the number of values").

(** ** Calls on the collaborators *)

(** [this.model.predict(input)]. *)
Definition Model_predict (input : option Handle) : M Result :=
  match input with
  | Some h =>
      v <- deref h;;
      emit (EvPredict h);;
      this <- gets agent;;
      ret (predict (model this) v)
  | None => throw (TypeError "predict: the input is undefined")
  end.

(** [this.model.randomOutput()], which answers [a]. *)
Definition Model_randomOutput (a : number) : M number :=
  emit (EvRandomOutput a);; ret a.

(** lodash [random(0, 1, true)], which answers [u]. *)
Definition lodash_random (u : number) : M number :=
  emit (EvRandom u);; ret u.

(** [this.model.fit(x, y, {epochs, stepsPerEpoch})]: the call returns a
    promise at once; the training result arrives later. *)
Definition Model_fit (x : option Handle) (y : Handle) (epochs stepsPerEpoch : Z) : M unit :=
  match x with
  | Some x =>
      emit (EvFit x y epochs stepsPerEpoch);;
      modify (fun w => set_pendingFits (pendingFits w ++ [{| fit_x := x; fit_y := y |}]) w)
  | None => throw (TypeError "fit: the input is undefined")
  end.

(** [this.memory.remember(m)]. *)
Definition Memory_remember_call (m : Memento) : M unit :=
  emit (EvRemember m);;
  assign (fun a => set_memory (Memory_remember m (memory a)) a).

(** [this.memory.sample(n)]. *)
Definition Memory_sample_call (n : Z) : M (list Memento) :=
  emit (EvSample n);;
  this <- gets agent;;
  let '(batch, store) := Memory_sample n (memory this) in
  assign (set_memory store);;
  ret batch.

(** [array.map(f)] and [array.reduce(f)] (no initial value) for callbacks
    that are computations. *)
Fixpoint mapM {A B : Type} (f : A -> M B) (l : list A) : M (list B) :=
  match l with
  | [] => ret []
  | a :: t => b <- f a;; bs <- mapM f t;; ret (b :: bs)
  end.

Fixpoint foldM {A B : Type} (f : B -> A -> M B) (acc : B) (l : list A) : M B :=
  match l with
  | [] => ret acc
  | a :: t => acc' <- f acc a;; foldM f acc' t
  end.

Definition reduce {A : Type} (f : A -> A -> M A) (l : list A) : M A :=
  match l with
  | [] => throw (TypeError "Reduce of empty array with no initial value")
  | a :: t => foldM f a t
  end.

(** ** The class [Agent] *)

(** The constructor; [memory] is the optional third argument. *)
Definition Agent_new (model : Model) (config : AgentConfig) (memory : option Memory) : Agent :=
  let netInputWindowSize := Z.max (temporalWindow config) MEM_WINDOW_MIN_SIZE in
  {| done := false;
     track := {| age := 0; forwardPasses := 0; learning := true;
                 averageLoss := 0; averageReward := 0 |};
     currentReward := 0;
     rewardsHistory := TypedWindow_new number HIST_WINDOW_SIZE HIST_WINDOW_MIN_SIZE;
     lossesHistory := TypedWindow_new (option number) HIST_WINDOW_SIZE HIST_WINDOW_MIN_SIZE;
     netInputWindowSize := netInputWindowSize;
     actionsBuffer := new_Array number netInputWindowSize;
     inputsBuffer := new_Array Handle netInputWindowSize;
     statesBuffer := new_Array Handle netInputWindowSize;
     model := model;
     config := config;
     memory := match memory with
               | Some m => m
               | None => Memory_new (memorySize config)
               end |}.

(** The body of the loop of [createNeuralNetInput], for [n] more rounds from
    index [i]. *)
Fixpoint createNeuralNetInput_loop (n : nat) (i : Z) (finalInput : Handle) : M Handle :=
  match n with
  | O => ret finalInput
  | S n' =>
      this <- gets agent;;
      finalInput <- Tensor_concat (Some finalInput)
                      (array_get (statesBuffer this) (netInputWindowSize this - 1 - i)) 1;;
      ten <- tensor (Rank2 [oneHot (OutputSize (model this))
                              (array_get (actionsBuffer this) (netInputWindowSize this - 1 - i))]);;
      finalInput <- Tensor_concat (Some finalInput) (Some ten) 1;;
      createNeuralNetInput_loop n' (i + 1) finalInput
  end.

Definition createNeuralNetInput (input : Handle) : M Handle :=
  finalInput <- Tensor_clone input;;
  this <- gets agent;;
  createNeuralNetInput_loop (Z.to_nat (temporalWindow (config this))) 0 finalInput.

Definition policy (input : Handle) : M number :=
  r <- Model_predict (Some input);;
  ret (getHighestValue r).

(** Lines 87 to 93 of [forward]: the decay of epsilon. *)
Definition forward_decay : M unit :=
  this <- gets agent;;
  let lc := learningConfig (config this) in
  if (age (track this) <? learningTime lc)%Z then
    if (learningStepsRandom lc <? age (track this))%Z && Qltb (epsilonMin lc) (epsilon lc)
    then assign (fun a => set_config (set_epsilon (epsilon lc * epsilonDecay lc)%Q (config a)) a)
    else ret tt
  else ret tt.

(** [forward(input)]; [u] is what [random(0, 1, true)] answers and
    [randomAction] what [randomOutput()] answers, should they be called. *)
Definition forward (input : Handle) (u randomAction : number) : M number :=
  assign (fun a => set_track (set_forwardPasses (forwardPasses (track a) + 1)%Z (track a)) a);;
  forward_decay;;
  this <- gets agent;;
  '(action, netInput) <-
    (if (temporalWindow (config this) <? forwardPasses (track this))%Z then
       netInput <- createNeuralNetInput input;;
       x <- lodash_random u;;
       this <- gets agent;;
       if Qltb x (epsilon (learningConfig (config this))) then
         action <- Model_randomOutput randomAction;;
         ret (action, netInput)
       else
         action <- policy netInput;;
         ret (action, netInput)
     else
       action <- Model_randomOutput randomAction;;
       netInput <- tensor (Rank1 []);;
       ret (action, netInput));;
  assign (fun a => set_buffers (shift_push (actionsBuffer a) action)
                               (shift_push (statesBuffer a) input)
                               (shift_push (inputsBuffer a) netInput) a);;
  ret action.

Definition addReward (value : number) : M unit :=
  assign (fun a => set_currentReward (currentReward a + value)%Q a).

Definition setReward (value : number) : M unit :=
  assign (set_currentReward value).

(** Lines 158 to 161 of [createInOutFromMemento]: the target. *)
Definition createInOutFromMemento_target (memento : Memento) : M number :=
  this <- gets agent;;
  if negb (done this) then
    r <- Model_predict (nextState memento);;
    ret (reward memento + gamma (learningConfig (config this)) * getHighestValue r)%Q
  else ret (reward memento).

Definition createInOutFromMemento (memento : Memento) : M InOut.t :=
  target <- createInOutFromMemento_target memento;;
  r <- Model_predict (state memento);;
  let future_target := array_store (getValue r) (action memento) target in
  y <- tensor2d future_target 1 3;;
  ret {| InOut.x := state memento; InOut.y := y |}.

(** The callback of [reduce] in [replay]. *)
Definition replay_concat (previousValue currentValue : InOut.t) : M InOut.t :=
  x <- Tensor_concat (InOut.x previousValue) (InOut.x currentValue) 0;;
  y <- Tensor_concat (Some (InOut.y previousValue)) (Some (InOut.y currentValue)) 0;;
  ret {| InOut.x := Some x; InOut.y := y |}.

Definition replay : M unit :=
  emit EvReplay;;
  this <- gets agent;;
  batch <- Memory_sample_call (batchSize (config this));;
  pairs <- mapM createInOutFromMemento batch;;
  trainData <- reduce replay_concat pairs;;
  Model_fit (InOut.x trainData) (InOut.y trainData) 1 1;;
  setReward 0.

Definition backward : M unit :=
  this <- gets agent;;
  assign (set_rewardsHistory (TypedWindow_add (currentReward this) (rewardsHistory this)));;
  assign (fun a => set_track (set_age (age (track a) + 1)%Z (track a)) a);;
  this <- gets agent;;
  if negb (learning (track this))
     || (forwardPasses (track this) <=? temporalWindow (config this) + 1)%Z
  then ret tt
  else
    Memory_remember_call
      {| action := array_get (actionsBuffer this) (netInputWindowSize this - MEM_WINDOW_MIN_SIZE);
         reward := currentReward this;
         state := array_get (inputsBuffer this) (netInputWindowSize this - MEM_WINDOW_MIN_SIZE);
         nextState := array_get (inputsBuffer this) (netInputWindowSize this - 1) |};;
    this <- gets agent;;
    if (Memory_Length (memory this) <=? learningStepsRandom (learningConfig (config this)))%Z
    then ret tt
    else replay.

(** ** The promise of [fit]

    The two callbacks [replay] hands to [then], and the settling of the
    [i]-th pending fit: the callback for the outcome runs; if it throws, the
    promise [then] returned is rejected, and as [replay] dropped that promise
    the rejection has no handler. *)

Definition replay_onFulfilled (loss : list number) : M unit :=
  assign (fun a => set_lossesHistory (TypedWindow_add (nth_error loss 0) (lossesHistory a)) a).

Definition replay_onRejected (reason : string) : M unit :=
  throw (Error "Unable to realize fit correctly").

Definition settleFit (i : nat) (outcome : FitOutcome) (w : World) : World :=
  match nth_error (pendingFits w) i with
  | None => w
  | Some _ =>
      let w1 := set_pendingFits (remove_nth i (pendingFits w)) w in
      let callback := match outcome with
                      | Resolved loss => replay_onFulfilled loss
                      | Rejected reason => replay_onRejected reason
                      end in
      match callback w1 with
      | (Normal _, w2) => w2
      | (Throw e, w2) => set_unhandledRejections (unhandledRejections w2 ++ [e]) w2
      end
  end.

(** ** Runs

    What the agent's owner can do, and what happens around it: tensors are
    created, the estimator is trained by a running fit, a fit settles. *)

Inductive Call :=
| CallForward (input : Handle) (u randomAction : number)
| CallBackward
| CallAddReward (value : number)
| CallSetReward (value : number)
| CallCreateInOutFromMemento (memento : Memento)
| EnvTensor (t : Tensor)
| EnvTrained (m : Model)
| EnvSettleFit (i : nat) (outcome : FitOutcome).

Definition step (c : Call) (w : World) : World :=
  match c with
  | CallForward input u randomAction => snd (forward input u randomAction w)
  | CallBackward => snd (backward w)
  | CallAddReward value => snd (addReward value w)
  | CallSetReward value => snd (setReward value w)
  | CallCreateInOutFromMemento memento => snd (createInOutFromMemento memento w)
  | EnvTensor t => snd (alloc t w)
  | EnvTrained m => set_agent (set_model m (agent w)) w
  | EnvSettleFit i outcome => settleFit i outcome w
  end.

Definition run (calls : list Call) (w : World) : World :=
  fold_left (fun w c => step c w) calls w.

(** The world right after [new Agent(model, config, memory)], the tensors
    of [tensors] being there already. *)
Definition boot (model : Model) (config : AgentConfig) (memory : option Memory)
    (tensors : list Tensor) : World :=
  {| agent := Agent_new model config memory;
     heap := tensors;
     pendingFits := [];
     unhandledRejections := [];
     trace := [] |}.

End Methods.


(** * What the properties are stated with *)

(** A trace event that is not a call of [remember]. *)
Definition NotRemember (e : Event) : Prop :=
  match e with
  | EvRemember _ => False
  | _ => True
  end.

(** The one-hot row, as the spec words it: of length [size], holding 1 at
    the index of the action and 0 elsewhere. *)
Definition spec_oneHot (size : nat) (a : option number) : list number :=
  match a with
  | Some q =>
      match to_index q with
      | Some k =>
          if Nat.ltb k size
          then repeat 0%Q k ++ 1%Q :: repeat 0%Q (size - k - 1)
          else repeat 0%Q size
      | None => repeat 0%Q size
      end
  | None => repeat 0%Q size
  end.

(** The row of a stored tensor of one row. *)
Definition stored_row (hp : list Tensor) (s : option Handle) : option (list number) :=
  match s with
  | Some h =>
      match nth_error hp h with
      | Some (Rank2 [r]) => Some r
      | _ => None
      end
  | None => None
  end.

Fixpoint all_defined {X : Type} (l : list (option X)) : option (list X) :=
  match l with
  | [] => Some []
  | Some v :: t =>
      match all_defined t with
      | Some vs => Some (v :: vs)
      | None => None
      end
  | None :: _ => None
  end.

(** The tensor a slot names, for slots that name one. *)
Definition tensor_at (hp : list Tensor) (s : option Handle) : Tensor :=
  match s with
  | Some h => nth h hp (Rank1 [])
  | None => Rank1 []
  end.

(** The rows of the state of a memento. *)
Definition spec_rows (hp : list Tensor) (m : Memento) : list (list number) :=
  match tensor_at hp (state m) with
  | Rank2 rows => rows
  | Rank1 _ => []
  end.

(** The pairs of a batch: the label of the [k]-th memento is the [k]-th
    tensor made. *)
Fixpoint pairs_from (base : nat) (batch : list Memento) : list InOut.t :=
  match batch with
  | [] => []
  | m :: t => {| InOut.x := state m; InOut.y := base |} :: pairs_from (S base) t
  end.

(** A pair whose two tensors hold the rows [xs] and [ys]. *)
Definition pair_holds (hp : list Tensor) (p : InOut.t) (xs ys : list (list number)) : Prop :=
  exists hx,
    InOut.x p = Some hx /\
    nth_error hp hx = Some (Rank2 xs) /\
    nth_error hp (InOut.y p) = Some (Rank2 ys).

Definition all_width (c : nat) (rows : list (list number)) : Prop :=
  Forall (fun r => length r = c) rows.

Definition pair_fits (hp : list Tensor) (c : nat) (p : InOut.t)
    (v : list (list number) * list (list number)) : Prop :=
  pair_holds hp p (fst v) (snd v) /\ all_width c (fst v) /\ all_width 3 (snd v).

Section Specification.

Context {Model Result Memory : Type}.
Context {Est : Estimator Model Result} {Store : ExperienceStore Memory}.

Local Abbreviation Agent := (Agent Model Memory).
Local Abbreviation World := (World Model Memory).
Local Abbreviation M := (@M Model Memory).

Open Scope js_scope.

(** ** What a computation leaves related

    [Keeps R m]: whatever [m] does, and whether it returns or throws, the
    world it leaves is [R]-related to the one it started in. *)

Definition Keeps {A : Type} (R : World -> World -> Prop) (m : M A) : Prop :=
  forall w, R w (snd (m w)).

(** The relations kept. *)

Definition Unchanged {X : Type} (proj : World -> X) (w w' : World) : Prop :=
  proj w' = proj w.

Definition HeapGrows (w w' : World) : Prop :=
  exists extra, heap w' = heap w ++ extra.

Definition TraceGrows (P : Event -> Prop) (w w' : World) : Prop :=
  exists new, trace w' = trace w ++ new /\ Forall P new.

(** The parts of the world the relations are about. *)

Definition the_agent (w : World) : Agent := agent w.
Definition the_config (w : World) : AgentConfig := config (agent w).
Definition the_done (w : World) : bool := done (agent w).
Definition the_trace (w : World) : list Event := trace w.
Definition the_promises (w : World) : list PendingFit * list JsError :=
  (pendingFits w, unhandledRejections w).

(** The configuration but for epsilon, which is the one field that moves. *)
Definition the_settings (w : World) : AgentConfig := set_epsilon 0 (config (agent w)).

Definition the_epsilon (w : World) : number := epsilon (learningConfig (config (agent w))).

(** What [replay] leaves alone: all of the agent but its store and its
    accumulated reward. *)
Definition the_records (w : World) :=
  (done (agent w), track (agent w), config (agent w),
   (actionsBuffer (agent w), statesBuffer (agent w), inputsBuffer (agent w)),
   (rewardsHistory (agent w), lossesHistory (agent w)),
   (netInputWindowSize (agent w), model (agent w))).

(** All but the heap. *)
Definition the_rest (w : World) :=
  (agent w, trace w, pendingFits w, unhandledRejections w).

(** ** [forward] in two parts *)

(** The test of lines 87 to 90, as one boolean. *)
Definition decay_due (a : Agent) : bool :=
  let lc := learningConfig (config a) in
  (age (track a) <? learningTime lc)%Z
  && ((learningStepsRandom lc <? age (track a))%Z && Qltb (epsilonMin lc) (epsilon lc)).

(** The tail of [forward], from the test of [forwardPasses] on. *)
Definition forward_act (input : Handle) (u randomAction : number) : M number :=
  this <- gets agent;;
  '(action, netInput) <-
    (if (temporalWindow (config this) <? forwardPasses (track this))%Z then
       netInput <- createNeuralNetInput input;;
       x <- lodash_random u;;
       this <- gets agent;;
       if Qltb x (epsilon (learningConfig (config this))) then
         action <- Model_randomOutput randomAction;;
         ret (action, netInput)
       else
         action <- policy netInput;;
         ret (action, netInput)
     else
       action <- Model_randomOutput randomAction;;
       netInput <- tensor (Rank1 []);;
       ret (action, netInput));;
  assign (fun a => set_buffers (shift_push (actionsBuffer a) action)
                               (shift_push (statesBuffer a) input)
                               (shift_push (inputsBuffer a) netInput) a);;
  ret action.

(** ** [backward] by cases *)

(** The world [backward] is in when it reaches its first test, the memento
    it builds, and the world it is in once it has called [remember]. *)
Definition backward_recorded (w : World) : World :=
  set_agent
    (set_track (set_age (age (track (agent w)) + 1)%Z (track (agent w)))
       (set_rewardsHistory
          (TypedWindow_add (currentReward (agent w)) (rewardsHistory (agent w)))
          (agent w))) w.

Definition backward_memento (a : Agent) : Memento :=
  {| action := array_get (actionsBuffer a) (netInputWindowSize a - MEM_WINDOW_MIN_SIZE);
     reward := currentReward a;
     state := array_get (inputsBuffer a) (netInputWindowSize a - MEM_WINDOW_MIN_SIZE);
     nextState := array_get (inputsBuffer a) (netInputWindowSize a - 1) |}.

Definition backward_remembered (w : World) : World :=
  let w1 := backward_recorded w in
  set_agent (set_memory (Memory_remember (backward_memento (agent w)) (memory (agent w)))
               (agent w1))
    (set_trace (trace w ++ [EvRemember (backward_memento (agent w))]) w1).

(** The two tests of [backward], each as one boolean. *)
Definition backward_stores (a : Agent) : bool :=
  learning (track a) && (temporalWindow (config a) + 1 <? forwardPasses (track a))%Z.

Definition backward_replays (a : Agent) : bool :=
  backward_stores a
  && (learningStepsRandom (learningConfig (config a))
      <? Memory_Length (Memory_remember (backward_memento a) (memory a)))%Z.

(** ** [replay] in two parts: up to the call of [fit], and from it on *)

Definition replay_prepare : M InOut.t :=
  emit EvReplay;;
  this <- gets agent;;
  batch <- Memory_sample_call (batchSize (config this));;
  pairs <- mapM createInOutFromMemento batch;;
  reduce replay_concat pairs.

Definition replay_dispatch (trainData : InOut.t) : M unit :=
  Model_fit (InOut.x trainData) (InOut.y trainData) 1 1;;
  setReward 0.

(** ** The encoded input, as the spec words it

    A stored frame contributes the row of its state followed by the one-hot
    row of its action; the encoded input is the row of the current
    observation followed by what the frames at positions
    [netInputWindowSize - 1 - i], [i = 0 .. temporalWindow - 1], contribute,
    in that order. It is defined when the tensors it reads are there and have
    one row each; with no history to read, it is the current observation,
    whatever its shape. *)

Definition spec_frame (w : World) (i : nat) : option (list number) :=
  let a := agent w in
  let position := (netInputWindowSize a - 1 - Z.of_nat i)%Z in
  match stored_row (heap w) (array_get (statesBuffer a) position) with
  | Some r =>
      Some (r ++ spec_oneHot (OutputSize (model a)) (array_get (actionsBuffer a) position))
  | None => None
  end.

Definition spec_encodedInput (w : World) (input : Handle) : option Tensor :=
  match nth_error (heap w) input with
  | Some observation =>
      match Z.to_nat (temporalWindow (config (agent w))) with
      | O => Some observation
      | S _ as steps =>
          match observation, all_defined (map (spec_frame w) (seq 0 steps)) with
          | Rank2 [r], Some frames => Some (Rank2 [r ++ concat frames])
          | _, _ => None
          end
      end
  | None => None
  end.

(** ** A training pair, as the spec words it

    Read off a memento: the target, the label row (the prediction for the
    state with the entry of the action replaced by the target) and the
    predictions asked of the estimator. *)

Definition spec_target (a : Agent) (hp : list Tensor) (m : Memento) : number :=
  if done a then reward m
  else (reward m
        + gamma (learningConfig (config a))
          * getHighestValue (predict (model a) (tensor_at hp (nextState m))))%Q.

Definition spec_label (a : Agent) (hp : list Tensor) (m : Memento) : list number :=
  array_store (getValue (predict (model a) (tensor_at hp (state m))))
    (action m) (spec_target a hp m).

Definition spec_predictions (a : Agent) (m : Memento) : list Event :=
  (if done a then []
   else match nextState m with
        | Some hn => [EvPredict hn]
        | None => []
        end)
  ++ match state m with
     | Some hs => [EvPredict hs]
     | None => []
     end.

(** A memento a training pair can be made of: its two states are tensors
    that are there, the state has rows of [c] entries, and the estimator
    predicts three values for it. *)
Definition trainable (a : Agent) (hp : list Tensor) (c : nat) (m : Memento) : bool :=
  match state m, nextState m with
  | Some hs, Some hn =>
      match nth_error hp hs, nth_error hp hn with
      | Some (Rank2 rows), Some _ =>
          forallb (fun r => Nat.eqb (length r) c) rows
          && Nat.eqb (length (getValue (predict (model a) (Rank2 rows)))) 3
      | _, _ => false
      end
  | _, _ => false
  end.

(** ** What the further properties are stated with *)

(** The choice of [forward], lines 97 to 111: the action and the encoded
    input, for the agent [this] as it is after the decay step. *)
Definition forward_choose (this : Agent) (input : Handle) (u randomAction : number)
    : M (number * Handle) :=
  if (temporalWindow (config this) <? forwardPasses (track this))%Z then
    netInput <- createNeuralNetInput input;;
    x <- lodash_random u;;
    this <- gets agent;;
    if Qltb x (epsilon (learningConfig (config this))) then
      action <- Model_randomOutput randomAction;;
      ret (action, netInput)
    else
      action <- policy netInput;;
      ret (action, netInput)
  else
    action <- Model_randomOutput randomAction;;
    netInput <- tensor (Rank1 []);;
    ret (action, netInput).

(** The world [forward] makes its choice in: one more forward pass, and the
    decay step done. *)
Definition forward_ready (w : World) : World :=
  snd (forward_decay
         (set_agent (set_track (set_forwardPasses (forwardPasses (track (agent w)) + 1)%Z
                                  (track (agent w))) (agent w)) w)).

(** What learning is about, which [forward] leaves alone. *)
Definition the_learning (w : World) :=
  (memory (agent w), currentReward (agent w),
   (rewardsHistory (agent w), lossesHistory (agent w)),
   (age (track (agent w)), learning (track (agent w))),
   (done (agent w), model (agent w), netInputWindowSize (agent w)),
   (pendingFits w, unhandledRejections w)).

(** What acting is about, which [backward] leaves alone. *)
Definition the_acting (w : World) :=
  (actionsBuffer (agent w), statesBuffer (agent w), inputsBuffer (agent w),
   (forwardPasses (track (agent w)), learning (track (agent w))),
   config (agent w),
   (done (agent w), model (agent w), netInputWindowSize (agent w)),
   (lossesHistory (agent w), unhandledRejections w)).

(** The reward and the fits. *)
Definition the_reward_and_fits (w : World) :=
  (currentReward (agent w), pendingFits w, unhandledRejections w).

(** A tensor of one row that is there. *)
Definition one_row (hp : list Tensor) (h : Handle) : Prop :=
  exists r, nth_error hp h = Some (Rank2 [r]).

(** The last [k] slots of a buffer are filled, with values that satisfy
    [P]. *)
Definition trailing {X : Type} (P : X -> Prop) (k : nat) (buf : list (option X)) : Prop :=
  forall i, (length buf - k <= i < length buf)%nat ->
            exists x, nth_error buf i = Some (Some x) /\ P x.

(** The agent between two calls, [forward] having been given observations
    of one row: the buffers have [netInputWindowSize] slots; the states and
    the actions of the forward passes made are there, as far as the buffers
    reach; so are the encoded inputs of the passes made after the warm-up. *)
Definition Settled (w : World) : Prop :=
  let a := agent w in
  let n := Z.to_nat (netInputWindowSize a) in
  let passes := Z.to_nat (forwardPasses (track a)) in
  let window := Z.to_nat (temporalWindow (config a)) in
  netInputWindowSize a = Z.max (temporalWindow (config a)) MEM_WINDOW_MIN_SIZE
  /\ (0 <= forwardPasses (track a))%Z
  /\ length (actionsBuffer a) = n
  /\ length (statesBuffer a) = n
  /\ length (inputsBuffer a) = n
  /\ trailing (fun _ => True) (Nat.min passes n) (actionsBuffer a)
  /\ trailing (one_row (heap w)) (Nat.min passes n) (statesBuffer a)
  /\ trailing (one_row (heap w)) (Nat.min (passes - window) n) (inputsBuffer a).

(** Every [forward] of a run is given an observation of one row that is
    there when it is called. *)
Fixpoint observed (calls : list (@Call Model)) (w : World) : Prop :=
  match calls with
  | [] => True
  | c :: rest =>
      match c with
      | CallForward input _ _ => one_row (heap w) input
      | _ => True
      end
      /\ observed rest (step c w)
  end.

(** The numbers of [forward] and of [backward] calls of a run. *)
Definition is_forward (c : @Call Model) : bool :=
  match c with
  | CallForward _ _ _ => true
  | _ => false
  end.

Definition is_backward (c : @Call Model) : bool :=
  match c with
  | CallBackward => true
  | _ => false
  end.

(** The agent and the promises, which nothing that only builds tensors or
    asks for predictions changes. *)
Definition the_agent_and_fits (w : World) :=
  (agent w, pendingFits w, unhandledRejections w).

(** A trace event that is a call of [predict]. *)
Definition IsPredict (e : Event) : Prop :=
  match e with
  | EvPredict _ => True
  | _ => False
  end.

(** The buffers have the size the constructor gave them. *)
Definition Sized (w : World) : Prop :=
  let a := agent w in
  netInputWindowSize a = Z.max (temporalWindow (config a)) MEM_WINDOW_MIN_SIZE
  /\ length (actionsBuffer a) = Z.to_nat (netInputWindowSize a)
  /\ length (statesBuffer a) = Z.to_nat (netInputWindowSize a)
  /\ length (inputsBuffer a) = Z.to_nat (netInputWindowSize a).

(** A memento whose action is defined and whose two states are tensors of
    one row that are there. *)
Definition whole (hp : list Tensor) (m : Memento) : Prop :=
  (exists a, action m = Some a)
  /\ (exists s, state m = Some s /\ one_row hp s)
  /\ (exists s, nextState m = Some s /\ one_row hp s).

(** An event that, if it is a call of [remember], hands over a whole
    memento. *)
Definition remembers_whole (hp : list Tensor) (e : Event) : Prop :=
  match e with
  | EvRemember m => whole hp m
  | _ => True
  end.

(** The calls [forward] makes on the collaborators. *)
Definition Acting (e : Event) : Prop :=
  match e with
  | EvRandom _ | EvRandomOutput _ | EvPredict _ => True
  | _ => False
  end.

(** The number of fits a trace shows. *)
Definition is_fit (e : Event) : bool :=
  match e with
  | EvFit _ _ _ _ => true
  | _ => false
  end.

Definition fits (tr : list Event) : nat := length (filter is_fit tr).

(** What the owner's calls of [addReward] add up to, from [r] on, in the
    order of the calls. *)
Definition rewards_added (calls : list (@Call Model)) (r : number) : number :=
  fold_left (fun acc c => match c with
                          | CallAddReward value => (acc + value)%Q
                          | _ => acc
                          end) calls r.

Definition is_setReward (c : @Call Model) : bool :=
  match c with
  | CallSetReward _ => true
  | _ => false
  end.

Definition NotFit (e : Event) : Prop := is_fit e = false.

(** ** [replay], from the sample on *)

(** The world [replay] is in once the store has answered. *)
Definition replay_sampled (w : World) : World :=
  let size := batchSize (config (agent w)) in
  set_agent (set_memory (snd (Memory_sample size (memory (agent w)))) (agent w))
    (set_trace ((trace w ++ [EvReplay]) ++ [EvSample size]) w).

(** What [replay] does with the batch the store returned. *)
Definition replay_train (batch : list Memento) : M unit :=
  pairs <- mapM createInOutFromMemento batch;;
  trainData <- reduce replay_concat pairs;;
  Model_fit (InOut.x trainData) (InOut.y trainData) 1 1;;
  setReward 0.

(** The calls of a training step: predictions, and fits of one epoch and
    one step per epoch. *)
Definition Training (e : Event) : Prop :=
  match e with
  | EvPredict _ => True
  | EvFit _ _ epochs stepsPerEpoch => epochs = 1%Z /\ stepsPerEpoch = 1%Z
  | _ => False
  end.

End Specification.
(** ** Stand-ins for the collaborators

  An estimator that predicts the same values for every input, and a store
  that keeps its mementos in a list and samples the oldest first. They serve
  to run the agent on concrete inputs. *)

Module StandIns.

Definition highest (v : list number) : number :=
  match v with
  | [] => 0%Q
  | h :: t => fold_left (fun m q => if Qltb m q then q else m) t h
  end.

#[export] Instance ConstantModel : Estimator (list number) (list number) := {
  OutputSize := fun m => length m;
  predict := fun m _ => m;
  getHighestValue := highest;
  getValue := fun r => r
}.

Record ListStore := { capacity : Z; items : list Memento }.

#[export] Instance ListStore_ExperienceStore : ExperienceStore ListStore := {
  Memory_new := fun size => {| capacity := size; items := [] |};
  Memory_remember := fun m s =>
    let l := items s ++ [m] in
    {| capacity := capacity s;
       items := if (capacity s <? Z.of_nat (length l))%Z then tl l else l |};
  Memory_Length := fun s => Z.of_nat (length (items s));
  Memory_sample := fun n s => (firstn (Z.to_nat n) (items s), s)
}.

End StandIns.

(** ** Concrete worlds

  The settings of the spec's examples, a few observations, and the worlds
  some short runs lead to. *)

Module Scenario.

Import StandIns.

Definition learningSettings (stepsRandom : Z) (eps epsMin decay : number) : LearningConfig :=
  {| gamma := 9 # 10; epsilon := eps; epsilonDecay := decay; epsilonMin := epsMin;
     learningRate := 1 # 100; learningTime := 1000;
     learningStepsRandom := stepsRandom |}.

Definition settings (window stepsRandom : Z) (eps epsMin decay : number) : AgentConfig :=
  {| memorySize := 10; batchSize := 2; temporalWindow := window;
     learningConfig := learningSettings stepsRandom eps epsMin decay |}.

Definition observations : list Tensor :=
  [Rank2 [[1; 2]]; Rank2 [[3; 4]]; Rank2 [[5; 6]]; Rank2 [[7; 8]]]%Q.

Definition threeOutputs : list number := [1 # 5; 1 # 2; 1 # 10].
Definition twoOutputs : list number := [1 # 5; 1 # 2].

(** A new agent with the settings of the spec's example for epsilon. *)
Definition fresh (window : Z) : World (list number) ListStore :=
  boot threeOutputs (settings window 5 1 (1 # 10) (99 # 100)) None observations.

(** The same agent, [n] steps old. *)
Definition aged (n : Z) : World (list number) ListStore :=
  set_agent (set_track (set_age n (track (agent (fresh 1)))) (agent (fresh 1))) (fresh 1).

(** An agent that replays as soon as it has stored an experience, after
    two full steps and a third [forward] followed by a reward of 2. *)
Definition eager : World (list number) ListStore :=
  boot threeOutputs (settings 1 0 1 (1 # 10) (99 # 100)) None observations.

Definition thirdStep : World (list number) ListStore :=
  run [CallForward 0%nat (1 # 2) 1; CallBackward;
       CallForward 1%nat (1 # 2) 2; CallAddReward 1; CallBackward;
       CallForward 2%nat (1 # 2) 0; CallAddReward 2] eager.

(** The same agent after four full steps: its store holds two mementos. *)
Definition fourthStep : World (list number) ListStore :=
  run [CallBackward; CallForward 3%nat (1 # 2) 0; CallAddReward 2; CallBackward] thirdStep.

(** The pending fit of the third step. *)
Definition dispatched : World (list number) ListStore := snd (backward thirdStep).

(** The agent of the spec's example after its first [forward]. *)
Definition secondCall : World (list number) ListStore :=
  run [CallForward 0%nat (1 # 2) 1] (fresh 1).

(** An agent whose epsilon is just above its minimum, one step old. *)
Definition nearMinimum : World (list number) ListStore :=
  run [CallForward 0%nat (1 # 2) 1; CallBackward]
    (boot threeOutputs (settings 1 0 (3 # 20) (1 # 10) (1 # 2)) None observations).

(** A new agent that looks at no history and explores half of the time. *)
Definition noHistory : World (list number) ListStore :=
  boot threeOutputs (settings 0 0 (1 # 2) (1 # 10) (99 # 100)) None observations.

(** An agent whose estimator has two outputs, and a memento of its own
    making. *)
Definition twoActions : World (list number) ListStore :=
  boot twoOutputs (settings 1 0 1 (1 # 10) (99 # 100)) None observations.

Definition aMemento : Memento :=
  {| action := Some 0%Q; reward := 1%Q; state := Some 0%nat; nextState := Some 1%nat |}.


(** The agent of [thirdStep], had it been given a batch size of zero. *)
Definition noBatch : World (list number) ListStore :=
  run [CallForward 0%nat (1 # 2) 1; CallBackward;
       CallForward 1%nat (1 # 2) 2; CallAddReward 1; CallBackward;
       CallForward 2%nat (1 # 2) 0; CallAddReward 2]
    (boot threeOutputs
       {| memorySize := 10; batchSize := 0; temporalWindow := 1;
          learningConfig := learningSettings 0 1 (1 # 10) (99 # 100) |}
       None observations).

(** Two steps of a new agent, which keep it within its warm-up, and the
    rewards given on the way. *)
Definition twoSteps : list (@Call (list number)) :=
  [CallForward 0%nat (1 # 2) 1; CallAddReward 1; CallBackward;
   CallForward 1%nat (1 # 2) 2; CallAddReward 2; CallBackward].

(** Three steps, the third of which stores an experience and replays. *)
Definition threeSteps : list (@Call (list number)) :=
  [CallForward 0%nat (1 # 2) 1; CallBackward;
   CallForward 1%nat (1 # 2) 2; CallAddReward 1; CallBackward;
   CallForward 2%nat (1 # 2) 0; CallAddReward 2; CallBackward].

(** The memento of the third step. *)
Definition thirdMemento : Memento :=
  {| action := Some 2; reward := 3; state := Some 8%nat; nextState := Some 12%nat |}.

End Scenario.
(** * Properties *)

(** ** Comparing numbers *)

Lemma Qltb_lt (x y : Q) : Qltb x y = true <-> (x < y)%Q.
Proof.
  unfold Qltb. rewrite negb_true_iff.
  split; intro Hxy.
  - apply Qnot_le_lt. intro Hle. apply Qle_bool_iff in Hle. congruence.
  - destruct (Qle_bool y x) eqn:E; [|reflexivity].
    apply Qle_bool_iff in E. exfalso. exact (Qlt_not_le _ _ Hxy E).
Qed.

Lemma Qltb_ge (x y : Q) : Qltb x y = false <-> (y <= x)%Q.
Proof.
  unfold Qltb. rewrite negb_false_iff. apply Qle_bool_iff.
Qed.

Section Properties.

Context {Model Result Memory : Type}.
Context {Est : Estimator Model Result} {Store : ExperienceStore Memory}.

Local Abbreviation Agent := (Agent Model Memory).
Local Abbreviation World := (World Model Memory).
Local Abbreviation M := (@M Model Memory).
Local Abbreviation Keeps := (@Keeps Model Memory).

Open Scope js_scope.

(** ** What a computation keeps, by its structure

    For a reflexive and transitive [R]. *)

Section Keeping.

Variable R : World -> World -> Prop.
Hypothesis R_refl : forall w, R w w.
Hypothesis R_trans : forall w1 w2 w3, R w1 w2 -> R w2 w3 -> R w1 w3.

Lemma Keeps_ret {A : Type} (a : A) : Keeps R (ret a).
Proof. intro w. apply R_refl. Qed.

Lemma Keeps_throw {A : Type} (e : JsError) : Keeps R (@throw _ _ A e).
Proof. intro w. apply R_refl. Qed.

Lemma Keeps_gets {A : Type} (f : World -> A) : Keeps R (gets f).
Proof. intro w. apply R_refl. Qed.

Lemma Keeps_deref (h : Handle) : Keeps R (deref h).
Proof.
  intro w. unfold deref. destruct (nth_error (heap w) h); apply R_refl.
Qed.

Lemma Keeps_bind {A B : Type} (m : M A) (k : A -> M B) :
  Keeps R m -> (forall a, Keeps R (k a)) -> Keeps R (bind m k).
Proof.
  intros Hm Hk w. unfold bind.
  specialize (Hm w). destruct (m w) as [[a | e] w1]; simpl in *.
  - eapply R_trans; [exact Hm | apply Hk].
  - exact Hm.
Qed.

(** The rest of a computation, seen from the world its first part left. *)
Lemma Keeps_rest {A B : Type} (m : M A) (k : A -> M B) (w : World) :
  (forall a, Keeps R (k a)) -> R (snd (m w)) (snd (bind m k w)).
Proof.
  intros Hk. unfold bind. destruct (m w) as [[a | e] w1]; simpl.
  - apply Hk.
  - apply R_refl.
Qed.

Lemma Keeps_mapM {A B : Type} (f : A -> M B) (l : list A) :
  (forall a, Keeps R (f a)) -> Keeps R (mapM f l).
Proof.
  intros Hf. induction l as [| a l IH]; simpl.
  - apply Keeps_ret.
  - apply Keeps_bind; [apply Hf | intro b].
    apply Keeps_bind; [exact IH | intro bs]. apply Keeps_ret.
Qed.

Lemma Keeps_foldM {A B : Type} (f : B -> A -> M B) (l : list A) :
  (forall b a, Keeps R (f b a)) -> forall acc, Keeps R (foldM f acc l).
Proof.
  intros Hf. induction l as [| a l IH]; intro acc; simpl.
  - apply Keeps_ret.
  - apply Keeps_bind; [apply Hf | intro b; apply IH].
Qed.

Lemma Keeps_reduce {A : Type} (f : A -> A -> M A) (l : list A) :
  (forall b a, Keeps R (f b a)) -> Keeps R (reduce f l).
Proof.
  intros Hf. destruct l as [| a l]; simpl.
  - apply Keeps_throw.
  - apply Keeps_foldM. exact Hf.
Qed.

End Keeping.

Lemma Unchanged_refl {X : Type} (proj : World -> X) (w : World) : Unchanged proj w w.
Proof. reflexivity. Qed.

Lemma Unchanged_trans {X : Type} (proj : World -> X) (w1 w2 w3 : World) :
  Unchanged proj w1 w2 -> Unchanged proj w2 w3 -> Unchanged proj w1 w3.
Proof. unfold Unchanged. congruence. Qed.

Lemma HeapGrows_refl (w : World) : HeapGrows w w.
Proof. exists []. now rewrite app_nil_r. Qed.

Lemma HeapGrows_trans (w1 w2 w3 : World) :
  HeapGrows w1 w2 -> HeapGrows w2 w3 -> HeapGrows w1 w3.
Proof.
  intros [e1 H1] [e2 H2]. exists (e1 ++ e2). rewrite H2, H1. now rewrite app_assoc.
Qed.

Lemma TraceGrows_refl P (w : World) : TraceGrows P w w.
Proof. exists []. split; [now rewrite app_nil_r | constructor]. Qed.

Lemma TraceGrows_trans P (w1 w2 w3 : World) :
  TraceGrows P w1 w2 -> TraceGrows P w2 w3 -> TraceGrows P w1 w3.
Proof.
  intros [e1 [H1 F1]] [e2 [H2 F2]]. exists (e1 ++ e2). split.
  - rewrite H2, H1. now rewrite app_assoc.
  - apply Forall_app. now split.
Qed.

Lemma HeapGrows_lookup (w w' : World) h t :
  HeapGrows w w' -> nth_error (heap w) h = Some t -> nth_error (heap w') h = Some t.
Proof.
  intros [extra E] Hh. rewrite E. rewrite nth_error_app1; [exact Hh |].
  apply nth_error_Some. congruence.
Qed.

(** Decomposes a goal [Keeps R m] along the structure of [m]; [leaf] is
    tried first on what it reaches. *)
Ltac keeps_with refl trans leaf :=
  repeat first
    [ solve [ leaf ]
    | apply (Keeps_ret _ refl)
    | apply (Keeps_throw _ refl)
    | apply (Keeps_gets _ refl)
    | apply (Keeps_deref _ refl)
    | apply (Keeps_bind trans); [ | intro ]
    | apply (Keeps_mapM refl trans); intro
    | apply (Keeps_reduce refl trans); intros
    | match goal with
      | |- Keeps _ (if ?b then _ else _) => destruct b
      | |- Keeps _ (match ?x with _ => _ end) => destruct x
      | |- Keeps _ (let '(_, _) := ?x in _) => destruct x
      end
    | solve [ intro; reflexivity ] ].

(** ** The heap only grows *)

Tactic Notation "keeping" open_constr(refl) open_constr(trans) "by" tactic3(leaf) :=
  keeps_with refl trans leaf.

Lemma alloc_HeapGrows t : Keeps HeapGrows (alloc t).
Proof. intro w. simpl. now exists [t]. Qed.

Lemma emit_HeapGrows e : Keeps HeapGrows (emit e).
Proof. intro w. exists []. simpl. now rewrite app_nil_r. Qed.

Lemma Tensor_concat_HeapGrows a b axis : Keeps HeapGrows (Tensor_concat a b axis).
Proof.
  unfold Tensor_concat.
  keeping HeapGrows_refl HeapGrows_trans by (apply alloc_HeapGrows).
Qed.

Lemma Model_predict_HeapGrows input : Keeps HeapGrows (Model_predict input).
Proof.
  unfold Model_predict.
  keeping HeapGrows_refl HeapGrows_trans by (apply emit_HeapGrows).
Qed.

Lemma createNeuralNetInput_loop_HeapGrows n :
  forall i f, Keeps HeapGrows (createNeuralNetInput_loop n i f).
Proof.
  induction n as [| n IH]; intros i f; simpl.
  - keeping HeapGrows_refl HeapGrows_trans by fail.
  - unfold tensor.
    keeping HeapGrows_refl HeapGrows_trans
      by (first [apply Tensor_concat_HeapGrows | apply alloc_HeapGrows | apply IH]).
Qed.

Lemma createNeuralNetInput_HeapGrows input : Keeps HeapGrows (createNeuralNetInput input).
Proof.
  unfold createNeuralNetInput, Tensor_clone.
  keeping HeapGrows_refl HeapGrows_trans
    by (first [apply alloc_HeapGrows | apply createNeuralNetInput_loop_HeapGrows]).
Qed.

(** ** What the methods leave alone *)

Tactic Notation "unchanged" open_constr(proj) "by" tactic3(leaf) :=
  keeps_with (Unchanged_refl proj) (@Unchanged_trans _ proj) leaf.

Lemma createNeuralNetInput_loop_agent n :
  forall i f, Keeps (Unchanged the_agent) (createNeuralNetInput_loop n i f).
Proof.
  induction n as [| n IH]; intros i f; simpl; unfold tensor, Tensor_concat, alloc;
    unchanged the_agent by (apply IH).
Qed.

Lemma createNeuralNetInput_agent input :
  Keeps (Unchanged the_agent) (createNeuralNetInput input).
Proof.
  unfold createNeuralNetInput, Tensor_clone, alloc.
  unchanged the_agent by (apply createNeuralNetInput_loop_agent).
Qed.

Lemma createNeuralNetInput_loop_trace n :
  forall i f, Keeps (Unchanged the_trace) (createNeuralNetInput_loop n i f).
Proof.
  induction n as [| n IH]; intros i f; simpl; unfold tensor, Tensor_concat, alloc;
    unchanged the_trace by (apply IH).
Qed.

Lemma createNeuralNetInput_trace input :
  Keeps (Unchanged the_trace) (createNeuralNetInput input).
Proof.
  unfold createNeuralNetInput, Tensor_clone, alloc.
  unchanged the_trace by (apply createNeuralNetInput_loop_trace).
Qed.

Lemma createInOutFromMemento_agent memento :
  Keeps (Unchanged the_agent) (createInOutFromMemento memento).
Proof.
  unfold createInOutFromMemento, createInOutFromMemento_target, Model_predict,
    tensor2d, alloc, emit.
  unchanged the_agent by fail.
Qed.

Lemma forward_unfold (input : Handle) (u randomAction : number) :
  (forward input u randomAction : M number) =
  (assign (fun a => set_track (set_forwardPasses (forwardPasses (track a) + 1)%Z (track a)) a);;
   forward_decay;;
   forward_act input u randomAction).
Proof. reflexivity. Qed.

Lemma Unchanged_weaken {A X Y : Type} (proj : World -> X) (g : X -> Y) (m : M A) :
  Keeps (Unchanged proj) m -> Keeps (Unchanged (fun w => g (proj w))) m.
Proof. intros H w. unfold Unchanged. f_equal. apply H. Qed.

Lemma createNeuralNetInput_config input :
  Keeps (Unchanged the_config) (createNeuralNetInput input).
Proof.
  apply Unchanged_weaken with (proj := the_agent) (g := config).
  apply createNeuralNetInput_agent.
Qed.

Lemma createInOutFromMemento_config memento :
  Keeps (Unchanged the_config) (createInOutFromMemento memento).
Proof.
  apply Unchanged_weaken with (proj := the_agent) (g := config).
  apply createInOutFromMemento_agent.
Qed.

Lemma forward_act_config input u randomAction :
  Keeps (Unchanged the_config) (forward_act input u randomAction).
Proof.
  unfold forward_act, lodash_random, Model_randomOutput, policy, Model_predict,
    tensor, alloc, emit.
  unchanged the_config by (apply createNeuralNetInput_config).
Qed.

Lemma replay_config : Keeps (Unchanged the_config) replay.
Proof.
  unfold replay, Memory_sample_call, replay_concat, Model_fit, setReward,
    Tensor_concat, alloc, emit.
  unchanged the_config by (apply createInOutFromMemento_config).
Qed.

Lemma backward_config : Keeps (Unchanged the_config) backward.
Proof.
  unfold backward, Memory_remember_call, emit.
  unchanged the_config by (apply replay_config).
Qed.

Lemma forward_decay_world (w : World) :
  snd (forward_decay w) =
  if decay_due (agent w)
  then set_agent (set_config (set_epsilon
         (epsilon (learningConfig (config (agent w)))
          * epsilonDecay (learningConfig (config (agent w))))%Q (config (agent w)))
         (agent w)) w
  else w.
Proof.
  unfold forward_decay, decay_due, bind, gets, assign, modify, ret. simpl.
  destruct (age (track (agent w)) <? _)%Z; simpl; [| reflexivity].
  destruct (_ && _); reflexivity.
Qed.

Lemma decay_due_iff (a : Agent) :
  decay_due a = true <->
  (age (track a) < learningTime (learningConfig (config a)))%Z /\
  (age (track a) > learningStepsRandom (learningConfig (config a)))%Z /\
  (epsilonMin (learningConfig (config a)) < epsilon (learningConfig (config a)))%Q.
Proof.
  unfold decay_due. rewrite !andb_true_iff, !Z.ltb_lt, Qltb_lt, Z.gt_lt_iff. tauto.
Qed.

(** The configuration [forward] leaves is the one its decay step leaves. *)
Lemma forward_config (input : Handle) (u randomAction : number) (w : World) :
  config (agent (snd (forward input u randomAction w))) =
  config (agent (snd (forward_decay
    (set_agent (set_track (set_forwardPasses (forwardPasses (track (agent w)) + 1)%Z
                             (track (agent w))) (agent w)) w)))).
Proof.
  rewrite forward_unfold.
  set (w1 := set_agent _ w).
  change (bind (assign _) _ w) with ((forward_decay;; forward_act input u randomAction) w1).
  apply (Keeps_rest (Unchanged_refl the_config) forward_decay
           (fun _ => forward_act input u randomAction) w1).
  intros _. apply forward_act_config.
Qed.

(** C3. A [forward] call multiplies epsilon by [epsilonDecay], once, when
    [age < learningTime], [age > learningStepsRandom] and
    [epsilon > epsilonMin] hold as it is called; under any other combination
    it leaves epsilon as it was. This holds whether the call returns or
    throws. *)
Theorem forward_epsilon (w : World) (input : Handle) (u randomAction : number) :
  let lc := learningConfig (config (agent w)) in
  let lc' := learningConfig (config (agent (snd (forward input u randomAction w)))) in
  ((age (track (agent w)) < learningTime lc)%Z /\
   (age (track (agent w)) > learningStepsRandom lc)%Z /\
   (epsilon lc > epsilonMin lc)%Q ->
   epsilon lc' = (epsilon lc * epsilonDecay lc)%Q)
  /\
  (~ ((age (track (agent w)) < learningTime lc)%Z /\
      (age (track (agent w)) > learningStepsRandom lc)%Z /\
      (epsilon lc > epsilonMin lc)%Q) ->
   epsilon lc' = epsilon lc).
Proof.
  intros lc lc'. subst lc'. rewrite forward_config, forward_decay_world.
  set (w1 := set_agent _ w).
  assert (E : decay_due (agent w1) = decay_due (agent w)) by reflexivity.
  rewrite E. split; intro H.
  - apply decay_due_iff in H. rewrite H. reflexivity.
  - destruct (decay_due (agent w)) eqn:D; [| reflexivity].
    apply decay_due_iff in D. contradiction.
Qed.



(** ** Epsilon over a run *)

Lemma settings_of_config (w w' : World) :
  config (agent w') = config (agent w) ->
  the_settings w' = the_settings w /\ the_epsilon w' = the_epsilon w.
Proof. unfold the_settings, the_epsilon. intros ->. split; reflexivity. Qed.

Lemma createInOutFromMemento_call_config memento (w : World) :
  config (agent (snd (createInOutFromMemento memento w))) = config (agent w).
Proof. apply (createInOutFromMemento_config memento w). Qed.

Lemma settleFit_config i outcome (w : World) :
  config (agent (settleFit i outcome w)) = config (agent w).
Proof.
  unfold settleFit. destruct (nth_error (pendingFits w) i); [| reflexivity].
  destruct outcome; reflexivity.
Qed.

(** One step either leaves the configuration alone, or is a [forward] call
    whose decay step was due and multiplied epsilon by [epsilonDecay]. *)
Lemma step_epsilon (c : Call) (w : World) :
  the_settings (step c w) = the_settings w /\
  (the_epsilon (step c w) = the_epsilon w \/
   (decay_due (agent w) = true /\
    the_epsilon (step c w) =
      (the_epsilon w * epsilonDecay (learningConfig (config (agent w))))%Q)).
Proof.
  destruct c as [input u r | | v | v | memento | t | m | i outcome]; simpl.
  - unfold the_settings, the_epsilon.
    rewrite forward_config, forward_decay_world.
    set (w1 := set_agent _ w).
    assert (E : decay_due (agent w1) = decay_due (agent w)) by reflexivity.
    rewrite E. destruct (decay_due (agent w)); simpl; auto.
  - destruct (settings_of_config w (snd (backward w)) (backward_config w)); auto.
  - split; auto.
  - split; auto.
  - destruct (settings_of_config w _ (createInOutFromMemento_call_config memento w)); auto.
  - split; auto.
  - split; auto.
  - destruct (settings_of_config w _ (settleFit_config i outcome w)); auto.
Qed.

Lemma run_app (calls1 calls2 : list Call) (w : World) :
  run (calls1 ++ calls2) w = run calls2 (run calls1 w).
Proof. unfold run. apply fold_left_app. Qed.

Lemma run_settings (calls : list Call) :
  forall w : World, the_settings (run calls w) = the_settings w.
Proof.
  induction calls as [| c calls IH]; intro w; simpl; [reflexivity |].
  change (fold_left _ calls (step c w)) with (run calls (step c w)).
  rewrite IH. apply step_epsilon.
Qed.

Lemma settings_fields (w w' : World) :
  the_settings w' = the_settings w ->
  epsilonDecay (learningConfig (config (agent w'))) =
    epsilonDecay (learningConfig (config (agent w))) /\
  epsilonMin (learningConfig (config (agent w'))) =
    epsilonMin (learningConfig (config (agent w))) /\
  learningTime (learningConfig (config (agent w'))) =
    learningTime (learningConfig (config (agent w))) /\
  learningStepsRandom (learningConfig (config (agent w'))) =
    learningStepsRandom (learningConfig (config (agent w))).
Proof.
  unfold the_settings. intro E.
  repeat split.
  - exact (f_equal (fun c => epsilonDecay (learningConfig c)) E).
  - exact (f_equal (fun c => epsilonMin (learningConfig c)) E).
  - exact (f_equal (fun c => learningTime (learningConfig c)) E).
  - exact (f_equal (fun c => learningStepsRandom (learningConfig c)) E).
Qed.

Lemma decayed_bounds (e d m : Q) :
  (0 < d)%Q -> (d <= 1)%Q -> (0 < m)%Q -> (m < e)%Q ->
  (e * d <= e)%Q /\ (m * d <= e * d)%Q.
Proof. intros. split; nra. Qed.

Lemma run_epsilon_bounds (calls : list Call) :
  forall w : World,
  (0 < epsilonDecay (learningConfig (config (agent w))))%Q ->
  (epsilonDecay (learningConfig (config (agent w))) <= 1)%Q ->
  (0 < epsilonMin (learningConfig (config (agent w))))%Q ->
  (the_epsilon (run calls w) <= the_epsilon w)%Q /\
  ((epsilonMin (learningConfig (config (agent w)))
    * epsilonDecay (learningConfig (config (agent w))) <= the_epsilon w)%Q ->
   (epsilonMin (learningConfig (config (agent w)))
    * epsilonDecay (learningConfig (config (agent w))) <= the_epsilon (run calls w))%Q).
Proof.
  induction calls as [| c calls IH]; intros w Hd0 Hd1 Hm; simpl.
  - split; [apply Qle_refl | auto].
  - change (fold_left _ calls (step c w)) with (run calls (step c w)).
    destruct (step_epsilon c w) as [Hs He].
    destruct (settings_fields Hs) as (Ed & Em & _ & _).
    specialize (IH (step c w)). rewrite Ed, Em in IH.
    destruct (IH Hd0 Hd1 Hm) as [IH1 IH2]. clear IH.
    destruct He as [He | [Hdue He]].
    + rewrite He in IH1, IH2. split; assumption.
    + apply decay_due_iff in Hdue. destruct Hdue as (_ & _ & Hlt).
      destruct (decayed_bounds Hd0 Hd1 Hm Hlt) as [B1 B2].
      fold (the_epsilon w) in B1, B2. rewrite <- He in B1, B2.
      split.
      * eapply Qle_trans; eassumption.
      * intros _. apply IH2. exact B2.
Qed.

(** C4, amended. With [0 < epsilonDecay <= 1] and [epsilonMin > 0], over any
    sequence of calls: epsilon never increases; a decay is applied only to a
    value above [epsilonMin], so that epsilon stays at or above
    [epsilonMin * epsilonDecay] once it is there (it can end below
    [epsilonMin] itself); and a [forward] call made while
    [age <= learningStepsRandom] or [age >= learningTime] leaves epsilon as it
    was. *)
Theorem epsilon_over_runs (w : World) (calls1 calls2 : list Call) :
  let lc := learningConfig (config (agent w)) in
  (0 < epsilonDecay lc)%Q -> (epsilonDecay lc <= 1)%Q -> (0 < epsilonMin lc)%Q ->
  let w1 := run calls1 w in
  let w2 := run (calls1 ++ calls2) w in
  (the_epsilon w2 <= the_epsilon w1)%Q
  /\ ((epsilonMin lc * epsilonDecay lc <= the_epsilon w1)%Q ->
      (epsilonMin lc * epsilonDecay lc <= the_epsilon w2)%Q)
  /\ (forall input u randomAction,
        (age (track (agent w1)) <= learningStepsRandom lc)%Z \/
        (age (track (agent w1)) >= learningTime lc)%Z ->
        the_epsilon (step (CallForward input u randomAction) w1) = the_epsilon w1).
Proof.
  intros lc Hd0 Hd1 Hm w1 w2. subst w2. rewrite run_app. fold w1.
  destruct (settings_fields (run_settings calls1 w)) as (Ed & Em & Et & Er).
  fold w1 in Ed, Em, Et, Er. fold lc in Ed, Em, Et, Er.
  assert (B := run_epsilon_bounds calls2 w1).
  rewrite Ed, Em in B. destruct (B Hd0 Hd1 Hm) as [B1 B2].
  split; [exact B1 | split; [exact B2 |]].
  intros input u r Hage.
  destruct (step_epsilon (CallForward input u r) w1) as [_ [He | [Hdue _]]]; [exact He |].
  apply decay_due_iff in Hdue. rewrite Et, Er in Hdue. lia.
Qed.


(** ** The warm-up of [forward] *)

Lemma forward_decay_returns (w : World) :
  forward_decay w = (Normal tt, snd (forward_decay w)).
Proof.
  unfold forward_decay, bind, gets, assign, modify, ret. simpl.
  destruct (age (track (agent w)) <? _)%Z; simpl; [| reflexivity].
  destruct (_ && _); reflexivity.
Qed.

(** [forward] is its decay step on the world with one more forward pass,
    followed by the choice of the action. *)
Lemma forward_steps (input : Handle) (u randomAction : number) (w : World) :
  forward input u randomAction w =
  forward_act input u randomAction
    (snd (forward_decay
       (set_agent (set_track (set_forwardPasses (forwardPasses (track (agent w)) + 1)%Z
                                (track (agent w))) (agent w)) w))).
Proof.
  rewrite forward_unfold.
  set (w1 := set_agent _ w).
  change (bind (assign _) _ w) with ((forward_decay;; forward_act input u randomAction) w1).
  unfold bind at 1. rewrite forward_decay_returns. reflexivity.
Qed.

Lemma forward_act_warmup (input : Handle) (u randomAction : number) (w : World) :
  (temporalWindow (config (agent w)) <? forwardPasses (track (agent w)))%Z = false ->
  forward_act input u randomAction w =
  (Normal randomAction,
   {| agent := set_buffers (shift_push (actionsBuffer (agent w)) randomAction)
                           (shift_push (statesBuffer (agent w)) input)
                           (shift_push (inputsBuffer (agent w)) (length (heap w)))
                           (agent w);
      heap := heap w ++ [Rank1 []];
      pendingFits := pendingFits w;
      unhandledRejections := unhandledRejections w;
      trace := trace w ++ [EvRandomOutput randomAction] |}).
Proof.
  intro Hwarm. unfold forward_act, bind, gets. simpl. rewrite Hwarm. reflexivity.
Qed.

(** C5. While [forwardPasses <= temporalWindow], [forwardPasses] being the
    count [forward] tests, this call included (line 84 adds one before line
    97 compares), the call returns the action that [Model.randomOutput()]
    answered, calls nothing else on the collaborators, and records as encoded
    input the empty tensor [tensor([])], newly made. *)
Theorem forward_warmup (w : World) (input : Handle) (u randomAction : number) :
  (forwardPasses (track (agent w)) + 1 <= temporalWindow (config (agent w)))%Z ->
  let w' := snd (forward input u randomAction w) in
  fst (forward input u randomAction w) = Normal randomAction
  /\ trace w' = trace w ++ [EvRandomOutput randomAction]
  /\ heap w' = heap w ++ [Rank1 []]
  /\ inputsBuffer (agent w') = shift_push (inputsBuffer (agent w)) (length (heap w)).
Proof.
  intros Hfp w'. subst w'. rewrite forward_steps, forward_decay_world.
  set (w1 := set_agent _ w).
  assert (Hwarm : forall w2 : World,
            temporalWindow (config (agent w2)) = temporalWindow (config (agent w)) ->
            forwardPasses (track (agent w2)) = (forwardPasses (track (agent w)) + 1)%Z ->
            (temporalWindow (config (agent w2)) <? forwardPasses (track (agent w2)))%Z = false).
  { intros w2 -> ->. apply Z.ltb_ge. exact Hfp. }
  destruct (decay_due (agent w1));
    (rewrite forward_act_warmup; [simpl; auto | apply Hwarm; reflexivity]).
Qed.

(** ** [backward] *)

Lemma emit_TraceGrows (P : Event -> Prop) e : P e -> Keeps (TraceGrows P) (emit e).
Proof. intros He w. exists [e]. split; [reflexivity | now constructor]. Qed.

Lemma modify_TraceGrows (P : Event -> Prop) (f : World -> World) :
  (forall w, trace (f w) = trace w) -> Keeps (TraceGrows P) (modify f).
Proof.
  intros Hf w. exists []. simpl. rewrite Hf, app_nil_r. split; [reflexivity | constructor].
Qed.

Lemma alloc_TraceGrows (P : Event -> Prop) t : Keeps (TraceGrows P) (alloc t).
Proof. intro w. exists []. simpl. rewrite app_nil_r. split; [reflexivity | constructor]. Qed.

(** [replay] hands nothing to [remember]. *)
Lemma replay_rest_trace :
  Keeps (TraceGrows NotRemember)
    (this <- gets agent;;
     batch <- Memory_sample_call (batchSize (config this));;
     pairs <- mapM createInOutFromMemento batch;;
     trainData <- reduce replay_concat pairs;;
     Model_fit (InOut.x trainData) (InOut.y trainData) 1 1;;
     setReward 0).
Proof.
  unfold Memory_sample_call, createInOutFromMemento, createInOutFromMemento_target,
    replay_concat, Model_fit, Model_predict, setReward, Tensor_concat, tensor2d.
  keeping (TraceGrows_refl NotRemember) (@TraceGrows_trans NotRemember)
    by (first [ apply emit_TraceGrows; exact I
              | apply alloc_TraceGrows
              | apply modify_TraceGrows; intro; reflexivity ]).
Qed.

Lemma replay_trace (w : World) :
  exists rest, trace (snd (replay w)) = trace w ++ EvReplay :: rest /\ Forall NotRemember rest.
Proof.
  unfold replay.
  destruct (Keeps_rest (TraceGrows_refl NotRemember) (emit EvReplay) _ w
              (fun _ => replay_rest_trace)) as [rest [E F]].
  exists rest. split; [| exact F]. rewrite E. simpl. now rewrite <- app_assoc.
Qed.

Lemma createInOutFromMemento_records memento :
  Keeps (Unchanged the_records) (createInOutFromMemento memento).
Proof.
  unfold createInOutFromMemento, createInOutFromMemento_target, Model_predict,
    tensor2d, alloc, emit.
  unchanged the_records by fail.
Qed.

Lemma replay_records : Keeps (Unchanged the_records) replay.
Proof.
  unfold replay, Memory_sample_call, replay_concat, Model_fit, setReward,
    Tensor_concat, alloc, emit.
  unchanged the_records by (apply createInOutFromMemento_records).
Qed.

Lemma backward_cases (w : World) :
  backward w =
  if backward_stores (agent w) then
    if backward_replays (agent w) then replay (backward_remembered w)
    else (Normal tt, backward_remembered w)
  else (Normal tt, backward_recorded w).
Proof.
  unfold backward, backward_stores, backward_replays, backward_stores, bind, gets,
    assign, modify, ret. simpl.
  rewrite (Z.leb_antisym (temporalWindow (config (agent w)) + 1)).
  destruct (learning (track (agent w))); simpl; [| reflexivity].
  destruct (temporalWindow (config (agent w)) + 1 <? forwardPasses (track (agent w)))%Z;
    simpl; [| reflexivity].
  unfold Memory_remember_call, bind, emit, assign, modify. simpl.
  rewrite (Z.leb_antisym (learningStepsRandom (learningConfig (config (agent w))))).
  destruct (learningStepsRandom (learningConfig (config (agent w))) <? _)%Z; reflexivity.
Qed.

Lemma backward_stores_iff (a : Agent) :
  backward_stores a = true <->
  learning (track a) = true /\ (forwardPasses (track a) > temporalWindow (config a) + 1)%Z.
Proof. unfold backward_stores. rewrite andb_true_iff, Z.ltb_lt, Z.gt_lt_iff. tauto. Qed.

Lemma backward_replays_iff (a : Agent) :
  backward_replays a = true <->
  learning (track a) = true /\ (forwardPasses (track a) > temporalWindow (config a) + 1)%Z /\
  (Memory_Length (Memory_remember (backward_memento a) (memory a))
   > learningStepsRandom (learningConfig (config a)))%Z.
Proof.
  unfold backward_replays. rewrite andb_true_iff, backward_stores_iff, Z.ltb_lt.
  intuition lia.
Qed.

(** The calls [backward] makes, after the trace it started with. *)
Lemma backward_trace (w : World) :
  exists new,
    trace (snd (backward w)) = trace w ++ new /\
    (backward_stores (agent w) = false -> new = []) /\
    (backward_stores (agent w) = true ->
     exists rest,
       new = EvRemember (backward_memento (agent w)) :: rest /\
       Forall NotRemember rest /\
       (backward_replays (agent w) = false -> rest = []) /\
       (backward_replays (agent w) = true -> exists rest', rest = EvReplay :: rest')).
Proof.
  rewrite backward_cases.
  destruct (backward_stores (agent w)) eqn:Hs.
  - destruct (backward_replays (agent w)) eqn:Hr.
    + destruct (replay_trace (backward_remembered w)) as [rest [E F]].
      exists (EvRemember (backward_memento (agent w)) :: EvReplay :: rest).
      split; [rewrite E; simpl; now rewrite <- app_assoc |].
      split; [discriminate | intros _].
      exists (EvReplay :: rest). split; [reflexivity |].
      split; [constructor; [exact I | exact F] |].
      split; [discriminate | intros _; now exists rest].
    + exists [EvRemember (backward_memento (agent w))].
      split; [reflexivity |]. split; [discriminate | intros _].
      exists []. split; [reflexivity |]. split; [constructor |].
      split; [reflexivity | discriminate].
  - exists []. split; [simpl; now rewrite app_nil_r |].
    split; [reflexivity | discriminate].
Qed.

Lemma backward_records (w : World) :
  rewardsHistory (agent (snd (backward w))) =
    TypedWindow_add (currentReward (agent w)) (rewardsHistory (agent w)) /\
  age (track (agent (snd (backward w)))) = (age (track (agent w)) + 1)%Z.
Proof.
  rewrite backward_cases.
  destruct (backward_stores (agent w)); [| split; reflexivity].
  destruct (backward_replays (agent w)); [| split; reflexivity].
  assert (E := Unchanged_weaken (proj := the_records)
                 (fun r => match r with (_, t, _, _, (rh, _), _) => (rh, age t) end)
                 replay_records (backward_remembered w)).
  unfold Unchanged, the_records in E. simpl in E.
  injection E as Er Et. rewrite Er, Et. split; reflexivity.
Qed.


(** C6. Every [backward] call adds the accumulated reward to the reward
    window and adds one to [age]. It calls [remember] exactly when [learning]
    is true and [forwardPasses > temporalWindow + 1], and [replay] exactly
    when, besides, the store's length after that [remember] exceeds
    [learningStepsRandom]; with [learning] false it calls neither. *)
Theorem backward_bookkeeping (w : World) :
  let a := agent w in
  let w' := snd (backward w) in
  rewardsHistory (agent w') = TypedWindow_add (currentReward a) (rewardsHistory a)
  /\ age (track (agent w')) = (age (track a) + 1)%Z
  /\ exists new,
       trace w' = trace w ++ new
       /\ ((exists m, In (EvRemember m) new) <->
           learning (track a) = true /\
           (forwardPasses (track a) > temporalWindow (config a) + 1)%Z)
       /\ (In EvReplay new <->
           learning (track a) = true /\
           (forwardPasses (track a) > temporalWindow (config a) + 1)%Z /\
           (Memory_Length (Memory_remember (backward_memento a) (memory a))
            > learningStepsRandom (learningConfig (config a)))%Z)
       /\ (learning (track a) = false -> new = []).
Proof.
  intros a w'. subst a w'.
  destruct (backward_records w) as [Hr Ha].
  split; [exact Hr | split; [exact Ha |]].
  destruct (backward_trace w) as [new (E & Hnone & Hsome)].
  exists new. split; [exact E |].
  rewrite <- backward_stores_iff, <- backward_replays_iff.
  destruct (backward_stores (agent w)) eqn:Hs.
  - destruct (Hsome eq_refl) as [rest (-> & F & Hno & Hyes)].
    split; [split; [reflexivity | intros _; eexists; left; reflexivity] |].
    split.
    + destruct (backward_replays (agent w)) eqn:Hrp.
      * destruct (Hyes eq_refl) as [rest' ->].
        split; [reflexivity | intros _; right; left; reflexivity].
      * rewrite (Hno eq_refl).
        split; [intros [Hin | []]; discriminate | discriminate].
    + intro Hl. unfold backward_stores in Hs. rewrite Hl in Hs. discriminate.
  - rewrite (Hnone eq_refl).
    split; [split; [intros [m []] | discriminate] |].
    split; [| reflexivity].
    split; [intros [] |].
    unfold backward_replays. rewrite Hs. discriminate.
Qed.

(** C2, amended. When [backward] stores an experience, the memento it hands
    to [remember], and the only one, has: the action at position
    [netInputWindowSize - 2] of the action buffer; as reward the accumulated
    reward [currentReward]; as state the encoded input at position
    [netInputWindowSize - 2]; as next state the encoded input at the last
    position, [netInputWindowSize - 1]. *)
Theorem backward_remembers (w : World) :
  let a := agent w in
  learning (track a) = true ->
  (forwardPasses (track a) > temporalWindow (config a) + 1)%Z ->
  exists rest,
    trace (snd (backward w)) =
      trace w ++
      EvRemember
        {| action := array_get (actionsBuffer a) (netInputWindowSize a - 2);
           reward := currentReward a;
           state := array_get (inputsBuffer a) (netInputWindowSize a - 2);
           nextState := array_get (inputsBuffer a) (netInputWindowSize a - 1) |} :: rest
    /\ Forall NotRemember rest.
Proof.
  intros a Hl Hfp. subst a.
  destruct (backward_trace w) as [new (E & _ & Hsome)].
  destruct Hsome as [rest (-> & F & _)].
  - apply backward_stores_iff. now split.
  - exists rest. split; [exact E | exact F].
Qed.

(** ** The encoder *)

(** Running one operation. *)

Lemma bind_Normal {A B : Type} (m : M A) (k : A -> M B) (w w' : World) (a : A) :
  m w = (Normal a, w') -> bind m k w = k a w'.
Proof. intro E. unfold bind. rewrite E. reflexivity. Qed.

Lemma bind_Throw {A B : Type} (m : M A) (k : A -> M B) (w w' : World) (e : JsError) :
  m w = (Throw e, w') -> bind m k w = (Throw e, w').
Proof. intro E. unfold bind. rewrite E. reflexivity. Qed.

Lemma Tensor_concat_run (a b : Handle) (ta tb t : Tensor) (axis : nat) (w : World) :
  nth_error (heap w) a = Some ta ->
  nth_error (heap w) b = Some tb ->
  concat_values ta tb axis = Some t ->
  Tensor_concat (Some a) (Some b) axis w
  = (Normal (length (heap w)), set_heap (heap w ++ [t]) w).
Proof.
  intros Ha Hb Hc. unfold Tensor_concat, bind, deref. rewrite Ha, Hb, Hc. reflexivity.
Qed.

Lemma lookup_old (hp extra : list Tensor) (h : Handle) (t : Tensor) :
  nth_error hp h = Some t -> nth_error (hp ++ extra) h = Some t.
Proof.
  intro H. rewrite nth_error_app1; [exact H |]. apply nth_error_Some. congruence.
Qed.

Lemma lookup_new (hp extra : list Tensor) (k : nat) :
  nth_error (hp ++ extra) (length hp + k) = nth_error extra k.
Proof.
  rewrite nth_error_app2 by lia. f_equal. lia.
Qed.

Lemma lookup_last (hp : list Tensor) (t : Tensor) :
  nth_error (hp ++ [t]) (length hp) = Some t.
Proof.
  rewrite nth_error_app2 by lia. now rewrite Nat.sub_diag.
Qed.

Lemma index_equals_to_index (val : nat) (q : number) :
  index_equals val (Some q) = true <-> to_index q = Some val.
Proof.
  unfold index_equals, to_index. split.
  - intro E. apply Qeq_bool_iff in E.
    assert (F : Qfloor q = Z.of_nat val).
    { rewrite <- E. apply Qfloor_Z. }
    rewrite F.
    assert (G : Qeq_bool q (inject_Z (Z.of_nat val)) = true).
    { apply Qeq_bool_iff. symmetry. exact E. }
    rewrite G. simpl.
    assert (P : (0 <=? Z.of_nat val)%Z = true) by (apply Z.leb_le; lia).
    rewrite P. now rewrite Nat2Z.id.
  - destruct (Qeq_bool q (inject_Z (Qfloor q))) eqn:E; simpl; [| discriminate].
    destruct (0 <=? Qfloor q)%Z eqn:P; [| discriminate].
    intro H. injection H as <-.
    apply Z.leb_le in P. rewrite Z2Nat.id by exact P.
    apply Qeq_bool_iff. symmetry. apply Qeq_bool_iff. exact E.
Qed.

Lemma map_hit_seq (k n s : nat) :
  map (fun val => if Nat.eqb val k then 1%Q else 0%Q) (seq s n) =
  if Nat.leb s k && Nat.ltb k (s + n)
  then repeat 0%Q (k - s) ++ 1%Q :: repeat 0%Q (s + n - k - 1)
  else repeat 0%Q n.
Proof.
  revert s. induction n as [| n IH]; intro s.
  - cbn [seq map].
    destruct (Nat.leb_spec s k), (Nat.ltb_spec k (s + 0)); cbn [andb]; try reflexivity; lia.
  - cbn [seq map]. rewrite IH.
    destruct (Nat.eqb_spec s k) as [-> | Hne].
    + destruct (Nat.leb_spec (S k) k); [lia |].
      destruct (Nat.leb_spec k k); [| lia].
      destruct (Nat.ltb_spec k (k + S n)); [| lia].
      cbn [andb].
      replace (k - k)%nat with 0%nat by lia.
      replace (k + S n - k - 1)%nat with n by lia.
      reflexivity.
    + destruct (Nat.leb_spec s k), (Nat.leb_spec (S s) k); try lia; cbn [andb].
      * replace (S s + n)%nat with (s + S n)%nat by lia.
        destruct (Nat.ltb_spec k (s + S n)); [| reflexivity].
        replace (k - s)%nat with (S (k - S s)) by lia.
        reflexivity.
      * reflexivity.
Qed.

Lemma map_zero_repeat {X : Type} (l : list X) :
  map (fun _ => 0%Q) l = repeat 0%Q (length l).
Proof. induction l as [| x l IH]; simpl; [reflexivity | now rewrite IH]. Qed.

Lemma oneHot_spec (size : nat) (a : option number) :
  oneHot size a = spec_oneHot size a.
Proof.
  unfold oneHot, spec_oneHot, range0.
  destruct a as [q |].
  - destruct (to_index q) as [k |] eqn:Hk.
    + rewrite map_ext with (g := fun val => if Nat.eqb val k then 1%Q else 0%Q).
      * rewrite map_hit_seq. simpl. now rewrite Nat.sub_0_r.
      * intro val. destruct (Nat.eqb_spec val k) as [-> | Hne].
        -- apply index_equals_to_index in Hk. now rewrite Hk.
        -- destruct (index_equals val (Some q)) eqn:E; [| reflexivity].
           apply index_equals_to_index in E. congruence.
    + rewrite map_ext with (g := fun _ => 0%Q).
      * now rewrite map_zero_repeat, length_seq.
      * intro val. destruct (index_equals val (Some q)) eqn:E; [| reflexivity].
        apply index_equals_to_index in E. congruence.
  - simpl. now rewrite map_zero_repeat, length_seq.
Qed.


(** The loop, from a world [w0] that [w] has grown into: it appends to the
    row built so far the frames the spec lists from index [i] on. *)
Lemma createNeuralNetInput_loop_run (w : World) (n : nat) :
  forall (i : nat) (f : Handle) (w0 : World) (acc : list number) (frames : list (list number)),
    HeapGrows w w0 -> agent w0 = agent w ->
    nth_error (heap w0) f = Some (Rank2 [acc]) ->
    all_defined (map (spec_frame w) (seq i n)) = Some frames ->
    exists h,
      fst (createNeuralNetInput_loop n (Z.of_nat i) f w0) = Normal h /\
      nth_error (heap (snd (createNeuralNetInput_loop n (Z.of_nat i) f w0))) h
      = Some (Rank2 [acc ++ concat frames]) /\
      (f <= h)%nat.
Proof.
  induction n as [| n IH]; intros i f w0 acc frames Hgrow Hag Hf Hall.
  - simpl in Hall. injection Hall as <-. exists f. simpl.
    rewrite app_nil_r. auto.
  - cbn [seq map all_defined] in Hall.
    destruct (spec_frame w i) as [frame |] eqn:Hframe; [| discriminate].
    destruct (all_defined (map (spec_frame w) (seq (S i) n))) as [rest |] eqn:Hrest;
      [| discriminate].
    injection Hall as <-.
    unfold spec_frame in Hframe.
    destruct (stored_row (heap w) _) as [r |] eqn:Hrow; [| discriminate].
    injection Hframe as <-.
    unfold stored_row in Hrow.
    destruct (array_get (statesBuffer (agent w)) _) as [hs |] eqn:Hslot; [| discriminate].
    destruct (nth_error (heap w) hs) as [[v | [| r' [| r'' rows]]] |] eqn:Hhs;
      try discriminate.
    injection Hrow as ->.
    assert (Hhs0 : nth_error (heap w0) hs = Some (Rank2 [r]))
      by (eapply HeapGrows_lookup; eassumption).
    set (w1 := set_heap (heap w0 ++ [Rank2 [acc ++ r]]) w0).
    set (hot := oneHot (OutputSize (model (agent w)))
                  (array_get (actionsBuffer (agent w))
                     (netInputWindowSize (agent w) - 1 - Z.of_nat i))).
    set (w2 := set_heap (heap w1 ++ [Rank2 [hot]]) w1).
    set (w3 := set_heap (heap w2 ++ [Rank2 [(acc ++ r) ++ hot]]) w2).
    assert (Estep : createNeuralNetInput_loop (S n) (Z.of_nat i) f w0 =
                    createNeuralNetInput_loop n (Z.of_nat (S i)) (length (heap w2)) w3).
    { assert (E1 : Tensor_concat (Some f) (Some hs) 1 w0 = (Normal (length (heap w0)), w1)).
      { eapply Tensor_concat_run; [exact Hf | exact Hhs0 | reflexivity]. }
      assert (E2 : tensor (Rank2 [hot]) w1 = (Normal (length (heap w1)), w2)) by reflexivity.
      assert (E3 : Tensor_concat (Some (length (heap w0))) (Some (length (heap w1))) 1 w2
                   = (Normal (length (heap w2)), w3)).
      { eapply Tensor_concat_run.
        - unfold w2, w1. cbn [heap set_heap]. apply lookup_old, lookup_last.
        - unfold w2. cbn [heap set_heap]. apply lookup_last.
        - reflexivity. }
      cbn [createNeuralNetInput_loop].
      unfold bind at 1. unfold gets at 1. cbn match. rewrite Hag, Hslot.
      rewrite (bind_Normal _ _ _ E1).
      fold hot.
      rewrite (bind_Normal _ _ _ E2).
      rewrite (bind_Normal _ _ _ E3).
      replace (Z.of_nat i + 1)%Z with (Z.of_nat (S i)) by lia.
      reflexivity. }
    rewrite Estep.
    destruct (IH (S i) (length (heap w2)) w3 ((acc ++ r) ++ hot) rest) as [h (Eh & Hh & Hle)].
    + destruct Hgrow as [extra Hextra].
      exists (extra ++ [Rank2 [acc ++ r]; Rank2 [hot]; Rank2 [(acc ++ r) ++ hot]]).
      unfold w3, w2, w1. cbn [heap set_heap]. rewrite Hextra.
      repeat rewrite <- app_assoc. reflexivity.
    + exact Hag.
    + unfold w3. cbn [heap set_heap]. apply lookup_last.
    + exact Hrest.
    + exists h. split; [exact Eh | split].
      * rewrite Hh. unfold hot. rewrite oneHot_spec. cbn [concat].
        repeat rewrite <- app_assoc. reflexivity.
      * assert (f < length (heap w0))%nat by (apply nth_error_Some; congruence).
        unfold w2, w1 in Hle. cbn [heap set_heap] in Hle.
        rewrite !length_app in Hle. simpl in Hle. lia.
Qed.

(** C7. Where the encoded input the spec words is defined, and it is [t],
    [createNeuralNetInput] returns a tensor that holds [t]. That tensor is a
    new one, not the observation it was given; the observation and every
    other tensor that was there are as they were, and so is the agent;
    nothing is called on the collaborators. *)
Theorem createNeuralNetInput_encodes (w : World) (input : Handle) (t : Tensor) :
  spec_encodedInput w input = Some t ->
  let w' := snd (createNeuralNetInput input w) in
  exists h,
    fst (createNeuralNetInput input w) = Normal h
    /\ nth_error (heap w') h = Some t
    /\ h <> input
    /\ (length (heap w) <= h)%nat
    /\ nth_error (heap w') input = nth_error (heap w) input
    /\ (exists extra, heap w' = heap w ++ extra)
    /\ agent w' = agent w
    /\ trace w' = trace w.
Proof.
  intros Hspec w'.
  assert (Hgrow : HeapGrows w w') by apply createNeuralNetInput_HeapGrows.
  assert (Htrace : trace w' = trace w) by apply (createNeuralNetInput_trace input w).
  assert (Hag : agent w' = agent w) by apply (createNeuralNetInput_agent input w).
  unfold spec_encodedInput in Hspec.
  destruct (nth_error (heap w) input) as [observation |] eqn:Hobs; [| discriminate].
  assert (Hlive : (input < length (heap w))%nat) by (apply nth_error_Some; congruence).
  assert (Hkept : nth_error (heap w') input = Some observation)
    by (eapply HeapGrows_lookup; eassumption).
  set (w0 := set_heap (heap w ++ [observation]) w).
  assert (E0 : Tensor_clone input w = (Normal (length (heap w)), w0)).
  { unfold Tensor_clone, bind, deref. rewrite Hobs. reflexivity. }
  assert (Erun : createNeuralNetInput input w =
                 createNeuralNetInput_loop (Z.to_nat (temporalWindow (config (agent w))))
                   (Z.of_nat 0) (length (heap w)) w0).
  { unfold createNeuralNetInput. rewrite (bind_Normal _ _ _ E0). reflexivity. }
  assert (Hmain : exists h,
            fst (createNeuralNetInput input w) = Normal h /\
            nth_error (heap w') h = Some t /\ (length (heap w) <= h)%nat).
  { subst w'. rewrite Erun.
    destruct (Z.to_nat (temporalWindow (config (agent w)))) as [| n] eqn:Hn.
    - injection Hspec as <-. exists (length (heap w)). simpl.
      split; [reflexivity | split; [apply lookup_last | lia]].
    - destruct observation as [v | [| r [| r' rows]]]; try discriminate.
      destruct (all_defined (map (spec_frame w) (seq 0 (S n)))) as [frames |] eqn:Hall;
        [| discriminate].
      injection Hspec as <-.
      destruct (@createNeuralNetInput_loop_run w (S n) 0%nat (length (heap w)) w0 r frames)
        as [h (Eh & Hh & Hle)].
      + exists [Rank2 [r]]. reflexivity.
      + reflexivity.
      + apply lookup_last.
      + exact Hall.
      + exists h. auto. }
  destruct Hmain as [h (Eh & Hh & Hle)].
  exists h. split; [exact Eh |]. split; [exact Hh |].
  split; [lia |]. split; [exact Hle |]. split; [congruence |].
  split; [exact Hgrow | split; [exact Hag | exact Htrace]].
Qed.


(** ** The flag [done] *)

Lemma createNeuralNetInput_done input :
  Keeps (Unchanged the_done) (createNeuralNetInput input).
Proof.
  apply Unchanged_weaken with (proj := the_agent) (g := done (Model := Model) (Memory := Memory)).
  apply createNeuralNetInput_agent.
Qed.

Lemma forward_done input u randomAction :
  Keeps (Unchanged the_done) (forward input u randomAction).
Proof.
  unfold forward, forward_decay, lodash_random, Model_randomOutput, policy, Model_predict,
    tensor, alloc, emit.
  unchanged the_done by (apply createNeuralNetInput_done).
Qed.

Lemma replay_done : Keeps (Unchanged the_done) replay.
Proof.
  apply Unchanged_weaken with (proj := the_records)
    (g := fun r => match r with (d, _, _, _, _, _) => d end).
  apply replay_records.
Qed.

Lemma backward_done : Keeps (Unchanged the_done) backward.
Proof.
  unfold backward, Memory_remember_call, emit.
  unchanged the_done by (apply replay_done).
Qed.

Lemma settleFit_done i outcome (w : World) :
  done (agent (settleFit i outcome w)) = done (agent w).
Proof.
  unfold settleFit. destruct (nth_error (pendingFits w) i); [| reflexivity].
  destruct outcome; reflexivity.
Qed.

Lemma step_done (c : Call) (w : World) : done (agent (step c w)) = done (agent w).
Proof.
  destruct c as [input u r | | v | v | memento | t | m | i outcome]; simpl;
    try reflexivity.
  - apply (forward_done input u r w).
  - apply (backward_done w).
  - exact (f_equal (@done _ _) (createInOutFromMemento_agent memento w)).
  - apply settleFit_done.
Qed.

Lemma run_done (calls : list Call) :
  forall w : World, done (agent (run calls w)) = done (agent w).
Proof.
  induction calls as [| c calls IH]; intro w; simpl; [reflexivity |].
  change (fold_left _ calls (step c w)) with (run calls (step c w)).
  rewrite IH. apply step_done.
Qed.

(** C10. [done] is false in a new agent and stays false whatever is called,
    so in every world a run reaches from a new agent
    [createInOutFromMemento] computes its target on the branch that is not
    done: the target is [reward + gamma * getHighestValue] of the prediction
    for the next state, and never the bare reward of the done branch. *)
Theorem done_stays_false (estimator : Model) (settings : AgentConfig)
    (store : option Memory) (tensors : list Tensor) (calls : list Call) :
  let w := run calls (boot estimator settings store tensors) in
  done (agent w) = false
  /\ forall memento : Memento,
       createInOutFromMemento_target memento w =
       (r <- Model_predict (nextState memento);;
        ret (reward memento
             + gamma (learningConfig (config (agent w))) * getHighestValue r)%Q) w.
Proof.
  intro w.
  assert (Hd : done (agent w) = false) by (subst w; now rewrite run_done).
  split; [exact Hd |].
  intro memento. unfold createInOutFromMemento_target, bind at 1, gets at 1.
  cbn match. rewrite Hd. reflexivity.
Qed.

(** ** The promise of [fit] *)

Lemma replay_stages (w : World) :
  replay w = (trainData <- replay_prepare;; replay_dispatch trainData) w.
Proof.
  unfold replay, replay_prepare, replay_dispatch, bind, emit, modify, gets. simpl.
  destruct (Memory_sample_call _ _) as [[batch | e] w1]; [| reflexivity].
  destruct (mapM createInOutFromMemento batch w1) as [[pairs | e] w2]; [| reflexivity].
  destruct (reduce replay_concat pairs w2) as [[td | e] w3]; reflexivity.
Qed.

Lemma createInOutFromMemento_promises memento :
  Keeps (Unchanged the_promises) (createInOutFromMemento memento).
Proof.
  unfold createInOutFromMemento, createInOutFromMemento_target, Model_predict,
    tensor2d, alloc, emit.
  unchanged the_promises by fail.
Qed.

Lemma replay_prepare_promises : Keeps (Unchanged the_promises) replay_prepare.
Proof.
  unfold replay_prepare, Memory_sample_call, replay_concat, Tensor_concat, alloc, emit.
  unchanged the_promises by (apply createInOutFromMemento_promises).
Qed.

Lemma replay_dispatched (w : World) :
  pendingFits (snd (replay w)) <> pendingFits w -> fst (replay w) = Normal tt.
Proof.
  rewrite replay_stages. unfold bind.
  assert (P := replay_prepare_promises w). unfold Unchanged, the_promises in P.
  destruct (replay_prepare w) as [[td | e] w1]; simpl in *.
  - unfold replay_dispatch, Model_fit.
    destruct (InOut.x td); [reflexivity |].
    intro H. exfalso. apply H. simpl. congruence.
  - intro H. exfalso. apply H. congruence.
Qed.

(** C9, amended. A [backward] call that dispatched a fit returned normally,
    with that fit pending: whether the fit succeeds has no part in how the
    call completes. When the fit later resolves, the first reported loss is
    added to the loss window. When it is rejected, nothing of the agent
    changes and no further fit is dispatched; the handler throws
    [Error("Unable to realize fit correctly")] inside the promise chain, and
    as the promise of [then] was dropped the error ends as a rejection no one
    handles, not as an error of any call on the agent. *)
Theorem fit_settles (w : World) :
  (pendingFits (snd (backward w)) <> pendingFits w -> fst (backward w) = Normal tt)
  /\ forall (i : nat) (p : PendingFit),
       nth_error (pendingFits w) i = Some p ->
       (forall loss,
          settleFit i (Resolved loss) w =
          set_agent (set_lossesHistory
                       (TypedWindow_add (nth_error loss 0) (lossesHistory (agent w)))
                       (agent w))
            (set_pendingFits (remove_nth i (pendingFits w)) w))
       /\ (forall reason,
             settleFit i (Rejected reason) w =
             set_unhandledRejections
               (unhandledRejections w ++ [Error "Unable to realize fit correctly"])
               (set_pendingFits (remove_nth i (pendingFits w)) w)).
Proof.
  split.
  - rewrite backward_cases.
    destruct (backward_stores (agent w)); [| intro H; now elim H].
    destruct (backward_replays (agent w)); [| intro H; now elim H].
    exact (replay_dispatched (backward_remembered w)).
  - intros i p Hp. unfold settleFit. rewrite Hp. split; reflexivity.
Qed.


(** ** [replay] *)

Lemma nth_lookup (hp : list Tensor) (h : Handle) (t : Tensor) :
  nth_error hp h = Some t -> nth h hp (Rank1 []) = t.
Proof. intro H. now apply nth_error_nth. Qed.

Lemma list_update_length {X : Type} (l : list X) :
  forall i v, length (list_update l i v) = length l.
Proof.
  induction l as [| h l IH]; intros [| i] v; simpl; auto.
Qed.

Lemma array_store_length (arr : list number) key v :
  length (array_store arr key v) = length arr.
Proof.
  unfold array_store. destruct key as [k |]; [| reflexivity].
  destruct (to_index k); [apply list_update_length | reflexivity].
Qed.

Lemma chunks_one_row (l : list number) (c : nat) :
  length l = c -> chunks 1 c l = [l].
Proof. intros <-. simpl. now rewrite firstn_all. Qed.

Lemma trainable_inv (a : Agent) (hp : list Tensor) (c : nat) (m : Memento) :
  trainable a hp c m = true ->
  exists hs hn rows tn,
    state m = Some hs /\ nextState m = Some hn /\
    nth_error hp hs = Some (Rank2 rows) /\ nth_error hp hn = Some tn /\
    Forall (fun r => length r = c) rows /\
    length (getValue (predict (model a) (Rank2 rows))) = 3%nat.
Proof.
  unfold trainable. intro H.
  destruct (state m) as [hs |]; [| discriminate].
  destruct (nextState m) as [hn |]; [| discriminate].
  destruct (nth_error hp hs) as [[v | rows] |] eqn:Hs; try discriminate.
  destruct (nth_error hp hn) as [tn |] eqn:Hn; [| discriminate].
  apply andb_true_iff in H. destruct H as [Hw Hl].
  exists hs, hn, rows, tn. repeat split; try reflexivity; try assumption.
  - apply Forall_forall. intros r Hr.
    rewrite forallb_forall in Hw. apply Nat.eqb_eq, Hw, Hr.
  - now apply Nat.eqb_eq.
Qed.

Lemma tensor2d_run (values : list number) (w : World) :
  length values = 3%nat ->
  tensor2d values 1 3 w = (Normal (length (heap w)), set_heap (heap w ++ [Rank2 [values]]) w).
Proof.
  intro Hl. unfold tensor2d. rewrite Hl. cbn [Nat.mul Nat.add Nat.eqb].
  rewrite (@chunks_one_row values 3 Hl). reflexivity.
Qed.

Lemma tensor2d_throws (values : list number) (w : World) :
  length values <> 3%nat ->
  tensor2d values 1 3 w =
  (Throw (TensorError "tensor2d: the shape does not match the number of values"), w).
Proof.
  intro Hl. unfold tensor2d. cbn [Nat.mul Nat.add].
  destruct (Nat.eqb_spec (length values) 3); [contradiction | reflexivity].
Qed.

Lemma Model_predict_run (h : Handle) (t : Tensor) (w : World) :
  nth_error (heap w) h = Some t ->
  Model_predict (Some h) w =
  (Normal (predict (model (agent w)) t), set_trace (trace w ++ [EvPredict h]) w).
Proof.
  intro Hh. unfold Model_predict, bind, deref. rewrite Hh. reflexivity.
Qed.

(** One pair. [a] and [hp] are the agent and the tensors [replay] started
    with; [w0] is the world it has reached. *)
Lemma createInOutFromMemento_run (a : Agent) (hp : list Tensor) (c : nat) (m : Memento)
    (w0 : World) :
  (exists extra, heap w0 = hp ++ extra) ->
  done (agent w0) = done a -> model (agent w0) = model a ->
  config (agent w0) = config a ->
  trainable a hp c m = true ->
  createInOutFromMemento m w0 =
  (Normal {| InOut.x := state m; InOut.y := length (heap w0) |},
   set_heap (heap w0 ++ [Rank2 [spec_label a hp m]])
     (set_trace (trace w0 ++ spec_predictions a m) w0)).
Proof.
  intros [extra Hext] Hd Hm Hc Ht.
  destruct (trainable_inv _ _ _ _ Ht) as (hs & hn & rows & tn & Es & En & Hs & Hn & Hw & Hl).
  assert (Hs0 : nth_error (heap w0) hs = Some (Rank2 rows))
    by (rewrite Hext; now apply lookup_old).
  assert (Hn0 : nth_error (heap w0) hn = Some tn)
    by (rewrite Hext; now apply lookup_old).
  assert (Elabel : spec_label a hp m =
            array_store (getValue (predict (model a) (Rank2 rows))) (action m)
              (spec_target a hp m)).
  { unfold spec_label, tensor_at. rewrite Es. now rewrite (nth_lookup _ _ Hs). }
  assert (Etarget : spec_target a hp m =
            if done a then reward m
            else (reward m + gamma (learningConfig (config a))
                             * getHighestValue (predict (model a) tn))%Q).
  { unfold spec_target, tensor_at. rewrite En. now rewrite (nth_lookup _ _ Hn). }
  assert (Hlen : length (spec_label a hp m) = 3%nat)
    by (rewrite Elabel, array_store_length; exact Hl).
  unfold createInOutFromMemento, createInOutFromMemento_target, spec_predictions.
  rewrite Es, En.
  unfold bind at 1. unfold bind at 1. unfold gets at 1. cbn match.
  rewrite Hd. destruct (done a); cbn [negb].
  - cbn [ret]. cbn match.
    rewrite (bind_Normal _ _ _ (Model_predict_run hs _ Hs0)).
    rewrite Hm. rewrite <- Etarget, <- Elabel.
    rewrite (bind_Normal _ _ _ (tensor2d_run _ _ Hlen)).
    reflexivity.
  - rewrite (bind_Normal _ _ _ (Model_predict_run hn _ Hn0)).
    cbn [ret]. cbn match.
    set (w1 := set_trace (trace w0 ++ [EvPredict hn]) w0).
    rewrite (bind_Normal _ _ _ (@Model_predict_run hs (Rank2 rows) w1 Hs0)).
    unfold w1. cbn [agent set_trace]. rewrite Hm, Hc. rewrite <- Etarget, <- Elabel.
    rewrite (bind_Normal _ _ _ (tensor2d_run _ _ Hlen)).
    unfold set_heap, set_trace, ret. cbn. rewrite <- app_assoc. reflexivity.
Qed.


Lemma world_eta (w : World) :
  set_heap (heap w ++ []) (set_trace (trace w ++ []) w) = w.
Proof. destruct w. unfold set_heap, set_trace. simpl. now rewrite !app_nil_r. Qed.

Lemma mapM_createInOutFromMemento_run (a : Agent) (hp : list Tensor) (c : nat)
    (batch : list Memento) :
  forall w0 : World,
    (exists extra, heap w0 = hp ++ extra) ->
    done (agent w0) = done a -> model (agent w0) = model a ->
    config (agent w0) = config a ->
    forallb (trainable a hp c) batch = true ->
    mapM createInOutFromMemento batch w0 =
    (Normal (pairs_from (length (heap w0)) batch),
     set_heap (heap w0 ++ map (fun m => Rank2 [spec_label a hp m]) batch)
       (set_trace (trace w0 ++ flat_map (spec_predictions a) batch) w0)).
Proof.
  induction batch as [| m batch IH]; intros w0 Hext Hd Hm Hc Hall.
  - cbn [mapM map flat_map pairs_from]. now rewrite world_eta.
  - cbn [forallb] in Hall. apply andb_true_iff in Hall. destruct Hall as [Ht Hall].
    cbn [mapM].
    rewrite (bind_Normal _ _ _ (createInOutFromMemento_run a hp c m w0 Hext Hd Hm Hc Ht)).
    set (w1 := set_heap _ _).
    assert (Hext1 : exists extra, heap w1 = hp ++ extra).
    { destruct Hext as [extra E]. exists (extra ++ [Rank2 [spec_label a hp m]]).
      unfold w1. cbn [heap set_heap]. rewrite E. now rewrite app_assoc. }
    rewrite (bind_Normal _ _ _ (IH w1 Hext1 Hd Hm Hc Hall)).
    unfold ret, w1, set_heap, set_trace. cbn.
    rewrite length_app. cbn [length]. rewrite Nat.add_1_r.
    rewrite <- !app_assoc. reflexivity.
Qed.

Lemma widths_agree_same (c : nat) (u v : list (list number)) :
  all_width c u -> all_width c v -> widths_agree u v = true.
Proof.
  unfold all_width, widths_agree. intros Hu Hv.
  apply forallb_forall. intros r Hr. apply forallb_forall. intros r' Hr'.
  rewrite Forall_forall in Hu, Hv. apply Nat.eqb_eq.
  rewrite (Hu r Hr), (Hv r' Hr'). reflexivity.
Qed.

Lemma pair_holds_grows (hp extra : list Tensor) p xs ys :
  pair_holds hp p xs ys -> pair_holds (hp ++ extra) p xs ys.
Proof.
  intros [hx (Ex & Hx & Hy)]. exists hx.
  split; [exact Ex | split; now apply lookup_old].
Qed.

Lemma foldM_replay_concat_run (c : nat) (ps : list InOut.t) :
  forall (vals : list (list (list number) * list (list number)))
         (acc : InOut.t) (xs ys : list (list number)) (w2 : World),
    Forall2 (pair_fits (heap w2) c) ps vals ->
    pair_holds (heap w2) acc xs ys -> all_width c xs -> all_width 3 ys ->
    exists td,
      fst (foldM replay_concat acc ps w2) = Normal td /\
      pair_holds (heap (snd (foldM replay_concat acc ps w2))) td
        (xs ++ concat (map fst vals)) (ys ++ concat (map snd vals)).
Proof.
  induction ps as [| p ps IH]; intros vals acc xs ys w2 Hall Hacc Hxs Hys.
  - inversion Hall; subst. exists acc. cbn. rewrite !app_nil_r. auto.
  - inversion Hall as [| p' v ps' vals' Hp Hrest]; subst.
    destruct Hp as ([px (Epx & Hpx & Hpy)] & Hvx & Hvy).
    destruct Hacc as [ax (Eax & Hax & Hay)].
    set (w3 := set_heap (heap w2 ++ [Rank2 (xs ++ fst v)]) w2).
    set (w4 := set_heap (heap w3 ++ [Rank2 (ys ++ snd v)]) w3).
    assert (Estep : replay_concat acc p w2 =
              (Normal {| InOut.x := Some (length (heap w2)); InOut.y := length (heap w3) |}, w4)).
    { unfold replay_concat. rewrite Eax, Epx.
      assert (E1 : Tensor_concat (Some ax) (Some px) 0 w2 = (Normal (length (heap w2)), w3)).
      { eapply Tensor_concat_run; [exact Hax | exact Hpx |].
        cbn [concat_values]. now rewrite (widths_agree_same Hxs Hvx). }
      rewrite (bind_Normal _ _ _ E1).
      assert (E2 : Tensor_concat (Some (InOut.y acc)) (Some (InOut.y p)) 0 w3
                   = (Normal (length (heap w3)), w4)).
      { eapply Tensor_concat_run.
        - unfold w3. cbn [heap set_heap]. apply lookup_old. exact Hay.
        - unfold w3. cbn [heap set_heap]. apply lookup_old. exact Hpy.
        - cbn [concat_values]. now rewrite (widths_agree_same Hys Hvy). }
      rewrite (bind_Normal _ _ _ E2). reflexivity. }
    cbn [foldM]. rewrite (bind_Normal _ _ _ Estep).
    assert (Hheap4 : heap w4 = heap w2 ++ [Rank2 (xs ++ fst v); Rank2 (ys ++ snd v)]).
    { unfold w4, w3. cbn [heap set_heap]. now rewrite <- app_assoc. }
    destruct (IH vals' {| InOut.x := Some (length (heap w2)); InOut.y := length (heap w3) |}
                (xs ++ fst v) (ys ++ snd v) w4) as [td (Etd & Htd)].
    + rewrite Hheap4. eapply Forall2_impl; [| exact Hrest].
      intros q u (Hq & Hu1 & Hu2). split; [now apply pair_holds_grows | auto].
    + exists (length (heap w2)). cbn [InOut.x InOut.y].
      split; [reflexivity |]. rewrite Hheap4. split.
      * rewrite <- (Nat.add_0_r (length (heap w2))). now rewrite lookup_new.
      * unfold w3. cbn [heap set_heap]. rewrite length_app. cbn [length].
        now rewrite lookup_new.
    + apply Forall_app. split; assumption.
    + apply Forall_app. split; assumption.
    + exists td. split; [exact Etd |].
      cbn [map concat]. rewrite !app_assoc. exact Htd.
Qed.

Lemma foldM_replay_concat_rest acc ps :
  Keeps (Unchanged the_rest) (foldM replay_concat acc ps).
Proof.
  apply (Keeps_foldM (Unchanged_refl the_rest) (@Unchanged_trans _ the_rest)).
  intros b p. unfold replay_concat, Tensor_concat, alloc. unchanged the_rest by fail.
Qed.

(** The pairs of a batch hold what the spec says of its mementos, once their
    labels are in the heap. *)
Lemma pairs_from_fit (a : Agent) (hp : list Tensor) (c : nat) (batch : list Memento) :
  forall (pre post : list Tensor),
    forallb (trainable a hp c) batch = true ->
    (exists extra, pre = hp ++ extra) ->
    Forall2
      (pair_fits (pre ++ map (fun m => Rank2 [spec_label a hp m]) batch ++ post) c)
      (pairs_from (length pre) batch)
      (map (fun m => (spec_rows hp m, [spec_label a hp m])) batch).
Proof.
  induction batch as [| m batch IH]; intros pre post Hall Hext; cbn [pairs_from map].
  - constructor.
  - cbn [forallb] in Hall. apply andb_true_iff in Hall. destruct Hall as [Ht Hall].
    constructor.
    + destruct (trainable_inv _ _ _ _ Ht)
        as (hs & hn & rows & tn & Es & En & Hs & Hn & Hw & Hl).
      assert (Erows : spec_rows hp m = rows).
      { unfold spec_rows, tensor_at. rewrite Es. now rewrite (nth_lookup _ _ Hs). }
      assert (Elabel : length (spec_label a hp m) = 3%nat).
      { unfold spec_label, tensor_at. rewrite Es, (nth_lookup _ _ Hs).
        now rewrite array_store_length. }
      split; [| split].
      * exists hs. cbn [fst snd InOut.x InOut.y]. split; [exact Es |]. split.
        -- destruct Hext as [extra ->]. rewrite <- app_assoc. apply lookup_old.
           now rewrite Erows.
        -- rewrite <- (Nat.add_0_r (length pre)). now rewrite lookup_new.
      * cbn [fst]. now rewrite Erows.
      * cbn [snd]. constructor; [exact Elabel | constructor].
    + specialize (IH (pre ++ [Rank2 [spec_label a hp m]]) post Hall).
      rewrite length_app in IH. cbn [length] in IH. rewrite Nat.add_1_r in IH.
      rewrite <- app_assoc in IH. apply IH.
      destruct Hext as [extra ->]. eexists. now rewrite <- app_assoc.
Qed.


Lemma Memory_sample_call_run (n : Z) (w : World) :
  Memory_sample_call n w =
  (Normal (fst (Memory_sample n (memory (agent w)))),
   set_agent (set_memory (snd (Memory_sample n (memory (agent w)))) (agent w))
     (set_trace (trace w ++ [EvSample n]) w)).
Proof.
  unfold Memory_sample_call, bind, emit, modify, gets, assign. cbn.
  destruct (Memory_sample n (memory (agent w))). reflexivity.
Qed.

Lemma concat_map_singleton {X Y : Type} (f : X -> Y) (l : list X) :
  concat (map (fun v => [f v]) l) = map f l.
Proof. induction l as [| v l IH]; simpl; [reflexivity | now rewrite IH]. Qed.

Lemma run_pair {A : Type} (m : M A) (w : World) (a : A) :
  fst (m w) = Normal a -> m w = (Normal a, snd (m w)).
Proof. destruct (m w) as [r w1]. simpl. now intros ->. Qed.

(** A [replay] on a store whose sample is not empty and is made of
    mementos a pair can be made of: asks the store once, for [batchSize]
    mementos; asks the estimator for the predictions of each memento, in the
    order of the sample; calls [fit] once, with one epoch and one step per
    epoch, on the tensor [X] that stacks the rows of the states and the tensor
    [Y] that stacks the label rows, both in the order of the sample; and
    returns with the accumulated reward at zero while that fit is still
    pending: nothing has been added to the loss window. *)
Lemma replay_on_trainable (w : World) (c : nat) :
  let a := agent w in
  let size := batchSize (config a) in
  let batch := fst (Memory_sample size (memory a)) in
  batch <> [] ->
  forallb (trainable a (heap w) c) batch = true ->
  let w' := snd (replay w) in
  fst (replay w) = Normal tt
  /\ exists X Y,
       trace w' = trace w ++ [EvReplay; EvSample size]
                  ++ flat_map (spec_predictions a) batch ++ [EvFit X Y 1 1]
       /\ nth_error (heap w') X = Some (Rank2 (concat (map (spec_rows (heap w)) batch)))
       /\ nth_error (heap w') Y = Some (Rank2 (map (spec_label a (heap w)) batch))
       /\ pendingFits w' = pendingFits w ++ [{| fit_x := X; fit_y := Y |}]
       /\ currentReward (agent w') = 0%Q
       /\ lossesHistory (agent w') = lossesHistory (agent w)
       /\ unhandledRejections w' = unhandledRejections w.
Proof.
  intros a size batch Hne Hall w'.
  set (hp := heap w).
  set (lab := fun m => Rank2 [spec_label a hp m]).
  set (w0 := set_trace (trace w ++ [EvReplay]) w).
  set (wa := set_agent (set_memory (snd (Memory_sample size (memory a))) (agent w))
               (set_trace (trace w0 ++ [EvSample size]) w0)).
  set (wb := set_heap (heap wa ++ map lab batch)
               (set_trace (trace wa ++ flat_map (spec_predictions a) batch) wa)).
  assert (Emap : mapM createInOutFromMemento batch wa =
                 (Normal (pairs_from (length hp) batch), wb)).
  { apply (mapM_createInOutFromMemento_run a hp c batch wa); try reflexivity.
    - exists []. unfold wa, w0. cbn. now rewrite app_nil_r.
    - exact Hall. }
  assert (Eprep : replay_prepare w = reduce replay_concat (pairs_from (length hp) batch) wb).
  { unfold replay_prepare.
    unfold bind at 1. unfold emit at 1. unfold modify at 1. cbn match. fold w0.
    unfold bind at 1. unfold gets at 1. cbn match.
    rewrite (bind_Normal _ _ _ (Memory_sample_call_run size w0)).
    change (fst (Memory_sample size (memory (agent w0)))) with batch.
    change (set_agent _ _) with wa.
    rewrite (bind_Normal _ _ _ Emap). reflexivity. }
  destruct batch as [| m rest] eqn:Hbatch; [now elim Hne |].
  assert (Hfit := @pairs_from_fit a hp c (m :: rest) hp [] Hall
                    (ex_intro _ [] (eq_sym (app_nil_r hp)))).
  cbn [pairs_from map] in Hfit.
  match type of Hfit with
  | Forall2 (pair_fits ?h _) _ _ => assert (Hheapb : heap wb = h)
  end.
  { unfold wb, wa, w0, lab. cbn [heap set_heap set_trace set_agent map].
    now rewrite app_nil_r. }
  rewrite <- Hheapb in Hfit.
  inversion Hfit as [| p1 v1 ps vals (Hp1 & Hx1 & Hy1) Hrest]; subst p1 v1 ps vals.
  cbn [fst snd] in Hp1, Hx1, Hy1.
  destruct (@foldM_replay_concat_run c (pairs_from (S (length hp)) rest)
              (map (fun m => (spec_rows hp m, [spec_label a hp m])) rest)
              {| InOut.x := state m; InOut.y := length hp |}
              (spec_rows hp m) [spec_label a hp m] wb Hrest Hp1 Hx1 Hy1)
    as [td (Etd & Htd)].
  assert (Hrestb := foldM_replay_concat_rest
                      {| InOut.x := state m; InOut.y := length hp |}
                      (pairs_from (S (length hp)) rest) wb).
  unfold Unchanged, the_rest in Hrestb.
  cbn [pairs_from reduce] in Eprep.
  apply run_pair in Etd.
  set (wc := snd (foldM replay_concat _ _ wb)) in *.
  rewrite <- Eprep in Etd.
  injection Hrestb as Hagent Htrace Hpending Hunhandled.
  destruct Htd as [hx (Ehx & HX & HY)].
  rewrite map_map in HX, HY. cbn [fst snd] in HX, HY.
  rewrite concat_map_singleton in HY.
  assert (Efinal : replay w =
            (Normal tt,
             set_agent (set_currentReward 0 (agent wc))
               (set_pendingFits (pendingFits wc ++ [{| fit_x := hx; fit_y := InOut.y td |}])
                  (set_trace (trace wc ++ [EvFit hx (InOut.y td) 1 1]) wc)))).
  { rewrite replay_stages. rewrite (bind_Normal _ _ _ Etd).
    unfold replay_dispatch, Model_fit. rewrite Ehx. reflexivity. }
  subst w'. rewrite Efinal. cbn [fst snd].
  split; [reflexivity |].
  exists hx, (InOut.y td).
  cbn [trace heap pendingFits unhandledRejections agent set_agent set_pendingFits set_trace
       currentReward lossesHistory set_currentReward].
  rewrite Htrace, Hpending, Hunhandled, Hagent.
  split.
  { unfold wb, wa, w0. cbn [trace set_heap set_trace set_agent flat_map].
    rewrite <- !app_assoc. reflexivity. }
  split; [exact HX |]. split; [exact HY |].
  split; [reflexivity |]. split; [reflexivity |]. split; reflexivity.
Qed.


(** ** [createInOutFromMemento] *)

Lemma list_update_same {X : Type} (l : list X) :
  forall i v, (i < length l)%nat -> nth_error (list_update l i v) i = Some v.
Proof.
  induction l as [| h l IH]; intros [| i] v Hi; simpl in *; try lia; auto.
  apply IH. lia.
Qed.

Lemma list_update_other {X : Type} (l : list X) :
  forall i k v, k <> i -> nth_error (list_update l i v) k = nth_error l k.
Proof.
  induction l as [| h l IH]; intros [| i] [| k] v Hk; simpl; auto; try congruence.
Qed.

(** With an estimator of three outputs the pair is the one of the spec: [x]
    is the state of the memento; [y] is a new tensor whose row holds the
    target at the index of the action and the prediction for the state
    everywhere else. *)
Lemma createInOutFromMemento_three_outputs (w : World) (c : nat) (m : Memento) :
  trainable (agent w) (heap w) c m = true ->
  let prediction := getValue (predict (model (agent w)) (tensor_at (heap w) (state m))) in
  let target := spec_target (agent w) (heap w) m in
  exists row,
    fst (createInOutFromMemento m w) =
      Normal {| InOut.x := state m; InOut.y := length (heap w) |}
    /\ nth_error (heap (snd (createInOutFromMemento m w))) (length (heap w))
       = Some (Rank2 [row])
    /\ length row = 3%nat
    /\ (forall q i, action m = Some q -> to_index q = Some i -> (i < 3)%nat ->
        nth_error row i = Some target)
    /\ (forall q i k, action m = Some q -> to_index q = Some i -> k <> i ->
        nth_error row k = nth_error prediction k).
Proof.
  intros Ht prediction target.
  assert (E := createInOutFromMemento_run (agent w) (heap w) c m w
                 (ex_intro _ [] (eq_sym (app_nil_r (heap w))))
                 eq_refl eq_refl eq_refl Ht).
  exists (spec_label (agent w) (heap w) m). rewrite E. cbn [fst snd heap set_heap].
  destruct (trainable_inv _ _ _ _ Ht) as (hs & hn & rows & tn & Es & En & Hs & Hn & Hw & Hl).
  assert (Hp : length prediction = 3%nat).
  { unfold prediction, tensor_at. rewrite Es, (nth_lookup _ _ Hs). exact Hl. }
  split; [reflexivity |]. split; [apply lookup_last |].
  split; [unfold spec_label; fold prediction; now rewrite array_store_length |].
  split.
  - intros q i Ea Ei Hi. unfold spec_label, array_store. fold prediction target.
    rewrite Ea, Ei. apply list_update_same. lia.
  - intros q i k Ea Ei Hk. unfold spec_label, array_store. fold prediction target.
    rewrite Ea, Ei. now apply list_update_other.
Qed.

(** With any other number of outputs it throws: the label is shaped
    [[1, 3]] whatever the estimator predicts. *)
Lemma createInOutFromMemento_other_outputs (w : World) (m : Memento) (hs hn : Handle)
    (ts tn : Tensor) :
  state m = Some hs -> nextState m = Some hn ->
  nth_error (heap w) hs = Some ts -> nth_error (heap w) hn = Some tn ->
  length (getValue (predict (model (agent w)) ts)) <> 3%nat ->
  fst (createInOutFromMemento m w) =
  Throw (TensorError "tensor2d: the shape does not match the number of values").
Proof.
  intros Es En Hs Hn Hl.
  unfold createInOutFromMemento, createInOutFromMemento_target.
  rewrite Es, En.
  unfold bind at 1. unfold bind at 1. unfold gets at 1. cbn match.
  destruct (done (agent w)); cbn [negb].
  - cbn [ret]. cbn match.
    rewrite (bind_Normal _ _ _ (Model_predict_run hs w Hs)).
    erewrite bind_Throw; [reflexivity |].
    apply tensor2d_throws. now rewrite array_store_length.
  - rewrite (bind_Normal _ _ _ (Model_predict_run hn w Hn)).
    cbn [ret]. cbn match.
    set (w1 := set_trace (trace w ++ [EvPredict hn]) w).
    rewrite (bind_Normal _ _ _ (@Model_predict_run hs ts w1 Hs)).
    erewrite bind_Throw; [reflexivity |].
    apply tensor2d_throws. now rewrite array_store_length.
Qed.



(** * Further properties *)

(** ** [forward], as its choice followed by the push *)

Lemma forward_act_choose (input : Handle) (u randomAction : number) (w : World) :
  forward_act input u randomAction w =
  match forward_choose (agent w) input u randomAction w with
  | (Normal (action, netInput), w') =>
      (Normal action,
       set_agent (set_buffers (shift_push (actionsBuffer (agent w')) action)
                              (shift_push (statesBuffer (agent w')) input)
                              (shift_push (inputsBuffer (agent w')) netInput)
                              (agent w')) w')
  | (Throw e, w') => (Throw e, w')
  end.
Proof.
  unfold forward_act, bind at 1, gets at 1. cbn match.
  fold (forward_choose (agent w) input u randomAction).
  unfold bind at 1.
  destruct (forward_choose (agent w) input u randomAction w)
    as [[[action netInput] | e] w']; reflexivity.
Qed.

Lemma forward_by_choice (input : Handle) (u randomAction : number) (w : World) :
  forward input u randomAction w =
  match forward_choose (agent (forward_ready w)) input u randomAction (forward_ready w) with
  | (Normal (action, netInput), w') =>
      (Normal action,
       set_agent (set_buffers (shift_push (actionsBuffer (agent w')) action)
                              (shift_push (statesBuffer (agent w')) input)
                              (shift_push (inputsBuffer (agent w')) netInput)
                              (agent w')) w')
  | (Throw e, w') => (Throw e, w')
  end.
Proof.
  rewrite forward_steps. fold (forward_ready w). apply forward_act_choose.
Qed.

Lemma createNeuralNetInput_loop_agent_and_fits n :
  forall i f, Keeps (Unchanged the_agent_and_fits) (createNeuralNetInput_loop n i f).
Proof.
  induction n as [| n IH]; intros i f; simpl; unfold tensor, Tensor_concat, alloc;
    unchanged the_agent_and_fits by (apply IH).
Qed.

Lemma createNeuralNetInput_agent_and_fits input :
  Keeps (Unchanged the_agent_and_fits) (createNeuralNetInput input).
Proof.
  unfold createNeuralNetInput, Tensor_clone, alloc.
  unchanged the_agent_and_fits by (apply createNeuralNetInput_loop_agent_and_fits).
Qed.

Lemma forward_choose_agent_and_fits this input u randomAction :
  Keeps (Unchanged the_agent_and_fits) (forward_choose this input u randomAction).
Proof.
  unfold forward_choose, lodash_random, Model_randomOutput, policy, Model_predict,
    tensor, alloc, emit.
  unchanged the_agent_and_fits by (apply createNeuralNetInput_agent_and_fits).
Qed.

Lemma createInOutFromMemento_agent_and_fits memento :
  Keeps (Unchanged the_agent_and_fits) (createInOutFromMemento memento).
Proof.
  unfold createInOutFromMemento, createInOutFromMemento_target, Model_predict,
    tensor2d, alloc, emit.
  unchanged the_agent_and_fits by fail.
Qed.

(** What [forward_ready] changes of the agent: the count of forward passes
    and epsilon. *)
Lemma forward_ready_agent (w : World) :
  exists eps,
    agent (forward_ready w) =
    set_config (set_epsilon eps (config (agent w)))
      (set_track (set_forwardPasses (forwardPasses (track (agent w)) + 1)%Z
                    (track (agent w))) (agent w))
    /\ heap (forward_ready w) = heap w
    /\ trace (forward_ready w) = trace w
    /\ pendingFits (forward_ready w) = pendingFits w
    /\ unhandledRejections (forward_ready w) = unhandledRejections w.
Proof.
  unfold forward_ready. rewrite forward_decay_world.
  set (w1 := set_agent _ w).
  destruct (decay_due (agent w1)).
  - eexists. cbn. repeat split; reflexivity.
  - exists (epsilon (learningConfig (config (agent w)))).
    destruct w as [a hp pf ur tr]. destruct a. 
    match goal with c : AgentConfig |- _ => destruct c as [ms bs tw lc]; destruct lc end.
    cbn. repeat split; reflexivity.
Qed.

(** The agent [forward] leaves: the one of [forward_ready], with the three
    pushes if the call returns. *)
Lemma forward_agent (input : Handle) (u randomAction : number) (w : World) :
  let w' := snd (forward input u randomAction w) in
  let a := agent (forward_ready w) in
  pendingFits w' = pendingFits w /\ unhandledRejections w' = unhandledRejections w /\
  match fst (forward input u randomAction w) with
  | Normal action =>
      exists netInput,
        agent w' = set_buffers (shift_push (actionsBuffer a) action)
                               (shift_push (statesBuffer a) input)
                               (shift_push (inputsBuffer a) netInput) a
  | Throw _ => agent w' = a
  end.
Proof.
  intros w' a. subst w'. rewrite forward_by_choice.
  assert (K := forward_choose_agent_and_fits (agent (forward_ready w)) input u randomAction
                 (forward_ready w)).
  unfold Unchanged, the_agent_and_fits in K.
  destruct (forward_ready_agent w) as [eps (_ & _ & _ & Hp & Hu)].
  destruct (forward_choose _ _ _ _ _) as [[[action netInput] | e] w3]; cbn in *;
    injection K as Ka Kp Ku.
  - split; [congruence | split; [congruence |]].
    exists netInput. subst a. rewrite Ka. reflexivity.
  - split; [congruence | split; [congruence |]]. exact Ka.
Qed.

(** X1. [forward] never learns: whether it returns or throws, it leaves the
    store, the accumulated reward, the two windows, [age], [learning],
    [done], the estimator, [netInputWindowSize] and the pending fits as they
    were. *)
Theorem forward_never_learns (w : World) (input : Handle) (u randomAction : number) :
  let a := agent w in
  let a' := agent (snd (forward input u randomAction w)) in
  memory a' = memory a
  /\ currentReward a' = currentReward a
  /\ rewardsHistory a' = rewardsHistory a
  /\ lossesHistory a' = lossesHistory a
  /\ age (track a') = age (track a)
  /\ learning (track a') = learning (track a)
  /\ done a' = done a
  /\ model a' = model a
  /\ netInputWindowSize a' = netInputWindowSize a
  /\ pendingFits (snd (forward input u randomAction w)) = pendingFits w.
Proof.
  intros a a'. subst a a'.
  destruct (forward_agent input u randomAction w) as (Hp & _ & Ha).
  destruct (forward_ready_agent w) as [eps (Er & _)].
  destruct (fst (forward input u randomAction w)) as [action | e].
  - destruct Ha as [netInput ->]. rewrite Er. cbn. repeat split; auto.
  - rewrite Ha, Er. cbn. repeat split; auto.
Qed.

(** ** What [backward] leaves alone *)

Lemma replay_acting : Keeps (Unchanged the_acting) replay.
Proof.
  unfold replay, Memory_sample_call, replay_concat, Model_fit, setReward,
    Tensor_concat, alloc, emit.
  unchanged the_acting
    by (apply Unchanged_weaken with (proj := the_agent_and_fits)
          (g := fun r => match r with
                         | (a, _, ur) =>
                             (actionsBuffer a, statesBuffer a, inputsBuffer a,
                              (forwardPasses (track a), learning (track a)),
                              config a,
                              (done a, model a, netInputWindowSize a),
                              (lossesHistory a, ur))
                         end);
        apply createInOutFromMemento_agent_and_fits).
Qed.

Lemma backward_acting (w : World) : the_acting (snd (backward w)) = the_acting w.
Proof.
  rewrite backward_cases.
  destruct (backward_stores (agent w)); [| reflexivity].
  destruct (backward_replays (agent w)); [| reflexivity].
  exact (replay_acting (backward_remembered w)).
Qed.

(** X2. [backward] never acts: whether it returns or throws, it leaves the
    three buffers, [forwardPasses], [learning], the configuration (epsilon
    included), [done], the estimator, [netInputWindowSize] and the loss window
    as they were. *)
Theorem backward_never_acts (w : World) :
  let a := agent w in
  let a' := agent (snd (backward w)) in
  actionsBuffer a' = actionsBuffer a
  /\ statesBuffer a' = statesBuffer a
  /\ inputsBuffer a' = inputsBuffer a
  /\ forwardPasses (track a') = forwardPasses (track a)
  /\ learning (track a') = learning (track a)
  /\ config a' = config a
  /\ done a' = done a
  /\ model a' = model a
  /\ netInputWindowSize a' = netInputWindowSize a
  /\ lossesHistory a' = lossesHistory a.
Proof.
  intros a a'. subst a a'.
  assert (E := backward_acting w). unfold the_acting in E.
  injection E as E1 E2 E3 E4 E5 E6 E7 E8 E9 E10 E11.
  repeat split; assumption.
Qed.

(** ** The tensor [forward] records *)

Lemma bind_returns {A B : Type} (m : M A) (k : A -> M B) (w : World) (b : B) :
  fst (bind m k w) = Normal b ->
  exists a w1, m w = (Normal a, w1) /\ bind m k w = k a w1.
Proof.
  unfold bind. destruct (m w) as [[a | e] w1]; cbn; [| discriminate].
  intros _. exists a, w1. split; reflexivity.
Qed.

Lemma Tensor_concat_returns (a b : option Handle) (axis : nat) (w w' : World) (h : Handle) :
  Tensor_concat a b axis w = (Normal h, w') ->
  h = length (heap w) /\ exists t, w' = set_heap (heap w ++ [t]) w.
Proof.
  unfold Tensor_concat, bind, deref, alloc, throw.
  destruct a as [a |]; destruct b as [b |]; try discriminate.
  destruct (nth_error (heap w) a) as [ta |]; [| discriminate].
  destruct (nth_error (heap w) b) as [tb |]; [| discriminate].
  destruct (concat_values ta tb axis) as [t |]; [| discriminate].
  intro E. injection E as <- <-. split; [reflexivity | now exists t].
Qed.

Lemma createNeuralNetInput_loop_handle (n : nat) :
  forall (i : Z) (f : Handle) (w : World) (h : Handle),
    (f < length (heap w))%nat ->
    fst (createNeuralNetInput_loop n i f w) = Normal h ->
    (f <= h < length (heap (snd (createNeuralNetInput_loop n i f w))))%nat.
Proof.
  induction n as [| n IH]; intros i f w h Hf Hret.
  - cbn in *. injection Hret as <-. lia.
  - cbn [createNeuralNetInput_loop] in *.
    unfold bind at 1 in Hret. unfold bind at 1. unfold gets at 1 in Hret.
    unfold gets at 1. cbn match in *.
    destruct (bind_returns _ _ _ Hret) as (h1 & w1 & E1 & R1).
    rewrite R1 in *. clear R1.
    destruct (Tensor_concat_returns _ _ _ _ E1) as (-> & t1 & ->).
    destruct (bind_returns _ _ _ Hret) as (h2 & w2 & E2 & R2).
    rewrite R2 in *. clear R2.
    unfold tensor, alloc in E2. injection E2 as <- <-.
    destruct (bind_returns _ _ _ Hret) as (h3 & w3 & E3 & R3).
    rewrite R3 in *. clear R3.
    destruct (Tensor_concat_returns _ _ _ _ E3) as (-> & t3 & ->).
    cbn [heap set_heap] in *.
    apply IH in Hret.
    2: { cbn [heap set_heap]. rewrite !length_app. cbn [length]. lia. }
    destruct Hret as [Hlow Hhigh]. split; [| exact Hhigh].
    rewrite !length_app in Hlow. cbn [length] in Hlow. lia.
Qed.

Lemma createNeuralNetInput_handle (input : Handle) (w : World) (h : Handle) :
  fst (createNeuralNetInput input w) = Normal h ->
  (length (heap w) <= h < length (heap (snd (createNeuralNetInput input w))))%nat.
Proof.
  unfold createNeuralNetInput. intro Hret.
  destruct (bind_returns _ _ _ Hret) as (h0 & w0 & E0 & R0).
  rewrite R0 in *. clear R0.
  unfold Tensor_clone, bind, deref, alloc in E0.
  destruct (nth_error (heap w) input) as [t |]; [| discriminate].
  injection E0 as <- <-.
  unfold bind at 1 in Hret. unfold bind at 1. unfold gets at 1 in Hret.
  unfold gets at 1. cbn match in *.
  apply createNeuralNetInput_loop_handle in Hret;
    [| cbn [heap set_heap]; rewrite length_app; cbn [length]; lia].
  destruct Hret as [Hlow Hhigh]. split; [| exact Hhigh].
  cbn [heap set_heap] in Hlow. lia.
Qed.

Lemma forward_choose_handle (this : Agent) (input : Handle) (u randomAction : number)
    (w : World) (action : number) (netInput : Handle) :
  fst (forward_choose this input u randomAction w) = Normal (action, netInput) ->
  (length (heap w) <= netInput
   < length (heap (snd (forward_choose this input u randomAction w))))%nat.
Proof.
  unfold forward_choose.
  destruct (temporalWindow (config this) <? forwardPasses (track this))%Z.
  - intro Hret.
    destruct (bind_returns _ _ _ Hret) as (h & w1 & E1 & R1).
    rewrite R1 in *. clear R1.
    assert (B := @createNeuralNetInput_handle input w h ltac:(now rewrite E1)).
    rewrite E1 in B. cbn [snd] in B.
    revert Hret.
    unfold lodash_random, Model_randomOutput, policy, Model_predict, bind, emit, modify,
      gets, deref, ret. cbn.
    destruct (Qltb u _); cbn.
    + intro E. injection E as _ <-. exact B.
    + destruct (nth_error (heap w1) h); cbn; [| discriminate].
      intro E. injection E as _ <-. exact B.
  - cbn. intro E. injection E as _ <-. rewrite length_app. cbn. lia.
Qed.

(** X3. A [forward] that returns has pushed onto the three buffers the action
    it returns, the caller's own observation, and a tensor that it made
    itself; a [forward] that throws has pushed nothing. Either way the pass
    is counted. *)
Theorem forward_pushes (w : World) (input : Handle) (u randomAction : number) :
  let a := agent w in
  let w' := snd (forward input u randomAction w) in
  forwardPasses (track (agent w')) = (forwardPasses (track a) + 1)%Z
  /\ match fst (forward input u randomAction w) with
     | Normal action =>
         actionsBuffer (agent w') = shift_push (actionsBuffer a) action
         /\ statesBuffer (agent w') = shift_push (statesBuffer a) input
         /\ exists netInput,
              inputsBuffer (agent w') = shift_push (inputsBuffer a) netInput
              /\ (length (heap w) <= netInput < length (heap w'))%nat
     | Throw _ =>
         actionsBuffer (agent w') = actionsBuffer a
         /\ statesBuffer (agent w') = statesBuffer a
         /\ inputsBuffer (agent w') = inputsBuffer a
     end.
Proof.
  intros a w'. subst a w'. rewrite forward_by_choice.
  assert (K := forward_choose_agent_and_fits (agent (forward_ready w)) input u randomAction
                 (forward_ready w)).
  assert (Hh := @forward_choose_handle (agent (forward_ready w)) input u randomAction
                  (forward_ready w)).
  unfold Unchanged, the_agent_and_fits in K.
  destruct (forward_ready_agent w) as [eps (Er & Eh & _)].
  destruct (forward_choose _ _ _ _ _) as [[[action netInput] | e] w3]; cbn in *;
    injection K as Ka _ _; rewrite Ka, Er; cbn.
  - split; [reflexivity |]. split; [reflexivity |]. split; [reflexivity |].
    exists netInput. split; [reflexivity |]. rewrite <- Eh. exact (Hh action netInput eq_refl).
  - repeat split; reflexivity.
Qed.

(** ** The counters and the size of the buffers over a run *)

Lemma settleFit_agent_but_losses i outcome (w : World) :
  track (agent (settleFit i outcome w)) = track (agent w)
  /\ actionsBuffer (agent (settleFit i outcome w)) = actionsBuffer (agent w)
  /\ statesBuffer (agent (settleFit i outcome w)) = statesBuffer (agent w)
  /\ inputsBuffer (agent (settleFit i outcome w)) = inputsBuffer (agent w)
  /\ netInputWindowSize (agent (settleFit i outcome w)) = netInputWindowSize (agent w)
  /\ heap (settleFit i outcome w) = heap w.
Proof.
  unfold settleFit. destruct (nth_error (pendingFits w) i); [| repeat split].
  destruct outcome; repeat split.
Qed.

Lemma forward_track (input : Handle) (u randomAction : number) (w : World) :
  track (agent (snd (forward input u randomAction w))) =
  set_forwardPasses (forwardPasses (track (agent w)) + 1)%Z (track (agent w)).
Proof.
  destruct (forward_agent input u randomAction w) as (_ & _ & Ha).
  destruct (forward_ready_agent w) as [eps (Er & _)].
  destruct (fst (forward input u randomAction w)) as [action | e].
  - destruct Ha as [netInput ->]. rewrite Er. reflexivity.
  - rewrite Ha, Er. reflexivity.
Qed.

Lemma step_counters (c : Call) (w : World) :
  forwardPasses (track (agent (step c w))) =
    (forwardPasses (track (agent w)) + if is_forward c then 1 else 0)%Z
  /\ age (track (agent (step c w))) =
     (age (track (agent w)) + if is_backward c then 1 else 0)%Z.
Proof.
  destruct c as [input u r | | v | v | memento | t | m | i outcome]; cbn [step is_forward is_backward].
  - rewrite forward_track. cbn. split; [reflexivity | lia].
  - destruct (backward_records w) as [_ Hage].
    assert (E := backward_acting w). unfold the_acting in E.
    injection E as _ _ _ Hfp _ _ _ _ _ _ _.
    split; [rewrite Hfp; lia | exact Hage].
  - cbn. split; lia.
  - cbn. split; lia.
  - assert (E := createInOutFromMemento_agent memento w).
    unfold Unchanged, the_agent in E. rewrite E. split; lia.
  - cbn. split; lia.
  - cbn. split; lia.
  - destruct (settleFit_agent_but_losses i outcome w) as (-> & _). split; lia.
Qed.

(** X4. Over any run, [forwardPasses] has grown by the number of [forward]
    calls and [age] by the number of [backward] calls, the calls that threw
    included: the counters are never reset and no call goes uncounted. *)
Theorem counters_count_calls (calls : list Call) (w : World) :
  forwardPasses (track (agent (run calls w))) =
    (forwardPasses (track (agent w)) + Z.of_nat (length (filter is_forward calls)))%Z
  /\ age (track (agent (run calls w))) =
     (age (track (agent w)) + Z.of_nat (length (filter is_backward calls)))%Z.
Proof.
  revert w. induction calls as [| c calls IH]; intro w.
  - cbn. split; lia.
  - cbn [run fold_left].
    change (fold_left _ calls (step c w)) with (run calls (step c w)).
    destruct (IH (step c w)) as [-> ->].
    destruct (step_counters c w) as [-> ->].
    cbn [filter]. destruct (is_forward c), (is_backward c); cbn [length]; split; lia.
Qed.

Lemma shift_push_length {X : Type} (a : list (option X)) (x : X) :
  a <> [] -> length (shift_push a x) = length a.
Proof.
  intro Ha. unfold shift_push. destruct a as [| h t]; [contradiction |].
  cbn. rewrite length_app. cbn. lia.
Qed.

Lemma boot_Sized (estimator : Model) (settings : AgentConfig) (store : option Memory)
    (tensors : list Tensor) :
  Sized (boot estimator settings store tensors).
Proof.
  unfold Sized, boot, Agent_new, new_Array. cbn.
  rewrite !repeat_length. repeat split.
Qed.

Lemma step_Sized (c : Call) (w : World) : Sized w -> Sized (step c w).
Proof.
  intros (Hn & Ha & Hs & Hi).
  assert (Hpos : (0 < Z.to_nat (netInputWindowSize (agent w)))%nat).
  { rewrite Hn. unfold MEM_WINDOW_MIN_SIZE. lia. }
  assert (Hne : forall X (b : list (option X)),
             length b = Z.to_nat (netInputWindowSize (agent w)) -> b <> []).
  { intros X [| h t] Hb; [cbn in Hb; lia | discriminate]. }
  destruct c as [input u r | | v | v | memento | t | m | i outcome]; cbn [step].
  - destruct (forward_agent input u r w) as (_ & _ & Hf).
    destruct (forward_ready_agent w) as [eps (Er & _)].
    unfold Sized.
    destruct (fst (forward input u r w)) as [action | e].
    + destruct Hf as [netInput ->]. rewrite Er. cbn.
      rewrite !shift_push_length by (apply Hne; assumption). auto.
    + rewrite Hf, Er. cbn. auto.
  - assert (E := backward_acting w). unfold the_acting in E.
    injection E as Ea Es Ei _ _ Ec _ _ En _ _.
    unfold Sized. rewrite Ea, Es, Ei, Ec, En. auto.
  - unfold Sized. cbn. auto.
  - unfold Sized. cbn. auto.
  - assert (E := createInOutFromMemento_agent memento w).
    unfold Unchanged, the_agent in E. unfold Sized. rewrite E. auto.
  - unfold Sized. cbn. auto.
  - unfold Sized. cbn. auto.
  - unfold Sized.
    destruct (settleFit_agent_but_losses i outcome w) as (_ & -> & -> & -> & -> & _).
    rewrite (settleFit_config i outcome w). auto.
Qed.

(** X5. In every world a run reaches from a new agent, each of the three
    buffers has exactly [netInputWindowSize = max(temporalWindow, 2)] slots. *)
Theorem buffers_keep_their_size (estimator : Model) (settings : AgentConfig)
    (store : option Memory) (tensors : list Tensor) (calls : list Call) :
  let a := agent (run calls (boot estimator settings store tensors)) in
  netInputWindowSize a = Z.max (temporalWindow settings) 2
  /\ length (actionsBuffer a) = Z.to_nat (Z.max (temporalWindow settings) 2)
  /\ length (statesBuffer a) = Z.to_nat (Z.max (temporalWindow settings) 2)
  /\ length (inputsBuffer a) = Z.to_nat (Z.max (temporalWindow settings) 2).
Proof.
  intro a. subst a.
  assert (H : forall w : World, Sized w -> Sized (run calls w)).
  { induction calls as [| c calls IH]; intros w Hw; [exact Hw |].
    cbn [run fold_left]. apply IH, step_Sized, Hw. }
  destruct (H _ (boot_Sized estimator settings store tensors)) as (Hn & Ha & Hs & Hi).
  assert (Hw : netInputWindowSize
                 (agent (run calls (boot estimator settings store tensors))) =
               Z.max (temporalWindow settings) 2).
  { assert (E := run_settings calls (boot estimator settings store tensors)).
    unfold the_settings in E.
    rewrite Hn. f_equal.
    exact (f_equal (fun c => temporalWindow c) E). }
  rewrite Ha, Hs, Hi, Hw. auto.
Qed.

(** ** [forward] after the warm-up *)

Lemma createNeuralNetInput_returns (w : World) (input : Handle) (t : Tensor) :
  spec_encodedInput w input = Some t ->
  exists h w1,
    createNeuralNetInput input w = (Normal h, w1)
    /\ nth_error (heap w1) h = Some t
    /\ (length (heap w) <= h)%nat
    /\ HeapGrows w w1
    /\ agent w1 = agent w
    /\ trace w1 = trace w.
Proof.
  intro Hspec.
  assert (Hgrow := createNeuralNetInput_HeapGrows input w).
  assert (Htrace := createNeuralNetInput_trace input w).
  assert (Hag := createNeuralNetInput_agent input w).
  unfold Unchanged, the_trace, the_agent in *.
  assert (Hmain : exists h,
            fst (createNeuralNetInput input w) = Normal h /\
            nth_error (heap (snd (createNeuralNetInput input w))) h = Some t /\
            (length (heap w) <= h)%nat).
  { clear Hgrow Htrace Hag. unfold spec_encodedInput in Hspec.
    destruct (nth_error (heap w) input) as [observation |] eqn:Hobs; [| discriminate].
    set (w0 := set_heap (heap w ++ [observation]) w).
    assert (E0 : Tensor_clone input w = (Normal (length (heap w)), w0)).
    { unfold Tensor_clone, bind, deref. rewrite Hobs. reflexivity. }
    assert (Erun : createNeuralNetInput input w =
                   createNeuralNetInput_loop (Z.to_nat (temporalWindow (config (agent w))))
                     (Z.of_nat 0) (length (heap w)) w0).
    { unfold createNeuralNetInput. rewrite (bind_Normal _ _ _ E0). reflexivity. }
    rewrite Erun.
    destruct (Z.to_nat (temporalWindow (config (agent w)))) as [| n] eqn:Hn.
    - injection Hspec as <-. exists (length (heap w)). simpl.
      split; [reflexivity | split; [apply lookup_last | lia]].
    - destruct observation as [v | [| r [| r' rows]]]; try discriminate.
      destruct (all_defined (map (spec_frame w) (seq 0 (S n)))) as [frames |] eqn:Hall;
        [| discriminate].
      injection Hspec as <-.
      destruct (@createNeuralNetInput_loop_run w (S n) 0%nat (length (heap w)) w0 r frames)
        as [h (Eh & Hh & Hle)].
      + exists [Rank2 [r]]. reflexivity.
      + reflexivity.
      + apply lookup_last.
      + exact Hall.
      + exists h. auto. }
  destruct Hmain as [h (Eh & Hh & Hle)].
  exists h, (snd (createNeuralNetInput input w)).
  split; [| auto 6].
  destruct (createNeuralNetInput input w) as [c w1]; cbn in *. now subst.
Qed.

Lemma forward_choose_encoded (this : Agent) (input : Handle) (u randomAction : number)
    (w : World) (t : Tensor) :
  (temporalWindow (config this) <? forwardPasses (track this))%Z = true ->
  spec_encodedInput w input = Some t ->
  exists h w',
    forward_choose this input u randomAction w =
      (Normal (if Qltb u (the_epsilon w) then randomAction
               else getHighestValue (predict (model (agent w)) t), h), w')
    /\ nth_error (heap w') h = Some t
    /\ (length (heap w) <= h)%nat
    /\ HeapGrows w w'
    /\ agent w' = agent w
    /\ trace w' = trace w ++ [EvRandom u;
                              if Qltb u (the_epsilon w) then EvRandomOutput randomAction
                              else EvPredict h].
Proof.
  intros Hpast Hspec.
  destruct (createNeuralNetInput_returns _ _ Hspec)
    as (h & w1 & E1 & Hh & Hle & Hgrow & Hag & Htr).
  exists h. unfold forward_choose. rewrite Hpast, (bind_Normal _ _ _ E1).
  unfold lodash_random, Model_randomOutput, policy, Model_predict, bind, emit, modify,
    gets, deref, ret, the_epsilon. cbn. rewrite Hag.
  destruct (Qltb u _); cbn.
  - eexists. split; [reflexivity |]. cbn. rewrite Htr, <- app_assoc. auto 6.
  - rewrite Hh. cbn. rewrite Hag. eexists. split; [reflexivity |]. cbn.
    rewrite Htr, <- app_assoc. auto 6.
Qed.

Lemma spec_encodedInput_ready (w : World) (input : Handle) :
  spec_encodedInput (forward_ready w) input = spec_encodedInput w input.
Proof.
  destruct (forward_ready_agent w) as [eps (Ea & Eh & _)].
  unfold spec_encodedInput, spec_frame. rewrite Eh, Ea. reflexivity.
Qed.

(** X6. After the warm-up, where the encoded input [t] is defined,
    [forward] draws one random number and compares it with epsilon as the
    decay step of the same call left it. Below epsilon, it returns what
    [randomOutput()] answers and asks no prediction; otherwise it asks one
    prediction, on the encoded input, and returns its highest value. Either
    way the encoded input is what it pushes onto the inputs buffer. *)
Theorem epsilon_greedy_choice (w : World) (input : Handle) (u randomAction : number)
    (t : Tensor) :
  (temporalWindow (config (agent w)) < forwardPasses (track (agent w)) + 1)%Z ->
  spec_encodedInput w input = Some t ->
  let w' := snd (forward input u randomAction w) in
  exists netInput,
    nth_error (heap w') netInput = Some t
    /\ inputsBuffer (agent w') = shift_push (inputsBuffer (agent w)) netInput
    /\ if Qltb u (the_epsilon w')
       then fst (forward input u randomAction w) = Normal randomAction
            /\ trace w' = trace w ++ [EvRandom u; EvRandomOutput randomAction]
       else fst (forward input u randomAction w)
              = Normal (getHighestValue (predict (model (agent w)) t))
            /\ trace w' = trace w ++ [EvRandom u; EvPredict netInput].
Proof.
  intros Hpast Hspec w'. subst w'. rewrite forward_by_choice.
  destruct (forward_ready_agent w) as [eps (Ea & Eh & Et & _)].
  assert (Hm : model (agent (forward_ready w)) = model (agent w))
    by (rewrite Ea; reflexivity).
  assert (Hi : inputsBuffer (agent (forward_ready w)) = inputsBuffer (agent w))
    by (rewrite Ea; reflexivity).
  destruct (@forward_choose_encoded (agent (forward_ready w)) input u randomAction
              (forward_ready w) t) as (h & w2 & E & Hh & _ & _ & Hag & Htr).
  - rewrite Ea. cbn. apply Z.ltb_lt. exact Hpast.
  - rewrite spec_encodedInput_ready. exact Hspec.
  - rewrite E. cbn. exists h. split; [exact Hh |].
    split; [rewrite Hag, Hi; reflexivity |].
    unfold the_epsilon in *. cbn. rewrite Hag, Htr, Et, Hm.
    destruct (Qltb u _); split; reflexivity.
Qed.

(** ** Runs whose observations are tensors of one row *)

Lemma all_defined_map {X Y : Type} (f : X -> option Y) (l : list X) :
  (forall x, In x l -> exists y, f x = Some y) ->
  exists ys, all_defined (map f l) = Some ys.
Proof.
  induction l as [| x l IH]; intro H.
  - now exists [].
  - destruct (H x (or_introl eq_refl)) as [y Ey].
    destruct IH as [ys Eys]; [intros x' Hx'; apply H; now right |].
    exists (y :: ys). cbn. now rewrite Ey, Eys.
Qed.

Lemma trailing_none {X : Type} (P : X -> Prop) (buf : list (option X)) :
  trailing P 0 buf.
Proof. intros i Hi. lia. Qed.

Lemma trailing_weaken {X : Type} (P Q : X -> Prop) (k k' : nat) (buf : list (option X)) :
  (forall x, P x -> Q x) -> (k' <= k)%nat -> trailing P k buf -> trailing Q k' buf.
Proof.
  intros HPQ Hk H i Hi.
  destruct (H i ltac:(lia)) as [x [Ex Px]]. exists x. auto.
Qed.

Lemma trailing_shift_push {X : Type} (P : X -> Prop) (k k' : nat) (buf : list (option X))
    (x : X) :
  buf <> [] -> (k' <= S k)%nat -> trailing P k buf -> P x ->
  trailing P k' (shift_push buf x).
Proof.
  intros Hne Hk H Px i Hi.
  rewrite shift_push_length in Hi by exact Hne.
  unfold shift_push. destruct buf as [| b buf]; [contradiction |].
  cbn [tl length] in *.
  destruct (Nat.eq_dec i (length buf)) as [-> | Hlt].
  - exists x. split; [| exact Px].
    rewrite nth_error_app2 by lia. now rewrite Nat.sub_diag.
  - rewrite nth_error_app1 by lia.
    destruct (H (S i)) as [y [Ey Py]]; [cbn [length]; lia |]. exists y. auto.
Qed.

Lemma trailing_get {X : Type} (P : X -> Prop) (k : nat) (buf : list (option X)) (n i : Z) :
  length buf = Z.to_nat n -> (0 <= i < n)%Z -> (n - Z.of_nat k <= i)%Z ->
  trailing P k buf ->
  exists x, array_get buf i = Some x /\ P x.
Proof.
  intros Hlen Hi Hk H. unfold array_get.
  destruct (Z.ltb_spec i 0); [lia |].
  destruct (H (Z.to_nat i) ltac:(lia)) as [x [Ex Px]].
  rewrite Ex. now exists x.
Qed.

Lemma one_row_grows (w w' : World) (h : Handle) :
  HeapGrows w w' -> one_row (heap w) h -> one_row (heap w') h.
Proof.
  intros Hg [r Hr]. exists r. eapply HeapGrows_lookup; eassumption.
Qed.

(** With enough states of one row in the buffer, the encoded input of an
    observation of one row is defined, and has one row. *)
Lemma encoded_defined (w : World) (input : Handle) (k : nat) :
  length (statesBuffer (agent w)) = Z.to_nat (netInputWindowSize (agent w)) ->
  (temporalWindow (config (agent w)) <= netInputWindowSize (agent w))%Z ->
  trailing (one_row (heap w)) k (statesBuffer (agent w)) ->
  (Z.to_nat (temporalWindow (config (agent w))) <= k)%nat ->
  one_row (heap w) input ->
  exists r, spec_encodedInput w input = Some (Rank2 [r]).
Proof.
  intros Hlen Hn Htr Hk [r0 Hin].
  unfold spec_encodedInput. rewrite Hin.
  destruct (Z.to_nat (temporalWindow (config (agent w)))) as [| s] eqn:Hs.
  - now exists r0.
  - destruct (@all_defined_map _ _ (spec_frame w) (seq 0 (S s))) as [frames Hf].
    + intros i Hi. apply in_seq in Hi. unfold spec_frame.
      destruct (@trailing_get _ (one_row (heap w)) k (statesBuffer (agent w))
                  (netInputWindowSize (agent w))
                  (netInputWindowSize (agent w) - 1 - Z.of_nat i))
        as [h [Eg [r Hr]]]; try assumption; try lia.
      rewrite Eg. unfold stored_row. rewrite Hr. eexists; reflexivity.
    + rewrite Hf. eexists; reflexivity.
Qed.

Lemma Settled_carries (w w' : World) :
  actionsBuffer (agent w') = actionsBuffer (agent w) ->
  statesBuffer (agent w') = statesBuffer (agent w) ->
  inputsBuffer (agent w') = inputsBuffer (agent w) ->
  forwardPasses (track (agent w')) = forwardPasses (track (agent w)) ->
  temporalWindow (config (agent w')) = temporalWindow (config (agent w)) ->
  netInputWindowSize (agent w') = netInputWindowSize (agent w) ->
  HeapGrows w w' ->
  Settled w -> Settled w'.
Proof.
  intros Ea Es Ei Ef Ec En Hg (Hn & Hfp & La & Ls & Li & Ta & Ts & Ti).
  unfold Settled. rewrite Ea, Es, Ei, Ef, Ec, En.
  repeat split; try assumption.
  - revert Ts. apply trailing_weaken; [intro; apply one_row_grows, Hg | lia].
  - revert Ti. apply trailing_weaken; [intro; apply one_row_grows, Hg | lia].
Qed.

(** The three pushes of [forward], made in a world [w2] that the one
    [forward] was called in has grown into. *)
Lemma push_Settled (w w2 : World) (eps action : number) (input netInput : Handle) :
  Settled w ->
  agent w2 = set_config (set_epsilon eps (config (agent w)))
               (set_track (set_forwardPasses (forwardPasses (track (agent w)) + 1)%Z
                             (track (agent w))) (agent w)) ->
  HeapGrows w w2 ->
  one_row (heap w) input ->
  ((temporalWindow (config (agent w)) < forwardPasses (track (agent w)) + 1)%Z ->
   one_row (heap w2) netInput) ->
  Settled (set_agent (set_buffers (shift_push (actionsBuffer (agent w2)) action)
                                  (shift_push (statesBuffer (agent w2)) input)
                                  (shift_push (inputsBuffer (agent w2)) netInput)
                                  (agent w2)) w2).
Proof.
  intros (Hn & Hfp & La & Ls & Li & Ta & Ts & Ti) Ea Hg Hin Hnet.
  assert (Hpos : (0 < Z.to_nat (netInputWindowSize (agent w)))%nat).
  { rewrite Hn. unfold MEM_WINDOW_MIN_SIZE. lia. }
  assert (Hne : forall X (b : list (option X)),
             length b = Z.to_nat (netInputWindowSize (agent w)) -> b <> []).
  { intros X [| h t] Hb; [cbn in Hb; lia | discriminate]. }
  unfold Settled. cbn. rewrite Ea. cbn.
  rewrite !shift_push_length by (apply Hne; assumption).
  split; [exact Hn |]. split; [lia |].
  split; [exact La |]. split; [exact Ls |]. split; [exact Li |].
  split; [| split].
  - apply trailing_shift_push
      with (k := Nat.min (Z.to_nat (forwardPasses (track (agent w))))
                   (Z.to_nat (netInputWindowSize (agent w))));
      [apply Hne; assumption | lia | exact Ta | exact I].
  - apply trailing_shift_push
      with (k := Nat.min (Z.to_nat (forwardPasses (track (agent w))))
                   (Z.to_nat (netInputWindowSize (agent w))));
      [apply Hne; assumption | lia | | apply (one_row_grows Hg), Hin].
    revert Ts. apply trailing_weaken; [intro; apply one_row_grows, Hg | lia].
  - destruct (Z.ltb_spec (temporalWindow (config (agent w)))
                (forwardPasses (track (agent w)) + 1)) as [Hpast | Hwarm].
    + apply trailing_shift_push
        with (k := Nat.min (Z.to_nat (forwardPasses (track (agent w)))
                            - Z.to_nat (temporalWindow (config (agent w))))
                     (Z.to_nat (netInputWindowSize (agent w))));
        [apply Hne; assumption | lia | | apply Hnet, Hpast].
      revert Ti. apply trailing_weaken; [intro; apply one_row_grows, Hg | lia].
    + replace (Nat.min _ _) with 0%nat by lia. apply trailing_none.
Qed.

(** Given an observation of one row, [forward] returns. *)
Lemma forward_Settled (w : World) (input : Handle) (u randomAction : number) :
  Settled w -> one_row (heap w) input ->
  (exists action, fst (forward input u randomAction w) = Normal action)
  /\ Settled (snd (forward input u randomAction w))
  /\ HeapGrows w (snd (forward input u randomAction w)).
Proof.
  intros HS Hin. rewrite forward_by_choice.
  destruct (forward_ready_agent w) as [eps (Ea & Eh & _)].
  assert (Hg0 : HeapGrows w (forward_ready w))
    by (exists []; rewrite Eh; now rewrite app_nil_r).
  destruct (temporalWindow (config (agent (forward_ready w)))
            <? forwardPasses (track (agent (forward_ready w))))%Z eqn:Hcase.
  - destruct HS as (Hn & Hfp & La & Ls & Li & Ta & Ts & Ti).
    assert (Hpast : (temporalWindow (config (agent w))
                     < forwardPasses (track (agent w)) + 1)%Z).
    { rewrite Ea in Hcase. cbn in Hcase. apply Z.ltb_lt. exact Hcase. }
    destruct (@encoded_defined (forward_ready w) input
                (Nat.min (Z.to_nat (forwardPasses (track (agent w))))
                   (Z.to_nat (netInputWindowSize (agent w))))) as [r Hr].
    + rewrite Ea. cbn. exact Ls.
    + rewrite Ea. cbn. rewrite Hn. lia.
    + rewrite Ea, Eh. cbn. exact Ts.
    + rewrite Ea. cbn. rewrite Hn. unfold MEM_WINDOW_MIN_SIZE. lia.
    + rewrite Eh. exact Hin.
    + destruct (@forward_choose_encoded (agent (forward_ready w)) input u randomAction
                  (forward_ready w) (Rank2 [r]) Hcase Hr)
        as (h & w2 & E & Hh & _ & Hg & Hag & _).
      rewrite E. cbn [fst snd].
      split; [eexists; reflexivity |].
      assert (Hg2 : HeapGrows w w2) by (eapply HeapGrows_trans; eassumption).
      split.
      * apply push_Settled with (w := w) (eps := eps);
          [repeat split; assumption | congruence | exact Hg2 | exact Hin |].
        intros _. now exists r.
      * destruct Hg2 as [extra Hextra]. exists extra. exact Hextra.
  - assert (Hwarm : (forwardPasses (track (agent w)) + 1
                     <= temporalWindow (config (agent w)))%Z).
    { rewrite Ea in Hcase. cbn in Hcase. apply Z.ltb_ge. exact Hcase. }
    unfold forward_choose. rewrite Hcase.
    unfold Model_randomOutput, tensor, alloc, bind, emit, modify, ret. cbn [fst snd].
    split; [eexists; reflexivity |].
    assert (Hg2 : HeapGrows w
              (set_heap (heap (forward_ready w) ++ [Rank1 []])
                 (set_trace (trace (forward_ready w) ++ [EvRandomOutput randomAction])
                    (forward_ready w)))).
    { exists [Rank1 []]. cbn. now rewrite Eh. }
    split.
    + apply (@push_Settled w _ eps randomAction input _ HS);
        [cbn; exact Ea | exact Hg2 | exact Hin | lia].
    + destruct Hg2 as [extra Hextra]. exists extra. exact Hextra.
Qed.

Lemma createInOutFromMemento_HeapGrows memento :
  Keeps HeapGrows (createInOutFromMemento memento).
Proof.
  unfold createInOutFromMemento, createInOutFromMemento_target, tensor2d.
  keeping HeapGrows_refl HeapGrows_trans
    by (first [apply Model_predict_HeapGrows | apply alloc_HeapGrows]).
Qed.

Lemma modify_HeapGrows (f : World -> World) :
  (forall w, heap (f w) = heap w) -> Keeps HeapGrows (modify f).
Proof. intros Hf w. exists []. cbn. now rewrite Hf, app_nil_r. Qed.

Lemma replay_HeapGrows : Keeps HeapGrows replay.
Proof.
  unfold replay, Memory_sample_call, replay_concat, Model_fit, setReward, assign, emit.
  keeping HeapGrows_refl HeapGrows_trans
    by (first [ apply createInOutFromMemento_HeapGrows
              | apply Tensor_concat_HeapGrows
              | apply modify_HeapGrows; intro; reflexivity ]).
Qed.

Lemma backward_HeapGrows (w : World) : HeapGrows w (snd (backward w)).
Proof.
  rewrite backward_cases.
  destruct (backward_stores (agent w));
    [| exists []; cbn; now rewrite app_nil_r].
  destruct (backward_replays (agent w));
    [| exists []; cbn; now rewrite app_nil_r].
  apply (@HeapGrows_trans w (backward_remembered w));
    [exists []; cbn; now rewrite app_nil_r |].
  apply replay_HeapGrows.
Qed.

Lemma boot_Settled (estimator : Model) (settings : AgentConfig) (store : option Memory)
    (tensors : list Tensor) :
  Settled (boot estimator settings store tensors).
Proof.
  unfold Settled, boot, Agent_new, new_Array. cbn.
  rewrite !repeat_length.
  repeat split; try lia; apply trailing_none.
Qed.

Lemma step_Settled (c : Call) (w : World) :
  Settled w ->
  match c with
  | CallForward input _ _ => one_row (heap w) input
  | _ => True
  end ->
  Settled (step c w) /\ HeapGrows w (step c w).
Proof.
  intros HS Hobs.
  destruct c as [input u r | | v | v | memento | t | m | i outcome]; cbn [step].
  - destruct (forward_Settled u r HS Hobs) as (_ & H1 & H2). now split.
  - assert (E := backward_acting w). unfold the_acting in E.
    injection E as Ea Es Ei Ef _ Ec _ _ En _ _.
    assert (Hg := backward_HeapGrows w).
    split; [| exact Hg].
    apply (@Settled_carries w); try assumption. now rewrite Ec.
  - assert (Hg : HeapGrows w (snd (addReward v w)))
      by (exists []; cbn; now rewrite app_nil_r).
    split; [| exact Hg].
    apply (@Settled_carries w); try reflexivity; assumption.
  - assert (Hg : HeapGrows w (snd (setReward v w)))
      by (exists []; cbn; now rewrite app_nil_r).
    split; [| exact Hg].
    apply (@Settled_carries w); try reflexivity; assumption.
  - assert (E := createInOutFromMemento_agent memento w).
    unfold Unchanged, the_agent in E.
    assert (Hg := createInOutFromMemento_HeapGrows memento w).
    split; [| exact Hg].
    apply (@Settled_carries w); try (rewrite E; reflexivity); assumption.
  - assert (Hg : HeapGrows w (snd (alloc t w))) by apply alloc_HeapGrows.
    split; [| exact Hg].
    apply (@Settled_carries w); try reflexivity; assumption.
  - assert (Hg : HeapGrows w (set_agent (set_model m (agent w)) w))
      by (exists []; cbn; now rewrite app_nil_r).
    split; [| exact Hg].
    apply (@Settled_carries w); try reflexivity; assumption.
  - destruct (settleFit_agent_but_losses i outcome w) as (Et & Ea & Es & Ei & En & Eh).
    assert (Hg : HeapGrows w (settleFit i outcome w))
      by (exists []; rewrite Eh; now rewrite app_nil_r).
    split; [| exact Hg].
    apply (@Settled_carries w); try assumption.
    + now rewrite Et.
    + now rewrite settleFit_config.
Qed.

Lemma run_Settled (calls : list Call) :
  forall w : World, Settled w -> observed calls w -> Settled (run calls w).
Proof.
  induction calls as [| c calls IH]; intros w HS Hobs; [exact HS |].
  cbn [run fold_left]. destruct Hobs as [Hc Hrest].
  apply IH; [| exact Hrest].
  apply step_Settled; assumption.
Qed.

(** X7. In a run from a new agent in which every [forward] was given an
    observation that is a tensor of one row, a further [forward] given such
    an observation returns an action: the history it reads is there, and
    none of its tensor operations fails. *)
Theorem forward_returns_in_runs (estimator : Model) (settings : AgentConfig)
    (store : option Memory) (tensors : list Tensor) (calls : list Call)
    (input : Handle) (u randomAction : number) :
  let w := run calls (boot estimator settings store tensors) in
  observed calls (boot estimator settings store tensors) ->
  one_row (heap w) input ->
  exists action, fst (forward input u randomAction w) = Normal action.
Proof.
  intros w Hobs Hin.
  assert (HS : Settled w) by (apply run_Settled; [apply boot_Settled | exact Hobs]).
  destruct (forward_Settled u randomAction HS Hin) as (H & _). exact H.
Qed.

(** ** What [backward] hands to the store *)

Lemma backward_memento_whole (w : World) :
  Settled w ->
  (0 <= temporalWindow (config (agent w)))%Z ->
  backward_stores (agent w) = true ->
  whole (heap w) (backward_memento (agent w)).
Proof.
  intros (Hn & Hfp & La & Ls & Li & Ta & Ts & Ti) Htw Hst.
  apply backward_stores_iff in Hst. destruct Hst as [_ Hpast].
  unfold MEM_WINDOW_MIN_SIZE in Hn.
  unfold whole, backward_memento, MEM_WINDOW_MIN_SIZE. cbn.
  split; [| split].
  - destruct (@trailing_get _ (fun _ => True)
                (Nat.min (Z.to_nat (forwardPasses (track (agent w))))
                   (Z.to_nat (netInputWindowSize (agent w))))
                (actionsBuffer (agent w)) (netInputWindowSize (agent w))
                (netInputWindowSize (agent w) - 2)) as [a [Ea _]];
      [exact La | lia | lia | exact Ta |].
    now exists a.
  - destruct (@trailing_get _ (one_row (heap w))
                (Nat.min (Z.to_nat (forwardPasses (track (agent w)))
                          - Z.to_nat (temporalWindow (config (agent w))))
                   (Z.to_nat (netInputWindowSize (agent w))))
                (inputsBuffer (agent w)) (netInputWindowSize (agent w))
                (netInputWindowSize (agent w) - 2)) as [s [Es Hs]];
      [exact Li | lia | lia | exact Ti |].
    now exists s.
  - destruct (@trailing_get _ (one_row (heap w))
                (Nat.min (Z.to_nat (forwardPasses (track (agent w)))
                          - Z.to_nat (temporalWindow (config (agent w))))
                   (Z.to_nat (netInputWindowSize (agent w))))
                (inputsBuffer (agent w)) (netInputWindowSize (agent w))
                (netInputWindowSize (agent w) - 1)) as [s [Es Hs]];
      [exact Li | lia | lia | exact Ti |].
    now exists s.
Qed.

Lemma whole_grows (w w' : World) (m : Memento) :
  HeapGrows w w' -> whole (heap w) m -> whole (heap w') m.
Proof.
  intros Hg (Ha & [s [Es Hs]] & [s' [Es' Hs']]).
  split; [exact Ha |].
  split; [exists s | exists s']; split; try assumption; eapply one_row_grows; eassumption.
Qed.

Lemma remembers_whole_grows (w w' : World) (e : Event) :
  HeapGrows w w' -> remembers_whole (heap w) e -> remembers_whole (heap w') e.
Proof.
  intro Hg. destruct e; cbn; try exact (fun H => H). apply whole_grows, Hg.
Qed.

Lemma NotRemember_whole (hp : list Tensor) (e : Event) :
  NotRemember e -> remembers_whole hp e.
Proof. destruct e; cbn; tauto. Qed.

Lemma unchanged_TraceGrows {A : Type} (P : Event -> Prop) (m : M A) :
  Keeps (Unchanged the_trace) m -> Keeps (TraceGrows P) m.
Proof.
  intros H w. exists []. specialize (H w). unfold Unchanged, the_trace in H.
  rewrite H. split; [now rewrite app_nil_r | constructor].
Qed.

Lemma TraceGrows_weaken (P Q : Event -> Prop) (w w' : World) :
  (forall e, P e -> Q e) -> TraceGrows P w w' -> TraceGrows Q w w'.
Proof.
  intros HPQ [new [E F]]. exists new. split; [exact E |].
  revert F. apply Forall_impl. exact HPQ.
Qed.

Lemma forward_TraceGrows input u randomAction :
  Keeps (TraceGrows Acting) (forward input u randomAction).
Proof.
  unfold forward, forward_decay, assign, lodash_random, Model_randomOutput, policy,
    Model_predict, tensor.
  keeping (TraceGrows_refl Acting) (@TraceGrows_trans Acting)
    by (first [ apply emit_TraceGrows; exact I
              | apply alloc_TraceGrows
              | apply modify_TraceGrows; intro; reflexivity
              | apply unchanged_TraceGrows, createNeuralNetInput_trace ]).
Qed.

Lemma createInOutFromMemento_TraceGrows memento :
  Keeps (TraceGrows IsPredict) (createInOutFromMemento memento).
Proof.
  unfold createInOutFromMemento, createInOutFromMemento_target, Model_predict, tensor2d.
  keeping (TraceGrows_refl IsPredict) (@TraceGrows_trans IsPredict)
    by (first [ apply emit_TraceGrows; exact I | apply alloc_TraceGrows ]).
Qed.

Lemma settleFit_trace i outcome (w : World) : trace (settleFit i outcome w) = trace w.
Proof.
  unfold settleFit. destruct (nth_error (pendingFits w) i); [| reflexivity].
  destruct outcome; reflexivity.
Qed.

(** What a step adds to the trace: no call of [remember], but for the one
    [backward] makes when it stores. *)
Lemma step_trace (c : Call) (w : World) :
  exists new,
    trace (step c w) = trace w ++ new
    /\ Forall (fun e => NotRemember e
                        \/ (backward_stores (agent w) = true
                            /\ e = EvRemember (backward_memento (agent w)))) new.
Proof.
  assert (Hnone : forall w' : World, trace w' = trace w ->
            exists new, trace w' = trace w ++ new
              /\ Forall (fun e => NotRemember e
                                  \/ (backward_stores (agent w) = true
                                      /\ e = EvRemember (backward_memento (agent w)))) new).
  { intros w' E. exists []. rewrite E, app_nil_r. split; [reflexivity | constructor]. }
  assert (Hgrow : forall w' : World, TraceGrows NotRemember w w' ->
            exists new, trace w' = trace w ++ new
              /\ Forall (fun e => NotRemember e
                                  \/ (backward_stores (agent w) = true
                                      /\ e = EvRemember (backward_memento (agent w)))) new).
  { intros w' [new [E F]]. exists new. split; [exact E |].
    revert F. apply Forall_impl. intros e He. now left. }
  destruct c as [input u r | | v | v | memento | t | m | i outcome]; cbn [step].
  - apply Hgrow. apply TraceGrows_weaken with (P := Acting);
      [intros [] He; try exact I; destruct He | apply forward_TraceGrows].
  - destruct (backward_trace w) as [new (E & Hno & Hyes)].
    exists new. split; [exact E |].
    destruct (backward_stores (agent w)) eqn:Hs.
    + destruct (Hyes eq_refl) as [rest (-> & F & _)].
      constructor; [right; now split |].
      revert F. apply Forall_impl. intros e He. now left.
    + rewrite (Hno eq_refl). constructor.
  - apply Hnone. reflexivity.
  - apply Hnone. reflexivity.
  - apply Hgrow. apply TraceGrows_weaken with (P := IsPredict);
      [intros [] He; try exact I; destruct He | apply createInOutFromMemento_TraceGrows].
  - apply Hnone. reflexivity.
  - apply Hnone. reflexivity.
  - apply Hnone, settleFit_trace.
Qed.

Lemma run_remembers_whole (calls : list Call) :
  forall w : World,
    Settled w ->
    (0 <= temporalWindow (config (agent w)))%Z ->
    Forall (remembers_whole (heap w)) (trace w) ->
    observed calls w ->
    Forall (remembers_whole (heap (run calls w))) (trace (run calls w)).
Proof.
  induction calls as [| c calls IH]; intros w HS Htw Hall Hobs; [exact Hall |].
  cbn [run fold_left]. destruct Hobs as [Hc Hrest].
  destruct (step_Settled c HS Hc) as [HS' Hg].
  apply IH; [exact HS' | | | exact Hrest].
  - destruct (step_epsilon c w) as [E _].
    assert (E' := f_equal (fun s => temporalWindow s) E).
    unfold the_settings in E'. cbn in E'. rewrite E'. exact Htw.
  - destruct (step_trace c w) as [new [E F]]. rewrite E.
    apply Forall_app. split.
    + revert Hall. apply Forall_impl. intro e. apply remembers_whole_grows, Hg.
    + revert F. apply Forall_impl. intros e [He | [Hs ->]].
      * apply NotRemember_whole, He.
      * cbn. apply (whole_grows Hg). apply backward_memento_whole; assumption.
Qed.

(** X8. With [temporalWindow >= 0], in a run from a new agent in which every
    [forward] was given an observation that is a tensor of one row, every
    memento that was handed to [remember] has a defined action, and as state
    and next state two tensors of one row that are there: the test
    [forwardPasses > temporalWindow + 1] keeps the holes of the new buffers
    and the empty tensors of the warm-up out of the store. *)
Theorem remembered_mementos_are_whole (estimator : Model) (settings : AgentConfig)
    (store : option Memory) (tensors : list Tensor) (calls : list Call) :
  let w := run calls (boot estimator settings store tensors) in
  (0 <= temporalWindow settings)%Z ->
  observed calls (boot estimator settings store tensors) ->
  forall m, In (EvRemember m) (trace w) -> whole (heap w) m.
Proof.
  intros w Htw Hobs m Hin. subst w.
  assert (H : Forall (remembers_whole
                        (heap (run calls (boot estimator settings store tensors))))
                (trace (run calls (boot estimator settings store tensors)))).
  { apply run_remembers_whole;
      [apply boot_Settled | exact Htw | constructor | exact Hobs]. }
  rewrite Forall_forall in H. exact (H _ Hin).
Qed.

(** ** The accumulated reward and the fits *)

Lemma createInOutFromMemento_reward_and_fits memento :
  Keeps (Unchanged the_reward_and_fits) (createInOutFromMemento memento).
Proof.
  unfold createInOutFromMemento, createInOutFromMemento_target, Model_predict,
    tensor2d, alloc, emit.
  unchanged the_reward_and_fits by fail.
Qed.

Lemma replay_prepare_reward_and_fits :
  Keeps (Unchanged the_reward_and_fits) replay_prepare.
Proof.
  unfold replay_prepare, Memory_sample_call, replay_concat, Tensor_concat, alloc, emit.
  unchanged the_reward_and_fits by (apply createInOutFromMemento_reward_and_fits).
Qed.

Lemma createInOutFromMemento_no_fit memento :
  Keeps (TraceGrows NotFit) (createInOutFromMemento memento).
Proof.
  intro w. apply TraceGrows_weaken with (P := IsPredict);
    [intros [] He; try reflexivity; destruct He
    | apply createInOutFromMemento_TraceGrows].
Qed.

Lemma replay_prepare_no_fit : Keeps (TraceGrows NotFit) replay_prepare.
Proof.
  unfold replay_prepare, Memory_sample_call, replay_concat, Tensor_concat, assign.
  keeping (TraceGrows_refl NotFit) (@TraceGrows_trans NotFit)
    by (first [ apply emit_TraceGrows; reflexivity
              | apply alloc_TraceGrows
              | apply modify_TraceGrows; intro; reflexivity
              | apply createInOutFromMemento_no_fit ]).
Qed.

Lemma fits_app (tr new : list Event) : fits (tr ++ new) = (fits tr + fits new)%nat.
Proof. unfold fits. now rewrite filter_app, length_app. Qed.

Lemma fits_kept (w w' : World) :
  TraceGrows NotFit w w' -> fits (trace w') = fits (trace w).
Proof.
  intros [new [E F]]. rewrite E, fits_app.
  assert (H : fits new = 0%nat).
  { clear E. unfold fits. induction F as [| e new He F IH]; [reflexivity |].
    cbn [filter]. unfold NotFit in He. rewrite He. exact IH. }
  lia.
Qed.

(** [replay] either throws before it reaches [fit], and leaves the reward
    and the fits as they were, or dispatches one fit, sets the reward to
    zero and returns. *)
Lemma replay_reward (w : World) :
  (fits (trace (snd (replay w))) = fits (trace w)
   /\ the_reward_and_fits (snd (replay w)) = the_reward_and_fits w
   /\ exists e, fst (replay w) = Throw e)
  \/ (fits (trace (snd (replay w))) = S (fits (trace w))
      /\ currentReward (agent (snd (replay w))) = 0%Q
      /\ (exists p, pendingFits (snd (replay w)) = pendingFits w ++ [p])
      /\ unhandledRejections (snd (replay w)) = unhandledRejections w
      /\ fst (replay w) = Normal tt).
Proof.
  rewrite replay_stages. unfold bind.
  assert (P1 := replay_prepare_reward_and_fits w).
  assert (P2 := fits_kept (replay_prepare_no_fit w)).
  unfold Unchanged, the_reward_and_fits in *.
  destruct (replay_prepare w) as [[td | e] w1]; cbn [fst snd] in *.
  - injection P1 as Pr Pp Pu.
    unfold replay_dispatch, Model_fit.
    destruct (InOut.x td) as [x |].
    + right. unfold bind, emit, modify, setReward, assign. cbn.
      unfold fits in *. rewrite filter_app, length_app, P2, Pp, Pu. cbn.
      split; [lia |]. split; [reflexivity |]. split; [eexists; reflexivity |].
      split; reflexivity.
    + left. cbn. rewrite Pr, Pp, Pu.
      split; [exact P2 |]. split; [reflexivity | eexists; reflexivity].
  - left. split; [exact P2 |]. split; [exact P1 | eexists; reflexivity].
Qed.

Lemma backward_reward (w : World) :
  (fits (trace (snd (backward w))) = fits (trace w)
   /\ the_reward_and_fits (snd (backward w)) = the_reward_and_fits w)
  \/ (fits (trace (snd (backward w))) = S (fits (trace w))
      /\ currentReward (agent (snd (backward w))) = 0%Q
      /\ (exists p, pendingFits (snd (backward w)) = pendingFits w ++ [p])
      /\ unhandledRejections (snd (backward w)) = unhandledRejections w
      /\ fst (backward w) = Normal tt).
Proof.
  rewrite backward_cases.
  destruct (backward_stores (agent w)).
  - destruct (backward_replays (agent w)).
    + assert (Hf : fits (trace (backward_remembered w)) = fits (trace w)).
      { change (trace (backward_remembered w))
          with (trace w ++ [EvRemember (backward_memento (agent w))]).
        rewrite fits_app. cbn. lia. }
      destruct (replay_reward (backward_remembered w))
        as [(F & R & _) | (F & R & P & U & N)].
      * left. rewrite F, R, Hf. split; reflexivity.
      * right. rewrite F, Hf. auto.
    + left. cbn [fst snd].
      change (trace (backward_remembered w))
        with (trace w ++ [EvRemember (backward_memento (agent w))]).
      rewrite fits_app. split; [cbn; lia | reflexivity].
  - left. cbn. split; reflexivity.
Qed.

(** X9. [backward] resets the accumulated reward exactly when it dispatches
    a fit. Either it dispatches none, throwing or not, and the reward and
    the pending fits are as they were; or it dispatches one, the reward is
    zero, and the call returns. *)
Theorem backward_resets_reward_with_fit (w : World) :
  let w' := snd (backward w) in
  (pendingFits w' = pendingFits w
   /\ currentReward (agent w') = currentReward (agent w)
   /\ fits (trace w') = fits (trace w))
  \/ ((exists p, pendingFits w' = pendingFits w ++ [p])
      /\ currentReward (agent w') = 0%Q
      /\ fits (trace w') = S (fits (trace w))
      /\ fst (backward w) = Normal tt).
Proof.
  intro w'. subst w'.
  destruct (backward_reward w) as [(F & R) | (F & R & P & _ & N)].
  - left. unfold the_reward_and_fits in R. injection R as Rr Rp _. auto.
  - right. auto.
Qed.

Lemma settleFit_reward i outcome (w : World) :
  currentReward (agent (settleFit i outcome w)) = currentReward (agent w).
Proof.
  unfold settleFit. destruct (nth_error (pendingFits w) i); [| reflexivity].
  destruct outcome; reflexivity.
Qed.

(** What a step does to the reward, if it dispatches no fit. *)
Lemma step_reward (c : Call) (w : World) :
  (fits (trace w) <= fits (trace (step c w)))%nat
  /\ (fits (trace (step c w)) = fits (trace w) ->
      currentReward (agent (step c w)) =
      match c with
      | CallAddReward value => (currentReward (agent w) + value)%Q
      | CallSetReward value => value
      | _ => currentReward (agent w)
      end).
Proof.
  destruct c as [input u r | | v | v | memento | t | m | i outcome]; cbn [step].
  - assert (F : fits (trace (snd (forward input u r w))) = fits (trace w)).
    { apply fits_kept. apply TraceGrows_weaken with (P := Acting);
        [intros [] He; try reflexivity; destruct He | apply forward_TraceGrows]. }
    split; [lia | intros _].
    destruct (forward_agent input u r w) as (_ & _ & Ha).
    destruct (forward_ready_agent w) as [eps (Er & _)].
    destruct (fst (forward input u r w)) as [action | e].
    + destruct Ha as [netInput ->]. rewrite Er. reflexivity.
    + rewrite Ha, Er. reflexivity.
  - destruct (backward_reward w) as [(F & R) | (F & _)].
    + split; [lia | intros _].
      unfold the_reward_and_fits in R. now injection R as -> _ _.
    + split; lia.
  - split; [apply Nat.le_refl | intros _; reflexivity].
  - split; [apply Nat.le_refl | intros _; reflexivity].
  - assert (F := fits_kept (createInOutFromMemento_no_fit memento w)).
    split; [lia | intros _].
    assert (E := createInOutFromMemento_agent memento w).
    unfold Unchanged, the_agent in E. now rewrite E.
  - split; [apply Nat.le_refl | intros _; reflexivity].
  - split; [apply Nat.le_refl | intros _; reflexivity].
  - rewrite settleFit_trace, settleFit_reward. split; [lia | intros _; reflexivity].
Qed.

Lemma run_fits (calls : list Call) :
  forall w : World, (fits (trace w) <= fits (trace (run calls w)))%nat.
Proof.
  induction calls as [| c calls IH]; intro w; [cbn; lia |].
  cbn [run fold_left].
  change (fold_left _ calls (step c w)) with (run calls (step c w)).
  specialize (IH (step c w)). destruct (step_reward c w) as [H _]. lia.
Qed.

(** X10. Until a fit is dispatched the accumulated reward is never reset:
    after a run without [setReward] in which no fit was dispatched, it is
    the reward the run started with plus all that [addReward] was given,
    the calls of [backward] in between notwithstanding. *)
Theorem rewards_accumulate_until_fit (calls : list Call) (w : World) :
  forallb (fun c => negb (is_setReward c)) calls = true ->
  fits (trace (run calls w)) = fits (trace w) ->
  currentReward (agent (run calls w)) = rewards_added calls (currentReward (agent w)).
Proof.
  revert w. induction calls as [| c calls IH]; intros w Hno Hfits; [reflexivity |].
  cbn [forallb] in Hno. apply andb_true_iff in Hno. destruct Hno as [Hc Hno].
  cbn [run fold_left] in *.
  change (fold_left _ calls (step c w)) with (run calls (step c w)) in *.
  destruct (step_reward c w) as [Hle Hsame].
  assert (Hrun := run_fits calls (step c w)).
  rewrite (IH (step c w) Hno) by lia.
  rewrite Hsame by lia.
  unfold rewards_added. cbn [fold_left].
  destruct c; try reflexivity. discriminate.
Qed.

(** ** Every [replay] *)

Lemma replay_from_sample (w : World) :
  replay w =
  replay_train (fst (Memory_sample (batchSize (config (agent w))) (memory (agent w))))
    (replay_sampled w).
Proof.
  unfold replay, replay_train, replay_sampled, Memory_sample_call, bind, emit, modify,
    gets, assign. cbn.
  destruct (Memory_sample (batchSize (config (agent w))) (memory (agent w))). reflexivity.
Qed.

Lemma replay_train_trace batch : Keeps (TraceGrows Training) (replay_train batch).
Proof.
  unfold replay_train, replay_concat, Model_fit, setReward, Tensor_concat, assign.
  keeping (TraceGrows_refl Training) (@TraceGrows_trans Training)
    by (first [ apply emit_TraceGrows; cbn; auto
              | apply alloc_TraceGrows
              | apply modify_TraceGrows; intro; reflexivity
              | intro w0; apply TraceGrows_weaken with (P := IsPredict);
                [ intros [] He; try exact I; destruct He
                | apply createInOutFromMemento_TraceGrows ] ]).
Qed.

Lemma replay_train_memory batch :
  Keeps (Unchanged (fun w : World => memory (agent w))) (replay_train batch).
Proof.
  unfold replay_train, replay_concat, Model_fit, setReward, Tensor_concat, alloc, emit.
  unchanged (fun w : World => memory (agent w))
    by (apply Unchanged_weaken with (proj := the_agent) (g := fun a : Agent => memory a);
        apply createInOutFromMemento_agent).
Qed.

(** C8, amended. Every [replay] asks the store once, for [batchSize]
    mementos, keeps the store as that call left it, and works on the batch
    the store returned, however many mementos it holds; after that it only
    asks predictions and dispatches at most one fit, of one epoch and one
    step per epoch. A [replay] that returns has dispatched one fit and set the
    accumulated reward to zero with that fit still pending; one that throws
    has dispatched none and left the reward as it was. An empty batch makes
    it throw. When the batch is not empty and a training pair can be made of
    each of its mementos, it returns, having called [fit] on the tensor [X]
    that stacks the rows of the states and the tensor [Y] that stacks the
    label rows, both in the order of the sample, and nothing has been added
    to the loss window. *)
Theorem replay_trains_once (w : World) (c : nat) :
  let a := agent w in
  let size := batchSize (config a) in
  let batch := fst (Memory_sample size (memory a)) in
  let w' := snd (replay w) in
  (exists rest,
     trace w' = trace w ++ EvReplay :: EvSample size :: rest
     /\ Forall Training rest
     /\ (fits rest <= 1)%nat)
  /\ memory (agent w') = snd (Memory_sample size (memory a))
  /\ match fst (replay w) with
     | Normal _ =>
         fits (trace w') = S (fits (trace w))
         /\ (exists p, pendingFits w' = pendingFits w ++ [p])
         /\ currentReward (agent w') = 0%Q
     | Throw _ =>
         fits (trace w') = fits (trace w)
         /\ pendingFits w' = pendingFits w
         /\ currentReward (agent w') = currentReward a
     end
  /\ (batch = [] ->
      fst (replay w) = Throw (TypeError "Reduce of empty array with no initial value"))
  /\ (batch <> [] ->
      forallb (trainable a (heap w) c) batch = true ->
      fst (replay w) = Normal tt
      /\ exists X Y,
           trace w' = trace w ++ [EvReplay; EvSample size]
                      ++ flat_map (spec_predictions a) batch ++ [EvFit X Y 1 1]
           /\ nth_error (heap w') X = Some (Rank2 (concat (map (spec_rows (heap w)) batch)))
           /\ nth_error (heap w') Y = Some (Rank2 (map (spec_label a (heap w)) batch))
           /\ pendingFits w' = pendingFits w ++ [{| fit_x := X; fit_y := Y |}]
           /\ currentReward (agent w') = 0%Q
           /\ lossesHistory (agent w') = lossesHistory (agent w)
           /\ unhandledRejections w' = unhandledRejections w).
Proof.
  intros a size batch w'. subst a size batch w'.
  assert (Hdich := replay_reward w).
  assert (E := replay_from_sample w).
  assert (Ht := replay_train_trace
                  (fst (Memory_sample (batchSize (config (agent w))) (memory (agent w))))
                  (replay_sampled w)).
  assert (Hm := replay_train_memory
                  (fst (Memory_sample (batchSize (config (agent w))) (memory (agent w))))
                  (replay_sampled w)).
  unfold Unchanged in Hm. rewrite <- E in Ht, Hm.
  destruct Ht as [rest [Er Fr]].
  assert (Etrace : trace (snd (replay w)) =
                   trace w ++ EvReplay :: EvSample (batchSize (config (agent w))) :: rest).
  { rewrite Er. unfold replay_sampled. cbn [trace set_trace set_agent].
    rewrite <- !app_assoc. reflexivity. }
  assert (Efits : fits (trace (snd (replay w))) = (fits (trace w) + fits rest)%nat).
  { rewrite Etrace, fits_app. reflexivity. }
  split; [| split; [| split; [| split]]].
  - exists rest. split; [exact Etrace |]. split; [exact Fr |].
    destruct Hdich as [(F & _) | (F & _)]; lia.
  - rewrite Hm. reflexivity.
  - unfold the_reward_and_fits in Hdich.
    destruct Hdich as [(F & R & [e ->]) | (F & R & P & _ & ->)].
    + injection R as Rr Rp _. auto.
    + auto.
  - intro Hempty. rewrite E, Hempty. reflexivity.
  - exact (replay_on_trainable w c).
Qed.

(** ** A sample that is empty *)

(** X11. When [backward] replays and the store hands back an empty sample
    (a [batchSize] of zero, say), the [reduce] without initial value throws a
    [TypeError] out of [backward]: by then the experience is remembered, the
    sample taken and [age] counted, but no tensor is made, no fit is
    dispatched and the reward is not reset. *)
Theorem backward_empty_sample (w : World) :
  let a := agent w in
  let remembered := Memory_remember (backward_memento a) (memory a) in
  backward_replays a = true ->
  fst (Memory_sample (batchSize (config a)) remembered) = [] ->
  let w' := snd (backward w) in
  fst (backward w) = Throw (TypeError "Reduce of empty array with no initial value")
  /\ trace w' = trace w ++ [EvRemember (backward_memento a); EvReplay;
                            EvSample (batchSize (config a))]
  /\ memory (agent w') = snd (Memory_sample (batchSize (config a)) remembered)
  /\ age (track (agent w')) = (age (track a) + 1)%Z
  /\ currentReward (agent w') = currentReward a
  /\ pendingFits w' = pendingFits w
  /\ heap w' = heap w.
Proof.
  intros a remembered Hrep Hempty w'. subst a remembered w'.
  rewrite backward_cases, Hrep.
  assert (Hst : backward_stores (agent w) = true).
  { unfold backward_replays in Hrep. apply andb_true_iff in Hrep. tauto. }
  rewrite Hst.
  unfold replay, Memory_sample_call, bind, emit, modify, gets, assign. cbn.
  destruct (Memory_sample (batchSize (config (agent w)))
              (Memory_remember (backward_memento (agent w)) (memory (agent w))))
    as [batch store].
  cbn in Hempty. subst batch. cbn.
  rewrite <- !app_assoc. repeat split; reflexivity.
Qed.

(** ** [createInOutFromMemento], whatever the memento *)

(** X12. [createInOutFromMemento] changes nothing of the agent and
    dispatches nothing; it asks at most two predictions and nothing else of
    the collaborators. If it returns, the pair holds the state of the memento
    and one new tensor, of one row of three entries; if it throws, it has
    made no tensor. *)
Theorem createInOutFromMemento_frame (w : World) (memento : Memento) :
  let w' := snd (createInOutFromMemento memento w) in
  agent w' = agent w
  /\ pendingFits w' = pendingFits w
  /\ unhandledRejections w' = unhandledRejections w
  /\ (exists new,
        trace w' = trace w ++ new /\ Forall IsPredict new /\ (length new <= 2)%nat)
  /\ match fst (createInOutFromMemento memento w) with
     | Normal made =>
         InOut.x made = state memento
         /\ InOut.y made = length (heap w)
         /\ exists label, heap w' = heap w ++ [Rank2 [label]] /\ length label = 3%nat
     | Throw _ => heap w' = heap w
     end.
Proof.
  intro w'. subst w'.
  unfold createInOutFromMemento, createInOutFromMemento_target, Model_predict, tensor2d,
    tensor, bind, gets, emit, modify, deref, alloc, ret, throw.
  cbn.
  destruct (done (agent w)); cbn;
    repeat match goal with
      | |- context [match nextState memento with _ => _ end] =>
          destruct (nextState memento) as [hn |]; cbn
      | |- context [match state memento with _ => _ end] =>
          destruct (state memento) as [hs |]; cbn
      | |- context [match nth_error (heap w) ?h with _ => _ end] =>
          destruct (nth_error (heap w) h) as [? |]; cbn
      | |- context [if Nat.eqb ?a ?b then _ else _] =>
          let E := fresh "E" in destruct (Nat.eqb a b) eqn:E; cbn
      end;
    (split; [reflexivity |]); (split; [reflexivity |]); (split; [reflexivity |]);
    rewrite <- ?app_assoc;
    (split;
     [ first [ exists []; rewrite app_nil_r; split; [reflexivity |];
               split; [constructor | cbn; lia]
             | eexists; split; [reflexivity |];
               split; [repeat constructor | cbn; lia] ]
     | ]);
    try reflexivity;
    (split; [reflexivity |]); (split; [reflexivity |]);
    (eexists; split; [reflexivity |]);
    apply Nat.eqb_eq in E;
    match goal with
    | |- context [match ?l with _ => _ end] =>
        destruct l as [| a [| b [| c [| d l']]]]; try discriminate E; reflexivity
    end.
Qed.

(** ** The width of the encoded input *)

Lemma spec_oneHot_length (size : nat) (a : option number) :
  length (spec_oneHot size a) = size.
Proof.
  unfold spec_oneHot.
  destruct a as [q |]; [| apply repeat_length].
  destruct (to_index q) as [k |]; [| apply repeat_length].
  destruct (Nat.ltb_spec k size); [| apply repeat_length].
  rewrite length_app. cbn [length]. rewrite !repeat_length. lia.
Qed.

Lemma frames_width (w : World) (d : nat) (n : nat) :
  forall i : nat,
    (forall j : nat, (i <= j < i + n)%nat ->
       exists h r,
         array_get (statesBuffer (agent w))
           (netInputWindowSize (agent w) - 1 - Z.of_nat j) = Some h
         /\ nth_error (heap w) h = Some (Rank2 [r]) /\ length r = d) ->
    exists frames,
      all_defined (map (spec_frame w) (seq i n)) = Some frames
      /\ length (concat frames) = (n * (d + OutputSize (model (agent w))))%nat.
Proof.
  induction n as [| n IH]; intros i H.
  - exists []. split; reflexivity.
  - destruct (H i ltac:(lia)) as (h & r & Eg & Eh & Hr).
    destruct (IH (S i)) as (frames & Ef & Hf); [intros j Hj; apply H; lia |].
    exists ((r ++ spec_oneHot (OutputSize (model (agent w)))
                    (array_get (actionsBuffer (agent w))
                       (netInputWindowSize (agent w) - 1 - Z.of_nat i))) :: frames).
    cbn [seq map all_defined]. unfold spec_frame at 1. rewrite Eg.
    unfold stored_row. rewrite Eh, Ef. split; [reflexivity |].
    cbn [concat]. rewrite !length_app, spec_oneHot_length, Hf, Hr. lia.
Qed.

(** X13. Where the observation and the [temporalWindow] states that
    [createNeuralNetInput] reads are tensors of one row of [d] entries, it
    returns a tensor of one row of
    [d + temporalWindow * (d + OutputSize)] entries. *)
Theorem createNeuralNetInput_width (w : World) (input : Handle) (d : nat) :
  let a := agent w in
  (exists r, nth_error (heap w) input = Some (Rank2 [r]) /\ length r = d) ->
  (forall j : nat, (j < Z.to_nat (temporalWindow (config a)))%nat ->
     exists h r,
       array_get (statesBuffer a) (netInputWindowSize a - 1 - Z.of_nat j) = Some h
       /\ nth_error (heap w) h = Some (Rank2 [r]) /\ length r = d) ->
  exists h row,
    fst (createNeuralNetInput input w) = Normal h
    /\ nth_error (heap (snd (createNeuralNetInput input w))) h = Some (Rank2 [row])
    /\ length row
       = (d + Z.to_nat (temporalWindow (config a)) * (d + OutputSize (model a)))%nat.
Proof.
  intros a [r0 [Hin Hr0]] Hstates. subst a.
  destruct (@frames_width w d (Z.to_nat (temporalWindow (config (agent w)))) 0%nat)
    as (frames & Ef & Hf); [intros j Hj; apply Hstates; lia |].
  assert (Hspec : spec_encodedInput w input = Some (Rank2 [r0 ++ concat frames])).
  { unfold spec_encodedInput. rewrite Hin.
    destruct (Z.to_nat (temporalWindow (config (agent w)))) as [| s].
    - cbn in Ef. injection Ef as <-. cbn. now rewrite app_nil_r.
    - rewrite Ef. reflexivity. }
  destruct (createNeuralNetInput_returns _ _ Hspec) as (h & w1 & E & Hh & _).
  exists h, (r0 ++ concat frames). rewrite E. cbn [fst snd].
  split; [reflexivity |]. split; [exact Hh |].
  rewrite length_app, Hf, Hr0. reflexivity.
Qed.

(** ** What no method touches *)

Lemma backward_track (w : World) :
  track (agent (snd (backward w))) =
  set_age (age (track (agent w)) + 1)%Z (track (agent w)).
Proof.
  rewrite backward_cases.
  destruct (backward_stores (agent w)); [| reflexivity].
  destruct (backward_replays (agent w)); [| reflexivity].
  assert (E := Unchanged_weaken (proj := the_records)
                 (fun r => match r with (_, t, _, _, _, _) => t end)
                 replay_records (backward_remembered w)).
  unfold Unchanged, the_records in E. cbn in E. exact E.
Qed.

Lemma step_track (c : Call) (w : World) :
  let t := track (agent w) in
  let t' := track (agent (step c w)) in
  learning t' = learning t
  /\ averageLoss t' = averageLoss t
  /\ averageReward t' = averageReward t.
Proof.
  destruct c as [input u r | | v | v | memento | t | m | i outcome]; cbn [step]; cbv zeta.
  - rewrite forward_track. repeat split.
  - rewrite backward_track. repeat split.
  - repeat split.
  - repeat split.
  - assert (E := createInOutFromMemento_agent memento w).
    unfold Unchanged, the_agent in E. rewrite E. repeat split.
  - repeat split.
  - repeat split.
  - destruct (settleFit_agent_but_losses i outcome w) as (-> & _). repeat split.
Qed.

(** X14. Nothing ever writes [track.learning], [track.averageLoss] or
    [track.averageReward]: in every world a run reaches from a new agent,
    [learning] is true and the two averages are zero. So [backward] stores an
    experience exactly when [forwardPasses > temporalWindow + 1]. *)
Theorem learning_stays_true (estimator : Model) (settings : AgentConfig)
    (store : option Memory) (tensors : list Tensor) (calls : list Call) :
  let a := agent (run calls (boot estimator settings store tensors)) in
  learning (track a) = true
  /\ averageLoss (track a) = 0%Q
  /\ averageReward (track a) = 0%Q
  /\ backward_stores a = (temporalWindow settings + 1 <? forwardPasses (track a))%Z.
Proof.
  intro a. subst a.
  assert (H : forall w : World,
            let t := track (agent w) in
            let t' := track (agent (run calls w)) in
            learning t' = learning t
            /\ averageLoss t' = averageLoss t
            /\ averageReward t' = averageReward t).
  { induction calls as [| c calls IH]; intro w; cbv zeta; [repeat split |].
    cbn [run fold_left].
    change (fold_left _ calls (step c w)) with (run calls (step c w)).
    destruct (IH (step c w)) as (-> & -> & ->). apply step_track. }
  destruct (H (boot estimator settings store tensors)) as (Hl & Hal & Har).
  cbn in Hl, Hal, Har.
  split; [exact Hl |]. split; [exact Hal |]. split; [exact Har |].
  unfold backward_stores. rewrite Hl. cbn [andb].
  assert (E := run_settings calls (boot estimator settings store tensors)).
  unfold the_settings in E.
  assert (E' : temporalWindow
                 (config (agent (run calls (boot estimator settings store tensors))))
               = temporalWindow settings)
    by exact (f_equal (fun c => temporalWindow c) E).
  rewrite E'. reflexivity.
Qed.

Lemma forward_HeapGrows input u randomAction :
  Keeps HeapGrows (forward input u randomAction).
Proof.
  unfold forward, forward_decay, assign, lodash_random, Model_randomOutput, policy,
    tensor.
  keeping HeapGrows_refl HeapGrows_trans
    by (first [ apply emit_HeapGrows
              | apply alloc_HeapGrows
              | apply Model_predict_HeapGrows
              | apply createNeuralNetInput_HeapGrows
              | apply modify_HeapGrows; intro; reflexivity ]).
Qed.

Lemma step_HeapGrows (c : Call) (w : World) : HeapGrows w (step c w).
Proof.
  destruct c as [input u r | | v | v | memento | t | m | i outcome]; cbn [step].
  - apply forward_HeapGrows.
  - apply backward_HeapGrows.
  - exists []. cbn. now rewrite app_nil_r.
  - exists []. cbn. now rewrite app_nil_r.
  - apply createInOutFromMemento_HeapGrows.
  - apply alloc_HeapGrows.
  - exists []. cbn. now rewrite app_nil_r.
  - destruct (settleFit_agent_but_losses i outcome w) as (_ & _ & _ & _ & _ & E).
    exists []. rewrite E. now rewrite app_nil_r.
Qed.

(** X15. The agent never disposes of a tensor and never writes into one:
    whatever is called, a tensor that was there is still there, under the
    same handle and with the same values. *)
Theorem tensors_are_never_released (calls : list Call) (w : World) (h : Handle)
    (t : Tensor) :
  nth_error (heap w) h = Some t ->
  nth_error (heap (run calls w)) h = Some t.
Proof.
  revert w. induction calls as [| c calls IH]; intros w H; [exact H |].
  cbn [run fold_left]. apply IH.
  eapply HeapGrows_lookup; [apply step_HeapGrows | exact H].
Qed.

End Properties.

(** * The properties on concrete worlds *)

Section Concrete.

Import StandIns Scenario.

(** C1. With an estimator of two outputs [createInOutFromMemento] returns no
    pair: it throws when it shapes the label as [[1, 3]]. *)
Theorem createInOutFromMemento_two_outputs :
  fst (createInOutFromMemento aMemento twoActions) =
  Throw (TensorError "tensor2d: the shape does not match the number of values").
Proof. vm_compute. reflexivity. Qed.

(** The example of the spec: with [gamma = 0.9], a reward of 1 and the
    prediction [[0.2, 0.5, 0.1]], the target is 1.45; it replaces the entry
    of the action. *)
Example createInOutFromMemento_three_outputs_example :
  fst (createInOutFromMemento aMemento (fresh 1)) =
    Normal {| InOut.x := Some 0%nat; InOut.y := 4%nat |}
  /\ nth_error (heap (snd (createInOutFromMemento aMemento (fresh 1)))) 4
     = Some (Rank2 [[29 # 20; 1 # 2; 1 # 10]]).
Proof. vm_compute. split; reflexivity. Qed.

(** The reward of the memento is the accumulated reward, 3, where the action
    buffer holds the action 2. *)
Lemma backward_reward_not_from_actions :
  nth_error (trace (snd (backward thirdStep))) 5 =
    Some (EvRemember {| action := Some 2; reward := 3;
                        state := Some 8%nat; nextState := Some 12%nat |})
  /\ array_get (actionsBuffer (agent thirdStep)) (netInputWindowSize (agent thirdStep) - 2)
     = Some 2
  /\ currentReward (agent thirdStep) = 3
  /\ ~ (3 == 2)%Q.
Proof.
  vm_compute. repeat split; try reflexivity. discriminate.
Qed.

Lemma backward_remembers_witness :
  learning (track (agent thirdStep)) = true
  /\ (forwardPasses (track (agent thirdStep)) > temporalWindow (config (agent thirdStep)) + 1)%Z
  /\ exists rest,
       trace (snd (backward thirdStep)) =
         trace thirdStep ++
         EvRemember {| action := Some 2; reward := 3;
                       state := Some 8%nat; nextState := Some 12%nat |} :: rest
       /\ Forall NotRemember rest.
Proof.
  split; [reflexivity | split; [reflexivity |]].
  exact (backward_remembers thirdStep eq_refl eq_refl).
Defined.

(** The example of the spec: at age 6 a [forward] call takes epsilon from 1
    to 0.99; at age 1000 it leaves it at 1. *)
Lemma forward_epsilon_witness :
  ((age (track (agent (aged 6))) < 1000)%Z /\ (age (track (agent (aged 6))) > 5)%Z /\
   (1 > 1 # 10)%Q)
  /\ epsilon (learningConfig (config (agent (snd (forward 0%nat (1 # 2) 1 (aged 6))))))
     = (1 * (99 # 100))%Q
  /\ ~ ((age (track (agent (aged 1000))) < 1000)%Z /\
        (age (track (agent (aged 1000))) > 5)%Z /\ (1 > 1 # 10)%Q)
  /\ epsilon (learningConfig (config (agent (snd (forward 0%nat (1 # 2) 1 (aged 1000))))))
     = 1.
Proof.
  assert (H6 : (age (track (agent (aged 6))) < 1000)%Z /\
               (age (track (agent (aged 6))) > 5)%Z /\ (1 > 1 # 10)%Q)
    by (repeat split; reflexivity).
  assert (H1000 : ~ ((age (track (agent (aged 1000))) < 1000)%Z /\
                     (age (track (agent (aged 1000))) > 5)%Z /\ (1 > 1 # 10)%Q))
    by (intros [H _]; vm_compute in H; discriminate).
  split; [exact H6 | split].
  - exact (proj1 (forward_epsilon (aged 6) 0%nat (1 # 2) 1) H6).
  - split; [exact H1000 |].
    exact (proj2 (forward_epsilon (aged 1000) 0%nat (1 # 2) 1) H1000).
Defined.

(** With epsilon at 0.15, a minimum of 0.1 and a decay of 0.5, one [forward]
    call takes epsilon to 0.075, below the minimum. *)
Lemma epsilon_falls_below_minimum :
  let lc := learningConfig (config (agent nearMinimum)) in
  (0 < epsilonDecay lc)%Q /\ (0 < epsilonMin lc)%Q
  /\ (epsilonMin lc <= the_epsilon nearMinimum)%Q
  /\ (the_epsilon (run [CallForward 1%nat (1 # 2) 1] nearMinimum) < epsilonMin lc)%Q.
Proof.
  vm_compute. repeat split; try reflexivity. discriminate.
Qed.

Lemma epsilon_over_runs_witness :
  let lc := learningConfig (config (agent eager)) in
  let calls1 := [CallForward 0%nat (1 # 2) 1; CallBackward] in
  let calls2 := [CallForward 1%nat (1 # 2) 2; CallAddReward 1; CallBackward] in
  (0 < epsilonDecay lc)%Q /\ (epsilonDecay lc <= 1)%Q /\ (0 < epsilonMin lc)%Q
  /\ (the_epsilon (run (calls1 ++ calls2) eager) <= the_epsilon (run calls1 eager))%Q.
Proof.
  intros lc calls1 calls2.
  assert (H1 : (0 < epsilonDecay lc)%Q) by reflexivity.
  assert (H2 : (epsilonDecay lc <= 1)%Q) by (vm_compute; discriminate).
  assert (H3 : (0 < epsilonMin lc)%Q) by reflexivity.
  split; [exact H1 | split; [exact H2 | split; [exact H3 |]]].
  exact (proj1 (epsilon_over_runs eager calls1 calls2 H1 H2 H3)).
Defined.

(** Where the warm-up ends: [forward] counts the call before it compares.
    On a new agent that looks at no history, with [temporalWindow = 0], the
    first call compares 1 with 0 and is past the warm-up: the action comes
    from the policy and the encoded input recorded holds the observation. *)
Example forward_counts_the_call_first :
  (forwardPasses (track (agent noHistory)) <= temporalWindow (config (agent noHistory)))%Z
  /\ fst (forward 0%nat (3 # 4) 2 noHistory) = Normal (1 # 2)
  /\ trace (snd (forward 0%nat (3 # 4) 2 noHistory)) = [EvRandom (3 # 4); EvPredict 4%nat]
  /\ array_get (inputsBuffer (agent (snd (forward 0%nat (3 # 4) 2 noHistory)))) 1
     = Some 4%nat
  /\ nth_error (heap (snd (forward 0%nat (3 # 4) 2 noHistory))) 4 = Some (Rank2 [[1; 2]]).
Proof.
  vm_compute. repeat split; try reflexivity. discriminate.
Qed.

Lemma forward_warmup_witness :
  (forwardPasses (track (agent (fresh 1))) + 1 <= temporalWindow (config (agent (fresh 1))))%Z
  /\ fst (forward 0%nat (1 # 2) 1 (fresh 1)) = Normal 1
  /\ trace (snd (forward 0%nat (1 # 2) 1 (fresh 1))) = [EvRandomOutput 1]
  /\ heap (snd (forward 0%nat (1 # 2) 1 (fresh 1))) = observations ++ [Rank1 []]
  /\ inputsBuffer (agent (snd (forward 0%nat (1 # 2) 1 (fresh 1)))) = [None; Some 4%nat].
Proof.
  assert (H : (forwardPasses (track (agent (fresh 1))) + 1
               <= temporalWindow (config (agent (fresh 1))))%Z)
    by (vm_compute; discriminate).
  split; [exact H |].
  exact (forward_warmup (fresh 1) 0%nat (1 # 2) 1 H).
Defined.

Lemma backward_bookkeeping_witness :
  exists new,
    trace (snd (backward thirdStep)) = trace thirdStep ++ new
    /\ In EvReplay new
    /\ age (track (agent (snd (backward thirdStep)))) = 3%Z.
Proof.
  pose proof (backward_bookkeeping thirdStep) as H. cbv zeta in H.
  destruct H as (_ & Hage & new & E & _ & Hreplay & _).
  exists new. split; [exact E | split].
  - apply (proj2 Hreplay). repeat split; reflexivity.
  - exact Hage.
Defined.

Lemma createNeuralNetInput_encodes_witness :
  spec_encodedInput secondCall 1%nat = Some (Rank2 [[3; 4; 1; 2; 0; 1; 0]])
  /\ exists h,
       fst (createNeuralNetInput 1%nat secondCall) = Normal h
       /\ nth_error (heap (snd (createNeuralNetInput 1%nat secondCall))) h
          = Some (Rank2 [[3; 4; 1; 2; 0; 1; 0]])
       /\ h <> 1%nat
       /\ nth_error (heap (snd (createNeuralNetInput 1%nat secondCall))) 1
          = Some (Rank2 [[3; 4]]).
Proof.
  assert (H : spec_encodedInput secondCall 1%nat = Some (Rank2 [[3; 4; 1; 2; 0; 1; 0]]))
    by (vm_compute; reflexivity).
  split; [exact H |].
  destruct (createNeuralNetInput_encodes secondCall 1%nat H)
    as [h (Eh & Hh & Hne & _ & Hkept & _)].
  exists h. split; [exact Eh | split; [exact Hh | split; [exact Hne |]]].
  rewrite Hkept. reflexivity.
Defined.

Lemma replay_trains_once_witness :
  fst (Memory_sample 2 (memory (agent fourthStep))) <> []
  /\ forallb (trainable (agent fourthStep) (heap fourthStep) 7)
       (fst (Memory_sample 2 (memory (agent fourthStep)))) = true
  /\ fst (replay fourthStep) = Normal tt
  /\ exists X Y,
       trace (snd (replay fourthStep)) =
         trace fourthStep ++
         [EvReplay; EvSample 2; EvPredict 12%nat; EvPredict 8%nat;
          EvPredict 17%nat; EvPredict 12%nat; EvFit X Y 1 1]
       /\ nth_error (heap (snd (replay fourthStep))) X
          = Some (Rank2 [[3; 4; 1; 2; 0; 1; 0]; [5; 6; 3; 4; 0; 0; 1]])
       /\ nth_error (heap (snd (replay fourthStep))) Y
          = Some (Rank2 [[1 # 5; 1 # 2; 69 # 20]; [49 # 20; 1 # 2; 1 # 10]])
       /\ currentReward (agent (snd (replay fourthStep))) = 0.
Proof.
  assert (H1 : fst (Memory_sample 2 (memory (agent fourthStep))) <> [])
    by (vm_compute; discriminate).
  assert (H2 : forallb (trainable (agent fourthStep) (heap fourthStep) 7)
                 (fst (Memory_sample 2 (memory (agent fourthStep)))) = true)
    by (vm_compute; reflexivity).
  split; [exact H1 | split; [exact H2 |]].
  pose proof (replay_trains_once fourthStep 7) as H. cbv zeta in H.
  destruct H as (_ & _ & _ & _ & H).
  destruct (H H1 H2) as (Hret & X & Y & Htrace & HX & HY & _ & Hreward & _).
  split; [exact Hret |].
  exists X, Y. split; [| split; [| split]].
  - rewrite Htrace. reflexivity.
  - rewrite HX. vm_compute. reflexivity.
  - rewrite HY. vm_compute. reflexivity.
  - exact Hreward.
Defined.

(** The fit of the third step is rejected: the [backward] call that
    dispatched it had returned normally; the rejection leaves the agent and
    the trace as they were and an error no one handles; the calls that follow
    return normally. *)
Lemma rejected_fit_reaches_no_caller :
  fst (backward thirdStep) = Normal tt
  /\ pendingFits dispatched = [{| fit_x := 8%nat; fit_y := 13%nat |}]
  /\ let rejected := settleFit 0 (Rejected "out of memory") dispatched in
     unhandledRejections rejected = [Error "Unable to realize fit correctly"]
     /\ agent rejected = agent dispatched
     /\ trace rejected = trace dispatched
     /\ pendingFits rejected = []
     /\ fst (forward 3%nat (1 # 2) 0 rejected) = Normal 0
     /\ fst (backward (snd (forward 3%nat (1 # 2) 0 rejected))) = Normal tt.
Proof.
  vm_compute. repeat split; reflexivity.
Qed.

Lemma fit_settles_witness :
  nth_error (pendingFits dispatched) 0 = Some {| fit_x := 8%nat; fit_y := 13%nat |}
  /\ samples (lossesHistory (agent (settleFit 0 (Resolved [1 # 4; 1 # 8]) dispatched)))
     = [Some (1 # 4)]
  /\ unhandledRejections (settleFit 0 (Rejected "out of memory") dispatched)
     = [Error "Unable to realize fit correctly"]
  /\ fst (backward thirdStep) = Normal tt.
Proof.
  assert (H : nth_error (pendingFits dispatched) 0
              = Some {| fit_x := 8%nat; fit_y := 13%nat |}) by reflexivity.
  assert (Hd : pendingFits (snd (backward thirdStep)) <> pendingFits thirdStep)
    by (vm_compute; discriminate).
  destruct (fit_settles dispatched) as [_ Hsettle].
  destruct (Hsettle 0%nat _ H) as [Hres Hrej].
  split; [exact H | split; [| split]].
  - rewrite Hres. reflexivity.
  - rewrite Hrej. reflexivity.
  - exact (proj1 (fit_settles thirdStep) Hd).
Defined.

(** [done] after the four steps. *)
Example done_stays_false_example : done (agent fourthStep) = false.
Proof. reflexivity. Qed.


(** ** Further properties on concrete worlds *)

(** On the fourth [forward] of the eager agent epsilon goes from 0.9801 to
    0.970299 before the draw is compared with it: a draw of 0.5 explores, a
    draw of 0.975 asks the estimator. *)
Lemma epsilon_greedy_choice_witness :
  (temporalWindow (config (agent thirdStep)) < forwardPasses (track (agent thirdStep)) + 1)%Z
  /\ spec_encodedInput thirdStep 3%nat = Some (Rank2 [[7; 8; 5; 6; 1; 0; 0]])
  /\ the_epsilon thirdStep = (9801 # 10000)
  /\ fst (forward 3%nat (1 # 2) 0 thirdStep) = Normal 0
  /\ fst (forward 3%nat (39 # 40) 0 thirdStep) = Normal (1 # 2).
Proof.
  assert (H1 : (temporalWindow (config (agent thirdStep))
                < forwardPasses (track (agent thirdStep)) + 1)%Z) by reflexivity.
  assert (H2 : spec_encodedInput thirdStep 3%nat = Some (Rank2 [[7; 8; 5; 6; 1; 0; 0]]))
    by (vm_compute; reflexivity).
  split; [exact H1 | split; [exact H2 | split; [vm_compute; reflexivity |]]].
  pose proof (epsilon_greedy_choice thirdStep 3%nat (1 # 2) 0 H1 H2) as Hlow.
  pose proof (epsilon_greedy_choice thirdStep 3%nat (39 # 40) 0 H1 H2) as Hhigh.
  cbv zeta in Hlow, Hhigh.
  destruct Hlow as [h1 (_ & _ & Hlow)]. destruct Hhigh as [h2 (_ & _ & Hhigh)].
  assert (E1 : Qltb (1 # 2) (the_epsilon (snd (forward 3%nat (1 # 2) 0 thirdStep))) = true)
    by (vm_compute; reflexivity).
  assert (E2 : Qltb (39 # 40) (the_epsilon (snd (forward 3%nat (39 # 40) 0 thirdStep)))
               = false)
    by (vm_compute; reflexivity).
  rewrite E1 in Hlow. rewrite E2 in Hhigh.
  split; [exact (proj1 Hlow) | exact (proj1 Hhigh)].
Defined.

Lemma forward_returns_in_runs_witness :
  observed threeSteps eager
  /\ one_row (heap (run threeSteps eager)) 3%nat
  /\ exists action, fst (forward 3%nat (1 # 2) 0 (run threeSteps eager)) = Normal action.
Proof.
  assert (H1 : observed threeSteps eager).
  { vm_compute.
    repeat match goal with
           | |- _ /\ _ => split
           | |- True => exact I
           | |- ex _ => eexists; reflexivity
           end. }
  assert (H2 : one_row (heap (run threeSteps eager)) 3%nat)
    by (vm_compute; eexists; reflexivity).
  split; [exact H1 | split; [exact H2 |]].
  exact (forward_returns_in_runs threeOutputs (settings 1 0 1 (1 # 10) (99 # 100)) None
           observations threeSteps (1 # 2) 0 H1 H2).
Defined.

(** The memento of the third step: its action is 2, its two states are the
    encoded inputs of the second and of the third [forward]. *)
Lemma remembered_mementos_are_whole_witness :
  (0 <= temporalWindow (config (agent eager)))%Z
  /\ observed threeSteps eager
  /\ In (EvRemember thirdMemento) (trace (run threeSteps eager))
  /\ whole (heap (run threeSteps eager)) thirdMemento.
Proof.
  assert (H0 : (0 <= temporalWindow (config (agent eager)))%Z)
    by (vm_compute; discriminate).
  assert (H1 : observed threeSteps eager).
  { vm_compute.
    repeat match goal with
           | |- _ /\ _ => split
           | |- True => exact I
           | |- ex _ => eexists; reflexivity
           end. }
  assert (H2 : In (EvRemember thirdMemento) (trace (run threeSteps eager))).
  { vm_compute. do 5 right. left. reflexivity. }
  split; [exact H0 | split; [exact H1 | split; [exact H2 |]]].
  exact (remembered_mementos_are_whole threeOutputs (settings 1 0 1 (1 # 10) (99 # 100))
           None observations threeSteps H0 H1 thirdMemento H2).
Defined.

(** Two steps within the warm-up: the rewards 1 and 2 add up to 3, the
    [backward] in between notwithstanding. *)
Lemma rewards_accumulate_until_fit_witness :
  forallb (fun c => negb (is_setReward c)) twoSteps = true
  /\ fits (trace (run twoSteps eager)) = fits (trace eager)
  /\ currentReward (agent (run twoSteps eager)) = (0 + 1 + 2)%Q.
Proof.
  assert (H1 : forallb (fun c => negb (is_setReward c)) twoSteps = true) by reflexivity.
  assert (H2 : fits (trace (run twoSteps eager)) = fits (trace eager))
    by (vm_compute; reflexivity).
  split; [exact H1 | split; [exact H2 |]].
  exact (rewards_accumulate_until_fit twoSteps eager H1 H2).
Defined.

(** With a batch size of zero the third [backward] throws, and keeps the
    reward of 3. *)
Lemma backward_empty_sample_witness :
  backward_replays (agent noBatch) = true
  /\ fst (Memory_sample (batchSize (config (agent noBatch)))
            (Memory_remember (backward_memento (agent noBatch)) (memory (agent noBatch))))
     = []
  /\ fst (backward noBatch)
     = Throw (TypeError "Reduce of empty array with no initial value")
  /\ currentReward (agent (snd (backward noBatch))) = 3.
Proof.
  assert (H1 : backward_replays (agent noBatch) = true) by (vm_compute; reflexivity).
  assert (H2 : fst (Memory_sample (batchSize (config (agent noBatch)))
                      (Memory_remember (backward_memento (agent noBatch))
                         (memory (agent noBatch)))) = [])
    by (vm_compute; reflexivity).
  split; [exact H1 | split; [exact H2 |]].
  pose proof (backward_empty_sample noBatch H1 H2) as H. cbv zeta in H.
  destruct H as (Hthrow & _ & _ & _ & Hreward & _).
  split; [exact Hthrow |]. rewrite Hreward. vm_compute. reflexivity.
Defined.

(** The fourth encoded input of the eager agent: two entries of the
    observation, two of the state before and three for its action. *)
Lemma createNeuralNetInput_width_witness :
  exists h row,
    fst (createNeuralNetInput 3%nat thirdStep) = Normal h
    /\ nth_error (heap (snd (createNeuralNetInput 3%nat thirdStep))) h = Some (Rank2 [row])
    /\ length row = 7%nat.
Proof.
  assert (H1 : exists r, nth_error (heap thirdStep) 3 = Some (Rank2 [r])
                         /\ length r = 2%nat)
    by (exists [7; 8]; split; reflexivity).
  assert (H2 : forall j : nat,
             (j < Z.to_nat (temporalWindow (config (agent thirdStep))))%nat ->
             exists h r,
               array_get (statesBuffer (agent thirdStep))
                 (netInputWindowSize (agent thirdStep) - 1 - Z.of_nat j) = Some h
               /\ nth_error (heap thirdStep) h = Some (Rank2 [r]) /\ length r = 2%nat).
  { intros j Hj. destruct j as [| j].
    - exists 2%nat, [5; 6]. repeat split; reflexivity.
    - exfalso. vm_compute in Hj. lia. }
  exact (createNeuralNetInput_width thirdStep 3%nat H1 H2).
Defined.

Lemma tensors_are_never_released_witness :
  nth_error (heap eager) 0 = Some (Rank2 [[1; 2]])
  /\ nth_error (heap (run threeSteps eager)) 0 = Some (Rank2 [[1; 2]]).
Proof.
  assert (H : nth_error (heap eager) 0 = Some (Rank2 [[1; 2]])) by reflexivity.
  split; [exact H |].
  exact (tensors_are_never_released threeSteps eager 0%nat H).
Defined.

(** The replay of the third step asks for two mementos and the store holds
    one: the fit is on that one. With a batch size of zero the replay of the
    same step throws, no fit is dispatched and the reward stays at 3. *)
Lemma replay_on_a_short_or_empty_sample :
  backward_replays (agent thirdStep) = true
  /\ batchSize (config (agent thirdStep)) = 2%Z
  /\ length (fst (Memory_sample 2 (memory (agent (backward_remembered thirdStep)))))
     = 1%nat
  /\ trace (snd (backward thirdStep)) =
       trace thirdStep ++
       [EvRemember thirdMemento; EvReplay; EvSample 2; EvPredict 12%nat; EvPredict 8%nat;
        EvFit 8%nat 13%nat 1 1]
  /\ backward_replays (agent noBatch) = true
  /\ (exists e, fst (backward noBatch) = Throw e)
  /\ fits (trace (snd (backward noBatch))) = 0%nat
  /\ pendingFits (snd (backward noBatch)) = []
  /\ currentReward (agent (snd (backward noBatch))) = 3
  /\ ~ (3 == 0)%Q.
Proof.
  vm_compute. repeat split; try reflexivity; try discriminate.
  eexists. reflexivity.
Qed.

End Concrete.
